(** * The reconciliation core of the Postgres controller

    A shallow embedding of [pkg/controller/service.go] (services, the
    StatefulSet mutator, the derivation of the environment, the monitor) and
    the properties of it that the specification states, followed by
    properties that the code shows besides.

    Go values are modelled as follows: a struct is a record, a pointer that
    may be nil is an [option], a slice is a [list], a [map[string]string] is
    a [gmap string string], an [int32] is a [Z].  A function that can panic
    returns in [Go]; a function that talks to the control plane threads the
    [World]. *)

From stdpp Require Import base strings list gmap pretty.

Local Open Scope string_scope.
Local Open Scope Z_scope.
Local Open Scope list_scope.

(** ** Go: results and panics *)

Inductive PanicKind :=
  | NilDereference
  | IndexOutOfRange.

Inductive Go (A : Type) :=
  | Done (a : A)
  | Panic (p : PanicKind).
Arguments Done {A} a.
Arguments Panic {A} p.

(** Sequencing: a panic ends the computation.  With these instances the
    notation [x ← m; k] reads as Go's statement order. *)
Global Instance Go_ret : MRet Go := λ A a, Done a.
Global Instance Go_bind : MBind Go := λ A B k m,
  match m with
  | Done a => k a
  | Panic p => Panic p
  end.

(** [*p] for a pointer [p]. *)
Definition deref {A} (p : option A) : Go A :=
  match p with
  | Some a => Done a
  | None => Panic NilDereference
  end.

(** ** k8s.io/api/core/v1: the parts the controller reads and writes *)

Record ObjectFieldSelector := { ofs_FieldPath : string }.

Record SecretKeySelector := { sks_Name : string; sks_Key : string }.

(** The two members of the union that the controller builds. *)
Record EnvVarSource := {
  evs_FieldRef : option ObjectFieldSelector;
  evs_SecretKeyRef : option SecretKeySelector
}.

Record EnvVar := {
  env_Name : string;
  env_Value : string;
  env_ValueFrom : option EnvVarSource
}.

(** [core.EnvVar{Name: n, Value: v}] *)
Definition envValue (n v : string) : EnvVar :=
  {| env_Name := n; env_Value := v; env_ValueFrom := None |}.

(** [core.EnvVar{Name: n, ValueFrom: &core.EnvVarSource{...}}] *)
Definition envFieldRef (n path : string) : EnvVar :=
  {| env_Name := n; env_Value := "";
     env_ValueFrom := Some {| evs_FieldRef := Some {| ofs_FieldPath := path |};
                              evs_SecretKeyRef := None |} |}.

Definition envSecretKeyRef (n secret key : string) : EnvVar :=
  {| env_Name := n; env_Value := "";
     env_ValueFrom := Some {| evs_FieldRef := None;
                              evs_SecretKeyRef := Some {| sks_Name := secret; sks_Key := key |} |} |}.

Record VolumeMount := { vm_Name : string; vm_MountPath : string }.

Record EmptyDirVolumeSource := {
  ed_Medium : string;
  ed_SizeLimit : option string
}.

(** The union of volume kinds: the two members the controller builds, and
    the remaining ones, which it only copies from the database object. *)
Record VolumeSource := {
  vs_Secret : option string;
  vs_EmptyDir : option EmptyDirVolumeSource;
  vs_Other : string
}.

Record Volume := { vol_Name : string; vol_VolumeSource : VolumeSource }.

Record ContainerPort := {
  cp_Name : string;
  cp_ContainerPort : Z;
  cp_Protocol : string
}.

Record SecurityContext := {
  sc_Privileged : option bool;
  sc_CapabilitiesAdd : option (list string)
}.

Record Container := {
  c_Name : string;
  c_Image : string;
  c_Args : list string;
  c_Ports : list ContainerPort;
  c_Env : list EnvVar;
  c_Resources : string;
  c_VolumeMounts : list VolumeMount;
  c_LivenessProbe : option string;
  c_ReadinessProbe : option string;
  c_Lifecycle : option string;
  c_ImagePullPolicy : string;
  c_SecurityContext : option SecurityContext
}.

Record PersistentVolumeClaimSpec := {
  pvcs_AccessModes : list string;
  pvcs_Requests : gmap string string;
  pvcs_StorageClassName : option string
}.

Record PersistentVolumeClaim := {
  pvc_Name : string;
  pvc_Annotations : gmap string string;
  pvc_Spec : PersistentVolumeClaimSpec
}.

Record OwnerReference := {
  or_APIVersion : string;
  or_Kind : string;
  or_Name : string;
  or_UID : string;
  or_Controller : bool;
  or_BlockOwnerDeletion : bool
}.

Record ObjectMeta := {
  om_Name : string;
  om_Namespace : string;
  om_Labels : gmap string string;
  om_Annotations : gmap string string;
  om_OwnerReferences : list OwnerReference
}.

Record PodSpec := {
  ps_InitContainers : list Container;
  ps_Containers : list Container;
  ps_Volumes : list Volume;
  ps_NodeSelector : gmap string string;
  ps_Affinity : option string;
  ps_SchedulerName : string;
  ps_Tolerations : list string;
  ps_ImagePullSecrets : list string;
  ps_PriorityClassName : string;
  ps_Priority : option Z;
  ps_SecurityContext : option string;
  ps_ServiceAccountName : string
}.

Record PodTemplateSpec := {
  pt_Labels : gmap string string;
  pt_Annotations : gmap string string;
  pt_Spec : PodSpec
}.

Record StatefulSetSpec := {
  ss_Replicas : option Z;
  ss_ServiceName : string;
  ss_Selector : option (gmap string string);
  ss_Template : PodTemplateSpec;
  ss_VolumeClaimTemplates : list PersistentVolumeClaim;
  ss_UpdateStrategy : string
}.

Record StatefulSet := {
  sts_ObjectMeta : ObjectMeta;
  sts_Spec : StatefulSetSpec
}.

Inductive IntOrString :=
  | FromInt (i : Z)
  | FromString (s : string).

Record ServicePort := {
  sp_Name : string;
  sp_Protocol : string;
  sp_Port : Z;
  sp_TargetPort : IntOrString;
  sp_NodePort : Z
}.

Record ServiceSpec := {
  svs_Type : string;
  svs_ClusterIP : string;
  svs_Selector : gmap string string;
  svs_PublishNotReadyAddresses : bool;
  svs_Ports : list ServicePort;
  svs_ExternalIPs : list string;
  svs_LoadBalancerIP : string;
  svs_LoadBalancerSourceRanges : list string;
  svs_ExternalTrafficPolicy : string;
  svs_HealthCheckNodePort : Z
}.

Record Service := {
  svc_ObjectMeta : ObjectMeta;
  svc_Spec : ServiceSpec
}.

(** ** kubedb.dev/apimachinery: the Postgres object *)

Record S3Spec := {
  s3_Endpoint : string;
  s3_Bucket : string;
  s3_Prefix : string;
  s3_Region : string
}.

Record GCSSpec := { gcs_Bucket : string; gcs_Prefix : string }.

Record AzureSpec := { az_Container : string; az_Prefix : string }.

Record SwiftSpec := { sw_Container : string; sw_Prefix : string }.

Record LocalSpec := {
  loc_VolumeSource : VolumeSource;
  loc_MountPath : string;
  loc_SubPath : string
}.

(** [store.Backend]: every member is a pointer, nothing forces exactly one
    of them to be set. *)
Record Backend := {
  StorageSecretName : string;
  S3 : option S3Spec;
  GCS : option GCSSpec;
  Azure : option AzureSpec;
  Swift : option SwiftSpec;
  Local : option LocalSpec
}.

Record RecoveryTarget := {
  TargetTime : string;
  TargetTimeline : string;
  TargetXID : string;
  TargetInclusive : option bool
}.

(** [api.PostgresWALSourceSpec] embeds the backend. *)
Record PostgresWALSourceSpec := {
  wal_Backend : Backend;
  wal_PITR : option RecoveryTarget
}.

Record ScriptSourceSpec := { script_VolumeSource : VolumeSource }.

Record InitSpec := {
  init_Script : option ScriptSourceSpec;
  init_PostgresWAL : option PostgresWALSourceSpec
}.

Record PostgresArchiverSpec := { arch_Storage : option Backend }.

Record LeaderElectionConfig := {
  LeaseDurationSeconds : Z;
  RenewDeadlineSeconds : Z;
  RetryPeriodSeconds : Z
}.

Record PrometheusExporterSpec := {
  exp_Port : Z;
  exp_Args : list string;
  exp_Env : list EnvVar;
  exp_Resources : string;
  exp_SecurityContext : option SecurityContext
}.

(** [mona.AgentSpec]; [mon_Prometheus] is the pointer [Prometheus], whose
    one member read here is [Exporter]. *)
Record AgentSpec := {
  mon_Agent : string;
  mon_Prometheus : option PrometheusExporterSpec
}.

(** [ofst.PodTemplateSpec], with its [Controller] and [Spec] members. *)
Record OffshootPodTemplate := {
  tpl_Annotations : gmap string string;
  tpl_ControllerAnnotations : gmap string string;
  tpl_InitContainers : list Container;
  tpl_Env : list EnvVar;
  tpl_Resources : string;
  tpl_LivenessProbe : option string;
  tpl_ReadinessProbe : option string;
  tpl_Lifecycle : option string;
  tpl_NodeSelector : gmap string string;
  tpl_Affinity : option string;
  tpl_SchedulerName : string;
  tpl_Tolerations : list string;
  tpl_ImagePullSecrets : list string;
  tpl_PriorityClassName : string;
  tpl_Priority : option Z;
  tpl_SecurityContext : option string;
  tpl_ServiceAccountName : string
}.

Record OffshootServicePort := {
  osp_Name : string;
  osp_Port : Z;
  osp_NodePort : Z
}.

(** [ofst.ServiceTemplateSpec] *)
Record ServiceTemplate := {
  st_Annotations : gmap string string;
  st_Ports : list OffshootServicePort;
  st_ClusterIP : string;
  st_Type : string;
  st_ExternalIPs : list string;
  st_LoadBalancerIP : string;
  st_LoadBalancerSourceRanges : list string;
  st_ExternalTrafficPolicy : string;
  st_HealthCheckNodePort : Z
}.

Record Condition := { cond_Type : string; cond_Status : string }.

Record PostgresSpec := {
  Replicas : option Z;
  StandbyMode : option string;
  StreamingMode : option string;
  LeaderElection : option LeaderElectionConfig;
  Archiver : option PostgresArchiverSpec;
  Init : option InitSpec;
  Monitor : option AgentSpec;
  AuthSecretName : string;
  ConfigSecret : option string;
  StorageType : string;
  Storage : option PersistentVolumeClaimSpec;
  PodTemplate : OffshootPodTemplate;
  ServiceTemplate_ : ServiceTemplate;
  ReplicaServiceTemplate : ServiceTemplate
}.

Record Postgres := {
  Name : string;
  Namespace : string;
  UID : string;
  Spec : PostgresSpec;
  StatusConditions : list Condition
}.

(** [catalog.PostgresVersion] *)
Record PostgresVersion := {
  pv_DBImage : string;
  pv_ExporterImage : string
}.

(** The fields of [Controller] that the StatefulSet depends on. *)
Record Controller := {
  EnableAnalytics : bool;
  LoggerOptionsFlags : list string;
  AnalyticsClientID : string
}.

(** [kutil.VerbType], with the three verbs a create-or-patch call returns. *)
Inductive VerbType :=
  | VerbUnchanged
  | VerbCreated
  | VerbPatched.

(** A Go [error] value: what the client reports, and what [fmt.Errorf]
    builds. *)
Inductive error :=
  | ErrNotFound
  | ErrClient (msg : string)
  | Errorf (msg : string).

(** [kerr.IsNotFound] *)
Definition IsNotFound (e : error) : bool :=
  match e with
  | ErrNotFound => true
  | _ => false
  end.

Global Instance VerbType_eq_dec : EqDecision VerbType.
Proof. solve_decision. Defined.
Global Instance error_eq_dec : EqDecision error.
Proof. solve_decision. Defined.

(** ** What the controller imports

    Constants and functions of [kubedb.dev/apimachinery],
    [kubedb.dev/pg-leader-election], [kmodules.xyz] and of Go's [strings]
    and [path], and helpers of the controller package defined outside
    [service.go].  The development is parametric in them. *)

Class Imports := {
  SchemeGroupVersion : string;
  ResourceSingularPostgres : string;
  ResourceKindPostgres : string;
  LabelDatabaseKind : string;
  LabelDatabaseName : string;
  PostgresDatabasePort : Z;
  PostgresDatabasePortName : string;
  PostgresPrimaryServicePortName : string;
  PostgresStandbyServicePortName : string;
  PostgresLabelRole : string;
  PostgresPodPrimary : string;
  PostgresPodStandby : string;
  WarmPostgresStandbyMode : string;
  AsynchronousPostgresStreamingMode : string;
  StorageTypeEphemeral : string;
  DatabaseDataRestored : string;
  EnvPostgresUser : string;
  EnvPostgresPassword : string;
  LeaseDurationEnv : string;
  RenewDeadlineEnv : string;
  RetryPeriodEnv : string;
  analytics_Key : string;
  VendorPrometheus : string;
  PrometheusExporterPortName : string;
  BasicAuthUsernameKey : string;
  BasicAuthPasswordKey : string;
  (* methods of api.Postgres *)
  OffshootName : Postgres → string;
  GoverningServiceName : Postgres → string;
  StandbyServiceName : Postgres → string;
  ServiceName : Postgres → string;
  StatsServiceName : Postgres → string;
  StatsServicePath : Postgres → string;
  OffshootLabels : Postgres → gmap string string;
  OffshootSelectors : Postgres → gmap string string;
  StatsServiceLabels : Postgres → gmap string string;
  (* mona.AgentType.Vendor *)
  Vendor : string → string;
  (* controller.WalDataDir *)
  WalDataDir : Postgres → string;
  (* strings.ToLower, path.Join *)
  strings_ToLower : string → string;
  path_Join : list string → string;
  (* core_util.MergeServicePorts, ofst.MergeServicePorts *)
  core_MergeServicePorts : list ServicePort → list ServicePort → list ServicePort;
  ofst_MergeServicePorts : list ServicePort → list OffshootServicePort → list ServicePort
}.

(** ** Go's [strings] and [fmt], where a property depends on them *)

(** [strings.HasSuffix]:
    [len(s) >= len(suffix) && s[len(s)-len(suffix):] == suffix] *)
Definition HasSuffix (s suffix : string) : bool :=
  bool_decide (String.length suffix ≤ String.length s)%nat
  && bool_decide (String.substring (String.length s - String.length suffix)
                                   (String.length suffix) s = suffix).

(** [fmt.Sprintf("%t", b)] *)
Definition fmt_t (b : bool) : string := if b then "true" else "false".

(** [fmt.Sprintf("%d", n)] and [strconv.Itoa(n)] *)
Definition Itoa (n : Z) : string := pretty n.

(** [s] between double quotes, as in a format string. *)
Definition quoted (s : string) : string :=
  let q := String (Ascii.Ascii false true false false false true false false) EmptyString in
  q +:+ s +:+ q.

(** [s != ""] *)
Definition nonempty (s : string) : bool := bool_decide (s ≠ "").

(** ** Deriving the environment *)

Section Environment.
Context {imports : Imports}.

(** The backend part of [walRecoveryConfig]: the chain of
    [if wal.S3 != nil ... else if wal.GCS != nil ...]. *)
Definition restoreBackendEnv (wal : PostgresWALSourceSpec) : list EnvVar :=
  let b := wal_Backend wal in
  match S3 b with
  | Some s3 =>
      [envValue "RESTORE_S3_PREFIX" ("s3://" +:+ s3_Bucket s3 +:+ "/" +:+ s3_Prefix s3)]
      ++ (if nonempty (s3_Endpoint s3) && negb (HasSuffix (s3_Endpoint s3) ".amazonaws.com")
          then [envValue "RESTORE_S3_ENDPOINT" (s3_Endpoint s3)] else [])
      ++ (if nonempty (s3_Region s3)
          then [envValue "RESTORE_S3_REGION" (s3_Region s3)] else [])
  | None =>
  match GCS b with
  | Some gcs =>
      [envValue "RESTORE_GS_PREFIX" ("gs://" +:+ gcs_Bucket gcs +:+ "/" +:+ gcs_Prefix gcs)]
  | None =>
  match Azure b with
  | Some az =>
      [envValue "RESTORE_AZ_PREFIX" ("azure://" +:+ az_Container az +:+ "/" +:+ az_Prefix az)]
  | None =>
  match Swift b with
  | Some sw =>
      [envValue "RESTORE_SWIFT_PREFIX" ("swift://" +:+ sw_Container sw +:+ "/" +:+ sw_Prefix sw)]
  | None =>
  match Local b with
  | Some loc =>
      let archiveSource := path_Join ["/"; loc_MountPath loc; loc_SubPath loc] in
      [envValue "RESTORE_FILE_PREFIX" archiveSource]
  | None => []
  end end end end end.

(** The [if wal.PITR != nil] part; [*wal.PITR.TargetInclusive] is the one
    dereference of a pointer that nothing has compared with nil. *)
Definition pitrEnv (wal : PostgresWALSourceSpec) : Go (list EnvVar) :=
  match wal_PITR wal with
  | Some pitr =>
      inclusive ← deref (TargetInclusive pitr);
      mret ([envValue "PITR" "true";
             envValue "TARGET_INCLUSIVE" (fmt_t inclusive)]
            ++ (if nonempty (TargetTime pitr)
                then [envValue "TARGET_TIME" (TargetTime pitr)] else [])
            ++ (if nonempty (TargetTimeline pitr)
                then [envValue "TARGET_TIMELINE" (TargetTimeline pitr)] else [])
            ++ (if nonempty (TargetXID pitr)
                then [envValue "TARGET_XID" (TargetXID pitr)] else []))
  | None => mret []
  end.

Definition walRecoveryConfig (wal : PostgresWALSourceSpec) : Go (list EnvVar) :=
  let envList := [envValue "RESTORE" "true"] in
  let envList := envList ++ restoreBackendEnv wal in
  pitr ← pitrEnv wal;
  mret (envList ++ pitr).

(** The [if db.Spec.Archiver != nil] part of [ensureCombinedNode]. *)
Definition archiveEnv (db : Postgres) : list EnvVar :=
  match Archiver (Spec db) with
  | Some archiver =>
    match arch_Storage archiver with
    | Some archiverStorage =>
      [envValue "ARCHIVE" "wal-g"]
      ++
      match S3 archiverStorage with
      | Some s3 =>
          [envValue "ARCHIVE_S3_PREFIX" ("s3://" +:+ s3_Bucket s3 +:+ "/" +:+ WalDataDir db)]
          ++ (if nonempty (s3_Endpoint s3) && negb (HasSuffix (s3_Endpoint s3) ".amazonaws.com")
              then [envValue "ARCHIVE_S3_ENDPOINT" (s3_Endpoint s3)] else [])
          ++ (if nonempty (s3_Region s3)
              then [envValue "ARCHIVE_S3_REGION" (s3_Region s3)] else [])
      | None =>
      match GCS archiverStorage with
      | Some gcs =>
          [envValue "ARCHIVE_GS_PREFIX" ("gs://" +:+ gcs_Bucket gcs +:+ "/" +:+ WalDataDir db)]
      | None =>
      match Azure archiverStorage with
      | Some az =>
          [envValue "ARCHIVE_AZ_PREFIX" ("azure://" +:+ az_Container az +:+ "/" +:+ WalDataDir db)]
      | None =>
      match Swift archiverStorage with
      | Some sw =>
          [envValue "ARCHIVE_SWIFT_PREFIX" ("swift://" +:+ sw_Container sw +:+ "/" +:+ WalDataDir db)]
      | None =>
      match Local archiverStorage with
      | Some loc => [envValue "ARCHIVE_FILE_PREFIX" (loc_MountPath loc)]
      | None => []
      end end end end end
    | None => []
    end
  | None => []
  end.

(** The [envList] that [ensureCombinedNode] hands to [ensureStatefulSet]. *)
Definition combinedNodeEnv (db : Postgres) : Go (list EnvVar) :=
  let standbyMode := default WarmPostgresStandbyMode (StandbyMode (Spec db)) in
  let streamingMode := default AsynchronousPostgresStreamingMode (StreamingMode (Spec db)) in
  let envList := [envValue "STANDBY" (strings_ToLower standbyMode);
                  envValue "STREAMING" (strings_ToLower streamingMode)] in
  let envList :=
    match LeaderElection (Spec db) with
    | Some le =>
        envList ++ [envValue LeaseDurationEnv (Itoa (LeaseDurationSeconds le));
                    envValue RenewDeadlineEnv (Itoa (RenewDeadlineSeconds le));
                    envValue RetryPeriodEnv (Itoa (RetryPeriodSeconds le))]
    | None => envList
    end in
  let envList := envList ++ archiveEnv db in
  match Init (Spec db) with
  | Some init =>
      match init_PostgresWAL init with
      | Some wal => r ← walRecoveryConfig wal; mret (envList ++ r)
      | None => mret envList
      end
  | None => mret envList
  end.

End Environment.

(** ** Assignments to a field

    [set_f v x] is [x] after [x.f = v]. *)

Definition set_c_Env v (c : Container) : Container :=
  {| c_Name := c_Name c; c_Image := c_Image c; c_Args := c_Args c;
     c_Ports := c_Ports c; c_Env := v; c_Resources := c_Resources c;
     c_VolumeMounts := c_VolumeMounts c;
     c_LivenessProbe := c_LivenessProbe c;
     c_ReadinessProbe := c_ReadinessProbe c; c_Lifecycle := c_Lifecycle c;
     c_ImagePullPolicy := c_ImagePullPolicy c;
     c_SecurityContext := c_SecurityContext c |}.

Definition set_c_VolumeMounts v (c : Container) : Container :=
  {| c_Name := c_Name c; c_Image := c_Image c; c_Args := c_Args c;
     c_Ports := c_Ports c; c_Env := c_Env c; c_Resources := c_Resources c;
     c_VolumeMounts := v; c_LivenessProbe := c_LivenessProbe c;
     c_ReadinessProbe := c_ReadinessProbe c; c_Lifecycle := c_Lifecycle c;
     c_ImagePullPolicy := c_ImagePullPolicy c;
     c_SecurityContext := c_SecurityContext c |}.

Definition set_pvcs_AccessModes v (p : PersistentVolumeClaimSpec) : PersistentVolumeClaimSpec :=
  {| pvcs_AccessModes := v; pvcs_Requests := pvcs_Requests p;
     pvcs_StorageClassName := pvcs_StorageClassName p |}.

Definition set_om_Labels v (m : ObjectMeta) : ObjectMeta :=
  {| om_Name := om_Name m; om_Namespace := om_Namespace m; om_Labels := v;
     om_Annotations := om_Annotations m;
     om_OwnerReferences := om_OwnerReferences m |}.

Definition set_om_Annotations v (m : ObjectMeta) : ObjectMeta :=
  {| om_Name := om_Name m; om_Namespace := om_Namespace m;
     om_Labels := om_Labels m; om_Annotations := v;
     om_OwnerReferences := om_OwnerReferences m |}.

Definition set_om_OwnerReferences v (m : ObjectMeta) : ObjectMeta :=
  {| om_Name := om_Name m; om_Namespace := om_Namespace m;
     om_Labels := om_Labels m; om_Annotations := om_Annotations m;
     om_OwnerReferences := v |}.

Definition set_ps_InitContainers v (p : PodSpec) : PodSpec :=
  {| ps_InitContainers := v; ps_Containers := ps_Containers p;
     ps_Volumes := ps_Volumes p; ps_NodeSelector := ps_NodeSelector p;
     ps_Affinity := ps_Affinity p; ps_SchedulerName := ps_SchedulerName p;
     ps_Tolerations := ps_Tolerations p;
     ps_ImagePullSecrets := ps_ImagePullSecrets p;
     ps_PriorityClassName := ps_PriorityClassName p;
     ps_Priority := ps_Priority p;
     ps_SecurityContext := ps_SecurityContext p;
     ps_ServiceAccountName := ps_ServiceAccountName p |}.

Definition set_ps_Containers v (p : PodSpec) : PodSpec :=
  {| ps_InitContainers := ps_InitContainers p; ps_Containers := v;
     ps_Volumes := ps_Volumes p; ps_NodeSelector := ps_NodeSelector p;
     ps_Affinity := ps_Affinity p; ps_SchedulerName := ps_SchedulerName p;
     ps_Tolerations := ps_Tolerations p;
     ps_ImagePullSecrets := ps_ImagePullSecrets p;
     ps_PriorityClassName := ps_PriorityClassName p;
     ps_Priority := ps_Priority p;
     ps_SecurityContext := ps_SecurityContext p;
     ps_ServiceAccountName := ps_ServiceAccountName p |}.

Definition set_ps_Volumes v (p : PodSpec) : PodSpec :=
  {| ps_InitContainers := ps_InitContainers p;
     ps_Containers := ps_Containers p; ps_Volumes := v;
     ps_NodeSelector := ps_NodeSelector p; ps_Affinity := ps_Affinity p;
     ps_SchedulerName := ps_SchedulerName p;
     ps_Tolerations := ps_Tolerations p;
     ps_ImagePullSecrets := ps_ImagePullSecrets p;
     ps_PriorityClassName := ps_PriorityClassName p;
     ps_Priority := ps_Priority p;
     ps_SecurityContext := ps_SecurityContext p;
     ps_ServiceAccountName := ps_ServiceAccountName p |}.

Definition set_ps_NodeSelector v (p : PodSpec) : PodSpec :=
  {| ps_InitContainers := ps_InitContainers p;
     ps_Containers := ps_Containers p; ps_Volumes := ps_Volumes p;
     ps_NodeSelector := v; ps_Affinity := ps_Affinity p;
     ps_SchedulerName := ps_SchedulerName p;
     ps_Tolerations := ps_Tolerations p;
     ps_ImagePullSecrets := ps_ImagePullSecrets p;
     ps_PriorityClassName := ps_PriorityClassName p;
     ps_Priority := ps_Priority p;
     ps_SecurityContext := ps_SecurityContext p;
     ps_ServiceAccountName := ps_ServiceAccountName p |}.

Definition set_ps_Affinity v (p : PodSpec) : PodSpec :=
  {| ps_InitContainers := ps_InitContainers p;
     ps_Containers := ps_Containers p; ps_Volumes := ps_Volumes p;
     ps_NodeSelector := ps_NodeSelector p; ps_Affinity := v;
     ps_SchedulerName := ps_SchedulerName p;
     ps_Tolerations := ps_Tolerations p;
     ps_ImagePullSecrets := ps_ImagePullSecrets p;
     ps_PriorityClassName := ps_PriorityClassName p;
     ps_Priority := ps_Priority p;
     ps_SecurityContext := ps_SecurityContext p;
     ps_ServiceAccountName := ps_ServiceAccountName p |}.

Definition set_ps_SchedulerName v (p : PodSpec) : PodSpec :=
  {| ps_InitContainers := ps_InitContainers p;
     ps_Containers := ps_Containers p; ps_Volumes := ps_Volumes p;
     ps_NodeSelector := ps_NodeSelector p; ps_Affinity := ps_Affinity p;
     ps_SchedulerName := v; ps_Tolerations := ps_Tolerations p;
     ps_ImagePullSecrets := ps_ImagePullSecrets p;
     ps_PriorityClassName := ps_PriorityClassName p;
     ps_Priority := ps_Priority p;
     ps_SecurityContext := ps_SecurityContext p;
     ps_ServiceAccountName := ps_ServiceAccountName p |}.

Definition set_ps_Tolerations v (p : PodSpec) : PodSpec :=
  {| ps_InitContainers := ps_InitContainers p;
     ps_Containers := ps_Containers p; ps_Volumes := ps_Volumes p;
     ps_NodeSelector := ps_NodeSelector p; ps_Affinity := ps_Affinity p;
     ps_SchedulerName := ps_SchedulerName p; ps_Tolerations := v;
     ps_ImagePullSecrets := ps_ImagePullSecrets p;
     ps_PriorityClassName := ps_PriorityClassName p;
     ps_Priority := ps_Priority p;
     ps_SecurityContext := ps_SecurityContext p;
     ps_ServiceAccountName := ps_ServiceAccountName p |}.

Definition set_ps_ImagePullSecrets v (p : PodSpec) : PodSpec :=
  {| ps_InitContainers := ps_InitContainers p;
     ps_Containers := ps_Containers p; ps_Volumes := ps_Volumes p;
     ps_NodeSelector := ps_NodeSelector p; ps_Affinity := ps_Affinity p;
     ps_SchedulerName := ps_SchedulerName p;
     ps_Tolerations := ps_Tolerations p; ps_ImagePullSecrets := v;
     ps_PriorityClassName := ps_PriorityClassName p;
     ps_Priority := ps_Priority p;
     ps_SecurityContext := ps_SecurityContext p;
     ps_ServiceAccountName := ps_ServiceAccountName p |}.

Definition set_ps_PriorityClassName v (p : PodSpec) : PodSpec :=
  {| ps_InitContainers := ps_InitContainers p;
     ps_Containers := ps_Containers p; ps_Volumes := ps_Volumes p;
     ps_NodeSelector := ps_NodeSelector p; ps_Affinity := ps_Affinity p;
     ps_SchedulerName := ps_SchedulerName p;
     ps_Tolerations := ps_Tolerations p;
     ps_ImagePullSecrets := ps_ImagePullSecrets p; ps_PriorityClassName := v;
     ps_Priority := ps_Priority p;
     ps_SecurityContext := ps_SecurityContext p;
     ps_ServiceAccountName := ps_ServiceAccountName p |}.

Definition set_ps_Priority v (p : PodSpec) : PodSpec :=
  {| ps_InitContainers := ps_InitContainers p;
     ps_Containers := ps_Containers p; ps_Volumes := ps_Volumes p;
     ps_NodeSelector := ps_NodeSelector p; ps_Affinity := ps_Affinity p;
     ps_SchedulerName := ps_SchedulerName p;
     ps_Tolerations := ps_Tolerations p;
     ps_ImagePullSecrets := ps_ImagePullSecrets p;
     ps_PriorityClassName := ps_PriorityClassName p; ps_Priority := v;
     ps_SecurityContext := ps_SecurityContext p;
     ps_ServiceAccountName := ps_ServiceAccountName p |}.

Definition set_ps_SecurityContext v (p : PodSpec) : PodSpec :=
  {| ps_InitContainers := ps_InitContainers p;
     ps_Containers := ps_Containers p; ps_Volumes := ps_Volumes p;
     ps_NodeSelector := ps_NodeSelector p; ps_Affinity := ps_Affinity p;
     ps_SchedulerName := ps_SchedulerName p;
     ps_Tolerations := ps_Tolerations p;
     ps_ImagePullSecrets := ps_ImagePullSecrets p;
     ps_PriorityClassName := ps_PriorityClassName p;
     ps_Priority := ps_Priority p; ps_SecurityContext := v;
     ps_ServiceAccountName := ps_ServiceAccountName p |}.

Definition set_ps_ServiceAccountName v (p : PodSpec) : PodSpec :=
  {| ps_InitContainers := ps_InitContainers p;
     ps_Containers := ps_Containers p; ps_Volumes := ps_Volumes p;
     ps_NodeSelector := ps_NodeSelector p; ps_Affinity := ps_Affinity p;
     ps_SchedulerName := ps_SchedulerName p;
     ps_Tolerations := ps_Tolerations p;
     ps_ImagePullSecrets := ps_ImagePullSecrets p;
     ps_PriorityClassName := ps_PriorityClassName p;
     ps_Priority := ps_Priority p;
     ps_SecurityContext := ps_SecurityContext p;
     ps_ServiceAccountName := v |}.

Definition set_pt_Labels v (t : PodTemplateSpec) : PodTemplateSpec :=
  {| pt_Labels := v; pt_Annotations := pt_Annotations t;
     pt_Spec := pt_Spec t |}.

Definition set_pt_Annotations v (t : PodTemplateSpec) : PodTemplateSpec :=
  {| pt_Labels := pt_Labels t; pt_Annotations := v; pt_Spec := pt_Spec t |}.

Definition set_pt_Spec v (t : PodTemplateSpec) : PodTemplateSpec :=
  {| pt_Labels := pt_Labels t; pt_Annotations := pt_Annotations t;
     pt_Spec := v |}.

Definition set_ss_Replicas v (s : StatefulSetSpec) : StatefulSetSpec :=
  {| ss_Replicas := v; ss_ServiceName := ss_ServiceName s;
     ss_Selector := ss_Selector s; ss_Template := ss_Template s;
     ss_VolumeClaimTemplates := ss_VolumeClaimTemplates s;
     ss_UpdateStrategy := ss_UpdateStrategy s |}.

Definition set_ss_ServiceName v (s : StatefulSetSpec) : StatefulSetSpec :=
  {| ss_Replicas := ss_Replicas s; ss_ServiceName := v;
     ss_Selector := ss_Selector s; ss_Template := ss_Template s;
     ss_VolumeClaimTemplates := ss_VolumeClaimTemplates s;
     ss_UpdateStrategy := ss_UpdateStrategy s |}.

Definition set_ss_Selector v (s : StatefulSetSpec) : StatefulSetSpec :=
  {| ss_Replicas := ss_Replicas s; ss_ServiceName := ss_ServiceName s;
     ss_Selector := v; ss_Template := ss_Template s;
     ss_VolumeClaimTemplates := ss_VolumeClaimTemplates s;
     ss_UpdateStrategy := ss_UpdateStrategy s |}.

Definition set_ss_Template v (s : StatefulSetSpec) : StatefulSetSpec :=
  {| ss_Replicas := ss_Replicas s; ss_ServiceName := ss_ServiceName s;
     ss_Selector := ss_Selector s; ss_Template := v;
     ss_VolumeClaimTemplates := ss_VolumeClaimTemplates s;
     ss_UpdateStrategy := ss_UpdateStrategy s |}.

Definition set_ss_VolumeClaimTemplates v (s : StatefulSetSpec) : StatefulSetSpec :=
  {| ss_Replicas := ss_Replicas s; ss_ServiceName := ss_ServiceName s;
     ss_Selector := ss_Selector s; ss_Template := ss_Template s;
     ss_VolumeClaimTemplates := v;
     ss_UpdateStrategy := ss_UpdateStrategy s |}.

Definition set_ss_UpdateStrategy v (s : StatefulSetSpec) : StatefulSetSpec :=
  {| ss_Replicas := ss_Replicas s; ss_ServiceName := ss_ServiceName s;
     ss_Selector := ss_Selector s; ss_Template := ss_Template s;
     ss_VolumeClaimTemplates := ss_VolumeClaimTemplates s;
     ss_UpdateStrategy := v |}.

Definition set_sts_ObjectMeta v (o : StatefulSet) : StatefulSet :=
  {| sts_ObjectMeta := v; sts_Spec := sts_Spec o |}.

Definition set_sts_Spec v (o : StatefulSet) : StatefulSet :=
  {| sts_ObjectMeta := sts_ObjectMeta o; sts_Spec := v |}.

Definition set_svs_Type v (s : ServiceSpec) : ServiceSpec :=
  {| svs_Type := v; svs_ClusterIP := svs_ClusterIP s;
     svs_Selector := svs_Selector s;
     svs_PublishNotReadyAddresses := svs_PublishNotReadyAddresses s;
     svs_Ports := svs_Ports s; svs_ExternalIPs := svs_ExternalIPs s;
     svs_LoadBalancerIP := svs_LoadBalancerIP s;
     svs_LoadBalancerSourceRanges := svs_LoadBalancerSourceRanges s;
     svs_ExternalTrafficPolicy := svs_ExternalTrafficPolicy s;
     svs_HealthCheckNodePort := svs_HealthCheckNodePort s |}.

Definition set_svs_ClusterIP v (s : ServiceSpec) : ServiceSpec :=
  {| svs_Type := svs_Type s; svs_ClusterIP := v;
     svs_Selector := svs_Selector s;
     svs_PublishNotReadyAddresses := svs_PublishNotReadyAddresses s;
     svs_Ports := svs_Ports s; svs_ExternalIPs := svs_ExternalIPs s;
     svs_LoadBalancerIP := svs_LoadBalancerIP s;
     svs_LoadBalancerSourceRanges := svs_LoadBalancerSourceRanges s;
     svs_ExternalTrafficPolicy := svs_ExternalTrafficPolicy s;
     svs_HealthCheckNodePort := svs_HealthCheckNodePort s |}.

Definition set_svs_Selector v (s : ServiceSpec) : ServiceSpec :=
  {| svs_Type := svs_Type s; svs_ClusterIP := svs_ClusterIP s;
     svs_Selector := v;
     svs_PublishNotReadyAddresses := svs_PublishNotReadyAddresses s;
     svs_Ports := svs_Ports s; svs_ExternalIPs := svs_ExternalIPs s;
     svs_LoadBalancerIP := svs_LoadBalancerIP s;
     svs_LoadBalancerSourceRanges := svs_LoadBalancerSourceRanges s;
     svs_ExternalTrafficPolicy := svs_ExternalTrafficPolicy s;
     svs_HealthCheckNodePort := svs_HealthCheckNodePort s |}.

Definition set_svs_PublishNotReadyAddresses v (s : ServiceSpec) : ServiceSpec :=
  {| svs_Type := svs_Type s; svs_ClusterIP := svs_ClusterIP s;
     svs_Selector := svs_Selector s; svs_PublishNotReadyAddresses := v;
     svs_Ports := svs_Ports s; svs_ExternalIPs := svs_ExternalIPs s;
     svs_LoadBalancerIP := svs_LoadBalancerIP s;
     svs_LoadBalancerSourceRanges := svs_LoadBalancerSourceRanges s;
     svs_ExternalTrafficPolicy := svs_ExternalTrafficPolicy s;
     svs_HealthCheckNodePort := svs_HealthCheckNodePort s |}.

Definition set_svs_Ports v (s : ServiceSpec) : ServiceSpec :=
  {| svs_Type := svs_Type s; svs_ClusterIP := svs_ClusterIP s;
     svs_Selector := svs_Selector s;
     svs_PublishNotReadyAddresses := svs_PublishNotReadyAddresses s;
     svs_Ports := v; svs_ExternalIPs := svs_ExternalIPs s;
     svs_LoadBalancerIP := svs_LoadBalancerIP s;
     svs_LoadBalancerSourceRanges := svs_LoadBalancerSourceRanges s;
     svs_ExternalTrafficPolicy := svs_ExternalTrafficPolicy s;
     svs_HealthCheckNodePort := svs_HealthCheckNodePort s |}.

Definition set_svs_ExternalIPs v (s : ServiceSpec) : ServiceSpec :=
  {| svs_Type := svs_Type s; svs_ClusterIP := svs_ClusterIP s;
     svs_Selector := svs_Selector s;
     svs_PublishNotReadyAddresses := svs_PublishNotReadyAddresses s;
     svs_Ports := svs_Ports s; svs_ExternalIPs := v;
     svs_LoadBalancerIP := svs_LoadBalancerIP s;
     svs_LoadBalancerSourceRanges := svs_LoadBalancerSourceRanges s;
     svs_ExternalTrafficPolicy := svs_ExternalTrafficPolicy s;
     svs_HealthCheckNodePort := svs_HealthCheckNodePort s |}.

Definition set_svs_LoadBalancerIP v (s : ServiceSpec) : ServiceSpec :=
  {| svs_Type := svs_Type s; svs_ClusterIP := svs_ClusterIP s;
     svs_Selector := svs_Selector s;
     svs_PublishNotReadyAddresses := svs_PublishNotReadyAddresses s;
     svs_Ports := svs_Ports s; svs_ExternalIPs := svs_ExternalIPs s;
     svs_LoadBalancerIP := v;
     svs_LoadBalancerSourceRanges := svs_LoadBalancerSourceRanges s;
     svs_ExternalTrafficPolicy := svs_ExternalTrafficPolicy s;
     svs_HealthCheckNodePort := svs_HealthCheckNodePort s |}.

Definition set_svs_LoadBalancerSourceRanges v (s : ServiceSpec) : ServiceSpec :=
  {| svs_Type := svs_Type s; svs_ClusterIP := svs_ClusterIP s;
     svs_Selector := svs_Selector s;
     svs_PublishNotReadyAddresses := svs_PublishNotReadyAddresses s;
     svs_Ports := svs_Ports s; svs_ExternalIPs := svs_ExternalIPs s;
     svs_LoadBalancerIP := svs_LoadBalancerIP s;
     svs_LoadBalancerSourceRanges := v;
     svs_ExternalTrafficPolicy := svs_ExternalTrafficPolicy s;
     svs_HealthCheckNodePort := svs_HealthCheckNodePort s |}.

Definition set_svs_ExternalTrafficPolicy v (s : ServiceSpec) : ServiceSpec :=
  {| svs_Type := svs_Type s; svs_ClusterIP := svs_ClusterIP s;
     svs_Selector := svs_Selector s;
     svs_PublishNotReadyAddresses := svs_PublishNotReadyAddresses s;
     svs_Ports := svs_Ports s; svs_ExternalIPs := svs_ExternalIPs s;
     svs_LoadBalancerIP := svs_LoadBalancerIP s;
     svs_LoadBalancerSourceRanges := svs_LoadBalancerSourceRanges s;
     svs_ExternalTrafficPolicy := v;
     svs_HealthCheckNodePort := svs_HealthCheckNodePort s |}.

Definition set_svs_HealthCheckNodePort v (s : ServiceSpec) : ServiceSpec :=
  {| svs_Type := svs_Type s; svs_ClusterIP := svs_ClusterIP s;
     svs_Selector := svs_Selector s;
     svs_PublishNotReadyAddresses := svs_PublishNotReadyAddresses s;
     svs_Ports := svs_Ports s; svs_ExternalIPs := svs_ExternalIPs s;
     svs_LoadBalancerIP := svs_LoadBalancerIP s;
     svs_LoadBalancerSourceRanges := svs_LoadBalancerSourceRanges s;
     svs_ExternalTrafficPolicy := svs_ExternalTrafficPolicy s;
     svs_HealthCheckNodePort := v |}.

Definition set_svc_ObjectMeta v (o : Service) : Service :=
  {| svc_ObjectMeta := v; svc_Spec := svc_Spec o |}.

Definition set_svc_Spec v (o : Service) : Service :=
  {| svc_ObjectMeta := svc_ObjectMeta o; svc_Spec := v |}.

Definition set_Storage v (s : PostgresSpec) : PostgresSpec :=
  {| Replicas := Replicas s; StandbyMode := StandbyMode s;
     StreamingMode := StreamingMode s; LeaderElection := LeaderElection s;
     Archiver := Archiver s; Init := Init s; Monitor := Monitor s;
     AuthSecretName := AuthSecretName s; ConfigSecret := ConfigSecret s;
     StorageType := StorageType s; Storage := v;
     PodTemplate := PodTemplate s; ServiceTemplate_ := ServiceTemplate_ s;
     ReplicaServiceTemplate := ReplicaServiceTemplate s |}.

Definition set_Spec v (d : Postgres) : Postgres :=
  {| Name := Name d; Namespace := Namespace d; UID := UID d; Spec := v;
     StatusConditions := StatusConditions d |}.

(** Paths into a StatefulSet: [o.Spec.Template.Spec] and the like. *)
Definition podSpec (o : StatefulSet) : PodSpec :=
  pt_Spec (ss_Template (sts_Spec o)).

Definition with_meta (f : ObjectMeta → ObjectMeta) (o : StatefulSet) : StatefulSet :=
  set_sts_ObjectMeta (f (sts_ObjectMeta o)) o.

Definition with_spec (f : StatefulSetSpec → StatefulSetSpec) (o : StatefulSet) : StatefulSet :=
  set_sts_Spec (f (sts_Spec o)) o.

Definition with_template (f : PodTemplateSpec → PodTemplateSpec) (o : StatefulSet) : StatefulSet :=
  with_spec (λ s, set_ss_Template (f (ss_Template s)) s) o.

Definition with_podSpec (f : PodSpec → PodSpec) (o : StatefulSet) : StatefulSet :=
  with_template (λ t, set_pt_Spec (f (pt_Spec t)) t) o.

Definition svc_with_meta (f : ObjectMeta → ObjectMeta) (o : Service) : Service :=
  set_svc_ObjectMeta (f (svc_ObjectMeta o)) o.

Definition svc_with_spec (f : ServiceSpec → ServiceSpec) (o : Service) : Service :=
  set_svc_Spec (f (svc_Spec o)) o.

(** ** Constants of [k8s.io/api] *)

Definition core_ResourceStorage : string := "storage".
Definition core_ReadWriteOnce : string := "ReadWriteOnce".
Definition core_ProtocolTCP : string := "TCP".
Definition core_PullIfNotPresent : string := "IfNotPresent".
Definition core_StorageMediumMemory : string := "Memory".
Definition core_ServiceTypeClusterIP : string := "ClusterIP".
Definition core_ClusterIPNone : string := "None".
Definition apps_OnDeleteStatefulSetStrategyType : string := "OnDelete".

(** ** The upsert helpers of [kmodules.xyz/client-go] *)

(** Modelled from the spec: the helpers [core_util.UpsertEnvVars],
    [UpsertVolume], [UpsertVolumeMount], [UpsertContainer], [UpsertContainers]
    and [UpsertVolumeClaim], which [service.go] calls and does not define.
    Section 4.2: "if an item with the same key exists, replace it in place
    (preserving position); otherwise append." *)
Fixpoint UpsertByName {A} (keyOf : A → string) (collection : list A) (item : A) : list A :=
  match collection with
  | [] => [item]
  | x :: rest =>
      if decide (keyOf x = keyOf item) then item :: rest
      else x :: UpsertByName keyOf rest item
  end.

(** Modelled from the spec: the variadic helpers ([UpsertEnvVars],
    [UpsertContainers]) upsert their arguments from left to right. *)
Definition UpsertAll {A} (keyOf : A → string) (collection items : list A) : list A :=
  foldl (UpsertByName keyOf) collection items.

Definition UpsertEnvVars : list EnvVar → list EnvVar → list EnvVar :=
  UpsertAll env_Name.
Definition UpsertVolume : list Volume → Volume → list Volume :=
  UpsertByName vol_Name.
Definition UpsertVolumeMount : list VolumeMount → VolumeMount → list VolumeMount :=
  UpsertByName vm_Name.
Definition UpsertContainer : list Container → Container → list Container :=
  UpsertByName c_Name.
Definition UpsertContainers : list Container → list Container → list Container :=
  UpsertAll c_Name.
Definition UpsertVolumeClaim
  : list PersistentVolumeClaim → PersistentVolumeClaim → list PersistentVolumeClaim :=
  UpsertByName pvc_Name.

(** Modelled from the spec: [core_util.EnsureOwnerReference], not part of
    [service.go].  Section 3: "every managed resource carries an owner
    reference to the database instance"; as for the other shared collections
    (section 4.3) the reference is upserted, here by the owner's UID. *)
Definition EnsureOwnerReference (owner : OwnerReference) (m : ObjectMeta) : ObjectMeta :=
  set_om_OwnerReferences (UpsertByName or_UID (om_OwnerReferences m) owner) m.

(** Modelled from the spec: [kmapi.HasCondition], not part of [service.go].
    Section 4.5: "the data restored condition is not already satisfied". *)
Definition HasCondition (conditions : list Condition) (condType : string) : bool :=
  bool_decide (Exists (λ c, cond_Type c = condType) conditions).

(** ** The StatefulSet mutator *)

Section Workload.
Context {imports : Imports}.

(** [metav1.NewControllerRef(db, api.SchemeGroupVersion.WithKind(api.ResourceKindPostgres))] *)
Definition NewControllerRef (db : Postgres) : OwnerReference :=
  {| or_APIVersion := SchemeGroupVersion; or_Kind := ResourceKindPostgres;
     or_Name := Name db; or_UID := UID db;
     or_Controller := true; or_BlockOwnerDeletion := true |}.

(** [for i, container := range containers { if container.Name == name {...} }]:
    the first container of that name, with its index. *)
Definition findContainer (name : string) (containers : list Container)
  : option (nat * Container) :=
  list_find (λ c, c_Name c = name) containers.

(** [statefulSet.Spec.Template.Spec.Containers[i].Env = env] *)
Definition setContainerEnv (i : nat) (env : list EnvVar) (p : PodSpec) : PodSpec :=
  set_ps_Containers (alter (set_c_Env env) i (ps_Containers p)) p.

(** [statefulSet.Spec.Template.Spec.Containers[i].VolumeMounts = mounts] *)
Definition setContainerVolumeMounts (i : nat) (mounts : list VolumeMount) (p : PodSpec) : PodSpec :=
  set_ps_Containers (alter (set_c_VolumeMounts mounts) i (ps_Containers p)) p.

Definition upsertEnv (statefulSet : StatefulSet) (db : Postgres) (envs : list EnvVar)
  : StatefulSet :=
  let envList :=
    [envFieldRef "NAMESPACE" "metadata.namespace";
     envValue "PRIMARY_HOST" (ServiceName db);
     envSecretKeyRef EnvPostgresUser (AuthSecretName (Spec db)) BasicAuthUsernameKey;
     envSecretKeyRef EnvPostgresPassword (AuthSecretName (Spec db)) BasicAuthPasswordKey] in
  let envList := envList ++ envs in
  match findContainer ResourceSingularPostgres (ps_Containers (podSpec statefulSet)) with
  | Some (i, container) =>
      with_podSpec (setContainerEnv i (UpsertEnvVars (c_Env container) envList)) statefulSet
  | None => statefulSet
  end.

Definition upsertUserEnv (statefulSet : StatefulSet) (postgress : Postgres) : StatefulSet :=
  match findContainer ResourceSingularPostgres (ps_Containers (podSpec statefulSet)) with
  | Some (i, container) =>
      with_podSpec
        (setContainerEnv i (UpsertEnvVars (c_Env container) (tpl_Env (PodTemplate (Spec postgress)))))
        statefulSet
  | None => statefulSet
  end.

Definition upsertMonitoringContainer (c : Controller) (statefulSet : StatefulSet)
    (db : Postgres) (postgresVersion : PostgresVersion) : Go StatefulSet :=
  match Monitor (Spec db) with
  | Some monitor =>
      if decide (Vendor (mon_Agent monitor) = VendorPrometheus) then
        exporter ← deref (mon_Prometheus monitor);
        let container :=
          {| c_Name := "exporter";
             c_Args := ["--log.level=info"] ++ exp_Args exporter;
             c_Image := pv_ExporterImage postgresVersion;
             c_ImagePullPolicy := core_PullIfNotPresent;
             c_Ports := [ {| cp_Name := PrometheusExporterPortName;
                             cp_Protocol := core_ProtocolTCP;
                             cp_ContainerPort := exp_Port exporter |} ];
             c_Env := exp_Env exporter;
             c_Resources := exp_Resources exporter;
             c_SecurityContext := exp_SecurityContext exporter;
             c_VolumeMounts := [];
             c_LivenessProbe := None; c_ReadinessProbe := None; c_Lifecycle := None |} in
        let envList :=
          [envValue "DATA_SOURCE_URI"
             ("localhost:" +:+ Itoa PostgresDatabasePort +:+ "/?sslmode=disable");
           envSecretKeyRef "DATA_SOURCE_USER" (AuthSecretName (Spec db)) BasicAuthUsernameKey;
           envSecretKeyRef "DATA_SOURCE_PASS" (AuthSecretName (Spec db)) BasicAuthPasswordKey;
           envValue "PG_EXPORTER_WEB_LISTEN_ADDRESS" (":" +:+ Itoa (exp_Port exporter));
           envValue "PG_EXPORTER_WEB_TELEMETRY_PATH" (StatsServicePath db)] in
        let container := set_c_Env (UpsertEnvVars (c_Env container) envList) container in
        let containers := ps_Containers (podSpec statefulSet) in
        let containers := UpsertContainer containers container in
        mret (with_podSpec (set_ps_Containers containers) statefulSet)
      else mret statefulSet
  | None => mret statefulSet
  end.

(** The shape shared by [upsertArchiveSecret], [upsertInitWalSecret],
    [upsertShm], [upsertInitScript] and [upsertCustomConfig]: in the first
    container named postgres upsert the mount, then upsert the volume; do
    nothing when there is no such container. *)
Definition upsertMountAndVolume (volumeMount : VolumeMount) (volume : Volume)
    (statefulSet : StatefulSet) : StatefulSet :=
  match findContainer ResourceSingularPostgres (ps_Containers (podSpec statefulSet)) with
  | Some (i, container) =>
      let volumeMounts := c_VolumeMounts container in
      let volumeMounts := UpsertVolumeMount volumeMounts volumeMount in
      let statefulSet := with_podSpec (setContainerVolumeMounts i volumeMounts) statefulSet in
      let volumes := ps_Volumes (podSpec statefulSet) in
      let volumes := UpsertVolume volumes volume in
      with_podSpec (set_ps_Volumes volumes) statefulSet
  | None => statefulSet
  end.

Definition secretVolume (name secretName : string) : Volume :=
  {| vol_Name := name;
     vol_VolumeSource := {| vs_Secret := Some secretName; vs_EmptyDir := None; vs_Other := "" |} |}.

Definition upsertArchiveSecret (statefulSet : StatefulSet) (secretName : string) : StatefulSet :=
  upsertMountAndVolume
    {| vm_Name := "wal-g-archive"; vm_MountPath := "/srv/wal-g/archive/secrets" |}
    (secretVolume "wal-g-archive" secretName)
    statefulSet.

Definition upsertInitWalSecret (statefulSet : StatefulSet) (secretName : string) : StatefulSet :=
  upsertMountAndVolume
    {| vm_Name := "wal-g-restore"; vm_MountPath := "/srv/wal-g/restore/secrets" |}
    (secretVolume "wal-g-restore" secretName)
    statefulSet.

Definition upsertShm (statefulSet : StatefulSet) : StatefulSet :=
  upsertMountAndVolume
    {| vm_Name := "shared-memory"; vm_MountPath := "/dev/shm" |}
    {| vol_Name := "shared-memory";
       vol_VolumeSource :=
         {| vs_Secret := None;
            vs_EmptyDir := Some {| ed_Medium := core_StorageMediumMemory; ed_SizeLimit := None |};
            vs_Other := "" |} |}
    statefulSet.

Definition upsertInitScript (statefulSet : StatefulSet) (script : VolumeSource) : StatefulSet :=
  upsertMountAndVolume
    {| vm_Name := "initial-script"; vm_MountPath := "/var/initdb" |}
    {| vol_Name := "initial-script"; vol_VolumeSource := script |}
    statefulSet.

Definition upsertCustomConfig (statefulSet : StatefulSet) (db : Postgres) : StatefulSet :=
  match ConfigSecret (Spec db) with
  | Some configSecretName =>
      upsertMountAndVolume
        {| vm_Name := "custom-config"; vm_MountPath := "/etc/config" |}
        (secretVolume "custom-config" configSecretName)
        statefulSet
  | None => statefulSet
  end.

(** One of the two blocks of [upsertDataVolume] for a local backend: the
    volume is appended to the volumes, the mount to the mounts of
    [Containers[0]]; nothing is looked up by name. *)
Definition appendLocalVolume (name : string) (pgLocalVol : LocalSpec)
    (statefulSet : StatefulSet) : Go StatefulSet :=
  let podSpec_ := podSpec statefulSet in
  let volume := {| vol_Name := name; vol_VolumeSource := loc_VolumeSource pgLocalVol |} in
  let statefulSet := with_podSpec (set_ps_Volumes (ps_Volumes podSpec_ ++ [volume])) statefulSet in
  match ps_Containers podSpec_ !! 0%nat with
  | Some first =>
      mret (with_podSpec
              (setContainerVolumeMounts 0
                 (c_VolumeMounts first
                  ++ [ {| vm_Name := name; vm_MountPath := loc_MountPath pgLocalVol |} ]))
              statefulSet)
  | None => Panic IndexOutOfRange
  end.

(** [db.Spec.Archiver.Storage.Local], when every pointer on the way is set. *)
Definition archiverLocal (db : Postgres) : option LocalSpec :=
  archiver ← Archiver (Spec db); storage ← arch_Storage archiver; Local storage.

(** [db.Spec.Init.PostgresWAL.Local], when every pointer on the way is set. *)
Definition initLocal (db : Postgres) : option LocalSpec :=
  init ← Init (Spec db); wal ← init_PostgresWAL init; Local (wal_Backend wal).

(** The first statement of [upsertDataVolume]:
    [if db.Spec.Archiver != nil || db.Spec.Init != nil { ... }]. *)
Definition appendLocalVolumes (statefulSet : StatefulSet) (db : Postgres) : Go StatefulSet :=
  if bool_decide (Archiver (Spec db) ≠ None) || bool_decide (Init (Spec db) ≠ None) then
    statefulSet ←
      match archiverLocal db with
      | Some pgLocalVol => appendLocalVolume "local-archive" pgLocalVol statefulSet
      | None => mret statefulSet
      end;
    match initLocal db with
    | Some pgLocalVol => appendLocalVolume "local-init" pgLocalVol statefulSet
    | None => mret statefulSet
    end
  else mret statefulSet.

(** [upsertDataVolume] writes [db.Spec.Storage.AccessModes] through the
    pointer it got: the database object is returned along with the
    StatefulSet. *)
Definition upsertDataVolume (statefulSet : StatefulSet) (db : Postgres)
  : Go (StatefulSet * Postgres) :=
  statefulSet ← appendLocalVolumes statefulSet db;
  match findContainer ResourceSingularPostgres (ps_Containers (podSpec statefulSet)) with
  | Some (i, container) =>
      let volumeMount := {| vm_Name := "data"; vm_MountPath := "/var/pv" |} in
      let volumeMounts := c_VolumeMounts container in
      let volumeMounts := UpsertVolumeMount volumeMounts volumeMount in
      let statefulSet := with_podSpec (setContainerVolumeMounts i volumeMounts) statefulSet in
      let pvcSpec := Storage (Spec db) in
      if decide (StorageType (Spec db) = StorageTypeEphemeral) then
        let ed :=
          {| ed_Medium := "";
             ed_SizeLimit := pvcSpec ≫= λ p, pvcs_Requests p !! core_ResourceStorage |} in
        mret (with_podSpec
                (λ p, set_ps_Volumes
                        (UpsertVolume (ps_Volumes p)
                           {| vol_Name := "data";
                              vol_VolumeSource :=
                                {| vs_Secret := None; vs_EmptyDir := Some ed; vs_Other := "" |} |})
                        p)
                statefulSet,
              db)
      else
        pvc ← deref pvcSpec;
        let pvc :=
          if decide (length (pvcs_AccessModes pvc) = 0%nat)
          then set_pvcs_AccessModes [core_ReadWriteOnce] pvc
          else pvc in
        let db := set_Spec (set_Storage (Some pvc) (Spec db)) db in
        let claim :=
          {| pvc_Name := "data";
             pvc_Annotations :=
               match pvcs_StorageClassName pvc with
               | Some storageClassName =>
                   {[ "volume.beta.kubernetes.io/storage-class" := storageClassName ]}
               | None => ∅
               end;
             pvc_Spec := pvc |} in
        mret (with_spec
                (λ s, set_ss_VolumeClaimTemplates
                        (UpsertVolumeClaim (ss_VolumeClaimTemplates s) claim) s)
                statefulSet,
              db)
  | None => mret (statefulSet, db)
  end.

End Workload.

(** ** Field-wise comparison of objects *)

Global Instance ObjectFieldSelector_eq_dec : EqDecision ObjectFieldSelector.
Proof. solve_decision. Defined.
Global Instance SecretKeySelector_eq_dec : EqDecision SecretKeySelector.
Proof. solve_decision. Defined.
Global Instance EnvVarSource_eq_dec : EqDecision EnvVarSource.
Proof. solve_decision. Defined.
Global Instance EnvVar_eq_dec : EqDecision EnvVar.
Proof. solve_decision. Defined.
Global Instance VolumeMount_eq_dec : EqDecision VolumeMount.
Proof. solve_decision. Defined.
Global Instance EmptyDirVolumeSource_eq_dec : EqDecision EmptyDirVolumeSource.
Proof. solve_decision. Defined.
Global Instance VolumeSource_eq_dec : EqDecision VolumeSource.
Proof. solve_decision. Defined.
Global Instance Volume_eq_dec : EqDecision Volume.
Proof. solve_decision. Defined.
Global Instance ContainerPort_eq_dec : EqDecision ContainerPort.
Proof. solve_decision. Defined.
Global Instance SecurityContext_eq_dec : EqDecision SecurityContext.
Proof. solve_decision. Defined.
Global Instance Container_eq_dec : EqDecision Container.
Proof. solve_decision. Defined.
Global Instance PersistentVolumeClaimSpec_eq_dec : EqDecision PersistentVolumeClaimSpec.
Proof. solve_decision. Defined.
Global Instance PersistentVolumeClaim_eq_dec : EqDecision PersistentVolumeClaim.
Proof. solve_decision. Defined.
Global Instance OwnerReference_eq_dec : EqDecision OwnerReference.
Proof. solve_decision. Defined.
Global Instance ObjectMeta_eq_dec : EqDecision ObjectMeta.
Proof. solve_decision. Defined.
Global Instance PodSpec_eq_dec : EqDecision PodSpec.
Proof. solve_decision. Defined.
Global Instance PodTemplateSpec_eq_dec : EqDecision PodTemplateSpec.
Proof. solve_decision. Defined.
Global Instance StatefulSetSpec_eq_dec : EqDecision StatefulSetSpec.
Proof. solve_decision. Defined.
Global Instance StatefulSet_eq_dec : EqDecision StatefulSet.
Proof. solve_decision. Defined.
Global Instance IntOrString_eq_dec : EqDecision IntOrString.
Proof. solve_decision. Defined.
Global Instance ServicePort_eq_dec : EqDecision ServicePort.
Proof. solve_decision. Defined.
Global Instance ServiceSpec_eq_dec : EqDecision ServiceSpec.
Proof. solve_decision. Defined.
Global Instance Service_eq_dec : EqDecision Service.
Proof. solve_decision. Defined.

(** ** The control plane *)

Inductive Kind := KStatefulSet | KService.

(** A request of the controller to the control plane. *)
Inductive Call :=
  | CallGet (k : Kind) (ns name : string)
  | CallCreate (k : Kind) (ns name : string)
  | CallPatch (k : Kind) (ns name : string)
  | CallWaitUntilPodRunning (ns : string)
  | CallCreatePodDisruptionBudget (ns name : string).

Record Event := {
  ev_Type : string;
  ev_Reason : string;
  ev_Message : string
}.

(** What the controller acts on: the objects in the control plane (by
    namespace and name), the requests that the control plane will refuse
    and with what error, the requests made so far, in order, and the events
    recorded so far. *)
Record World := {
  w_StatefulSets : gmap (string * string) StatefulSet;
  w_Services : gmap (string * string) Service;
  w_Fails : Call → option error;
  w_Calls : list Call;
  w_Events : list Event
}.

Definition set_w_StatefulSets v (w : World) : World :=
  {| w_StatefulSets := v; w_Services := w_Services w; w_Fails := w_Fails w;
     w_Calls := w_Calls w; w_Events := w_Events w |}.

Definition set_w_Services v (w : World) : World :=
  {| w_StatefulSets := w_StatefulSets w; w_Services := v; w_Fails := w_Fails w;
     w_Calls := w_Calls w; w_Events := w_Events w |}.

Definition set_w_Calls v (w : World) : World :=
  {| w_StatefulSets := w_StatefulSets w; w_Services := w_Services w;
     w_Fails := w_Fails w; w_Calls := v; w_Events := w_Events w |}.

Definition set_w_Events v (w : World) : World :=
  {| w_StatefulSets := w_StatefulSets w; w_Services := w_Services w;
     w_Fails := w_Fails w; w_Calls := w_Calls w; w_Events := v |}.

(** A method of the controller: it reads and changes the world, and it may
    panic. *)
Definition Ctl (A : Type) : Type := World → Go (A * World).

Global Instance Ctl_ret : MRet Ctl := λ A a w, Done (a, w).
Global Instance Ctl_bind : MBind Ctl := λ A B k m w,
  match m w with
  | Done (a, w') => k a w'
  | Panic p => Panic p
  end.

Definition liftGo {A} (m : Go A) : Ctl A := λ w,
  match m with
  | Done a => Done (a, w)
  | Panic p => Panic p
  end.

Definition getWorld : Ctl World := λ w, Done (w, w).

Definition modifyWorld (f : World → World) : Ctl unit := λ w, Done (tt, f w).

(** A request: it is logged, and the control plane answers with an error
    or with none. *)
Definition request (c : Call) : Ctl (option error) := λ w,
  Done (w_Fails w c, set_w_Calls (w_Calls w ++ [c]) w).

(** [c.Recorder.Eventf(db, core.EventTypeNormal, eventer.EventReasonSuccessful, ...)] *)
Definition Eventf (message : string) : Ctl unit :=
  modifyWorld (λ w, set_w_Events
    (w_Events w ++ [ {| ev_Type := "Normal"; ev_Reason := "Successful"; ev_Message := message |} ]) w).

(** The string of a [kutil.VerbType], as [%s] prints it. *)
Definition verbString (vt : VerbType) : string :=
  match vt with
  | VerbUnchanged => "unchanged"
  | VerbCreated => "created"
  | VerbPatched => "patched"
  end.

Definition emptyObjectMeta (ns name : string) : ObjectMeta :=
  {| om_Name := name; om_Namespace := ns; om_Labels := ∅; om_Annotations := ∅;
     om_OwnerReferences := [] |}.

Definition emptyPodSpec : PodSpec :=
  {| ps_InitContainers := []; ps_Containers := []; ps_Volumes := [];
     ps_NodeSelector := ∅; ps_Affinity := None; ps_SchedulerName := "";
     ps_Tolerations := []; ps_ImagePullSecrets := []; ps_PriorityClassName := "";
     ps_Priority := None; ps_SecurityContext := None; ps_ServiceAccountName := "" |}.

Definition emptyStatefulSet (ns name : string) : StatefulSet :=
  {| sts_ObjectMeta := emptyObjectMeta ns name;
     sts_Spec :=
       {| ss_Replicas := None; ss_ServiceName := ""; ss_Selector := None;
          ss_Template := {| pt_Labels := ∅; pt_Annotations := ∅; pt_Spec := emptyPodSpec |};
          ss_VolumeClaimTemplates := []; ss_UpdateStrategy := "" |} |}.

Definition emptyService (ns name : string) : Service :=
  {| svc_ObjectMeta := emptyObjectMeta ns name;
     svc_Spec :=
       {| svs_Type := ""; svs_ClusterIP := ""; svs_Selector := ∅;
          svs_PublishNotReadyAddresses := false; svs_Ports := [];
          svs_ExternalIPs := []; svs_LoadBalancerIP := "";
          svs_LoadBalancerSourceRanges := []; svs_ExternalTrafficPolicy := "";
          svs_HealthCheckNodePort := 0 |} |}.

Section Client.
Context {T : Type} `{EqDecision T}.
Variable kind : Kind.
Variable store : World → gmap (string * string) T.
Variable setStore : gmap (string * string) T → World → World.
Variable emptyObject : string → string → T.

(** [c.Client...Get(ctx, name, metav1.GetOptions{})]: the object, or the
    error of the control plane, or NotFound. *)
Definition Get (ns name : string) : Ctl (option T * option error) :=
  refused ← request (CallGet kind ns name);
  match refused with
  | Some err => mret (None, Some err)
  | None =>
      w ← getWorld;
      match store w !! (ns, name) with
      | Some obj => mret (Some obj, None)
      | None => mret (None, Some ErrNotFound)
      end
  end.

(** Modelled from the spec: [CreateOrPatchStatefulSet] and
    [CreateOrPatchService] of [kmodules.xyz/client-go], not part of
    [service.go].  Section 4.3: "attempt to fetch the object by identity. If
    absent, synthesize an empty object from the identity (namespace/name set,
    nothing else), apply mutate, and create it - outcome Created. If present,
    apply mutate to a copy of the fetched object; if the result is unchanged
    relative to the fetched object under field-wise comparison, outcome
    Unchanged and no write is issued; otherwise submit the patch - outcome
    Patched.  [...] any fetch/create/patch error is returned unmodified to
    the caller."

    The mutator is a closure: [S] is what it captured by reference and may
    write to, here the database object. *)
Definition CreateOrPatch {S : Type} (ns name : string)
    (transform : T → S → Go (T * S)) (captured : S)
  : Ctl (option T * VerbType * option error * S) :=
  '(cur, err) ← Get ns name;
  match cur, err with
  | Some cur, None =>
      '(modified, captured) ← liftGo (transform cur captured);
      if decide (modified = cur) then mret (Some cur, VerbUnchanged, None, captured)
      else
        refused ← request (CallPatch kind ns name);
        match refused with
        | Some err => mret (None, VerbUnchanged, Some err, captured)
        | None =>
            modifyWorld (λ w, setStore (<[(ns, name) := modified]> (store w)) w);;
            mret (Some modified, VerbPatched, None, captured)
        end
  | _, Some err =>
      if IsNotFound err then
        '(created, captured) ← liftGo (transform (emptyObject ns name) captured);
        refused ← request (CallCreate kind ns name);
        match refused with
        | Some err => mret (None, VerbUnchanged, Some err, captured)
        | None =>
            modifyWorld (λ w, setStore (<[(ns, name) := created]> (store w)) w);;
            mret (Some created, VerbCreated, None, captured)
        end
      else mret (None, VerbUnchanged, Some err, captured)
  | None, None => mret (None, VerbUnchanged, None, captured)
  end.

End Client.

Definition GetStatefulSet := Get KStatefulSet w_StatefulSets.

Definition CreateOrPatchStatefulSet {S} :=
  CreateOrPatch (S := S) KStatefulSet w_StatefulSets set_w_StatefulSets emptyStatefulSet.

(** A service mutator captures nothing that it writes to. *)
Definition CreateOrPatchService (ns name : string) (transform : Service → Go Service)
  : Ctl (option Service * VerbType * option error) :=
  '(obj, vt, err, _) ←
    CreateOrPatch KService w_Services set_w_Services emptyService ns name
      (λ cur (_ : unit), obj ← transform cur; mret (obj, tt)) tt;
  mret (obj, vt, err).

(** ** The controller's methods *)

Section Controller.
Context {imports : Imports}.

(** [statefulSet.Labels[key]]: a missing key reads as the empty string. *)
Definition label (labels : gmap string string) (key : string) : string :=
  default "" (labels !! key).

Definition checkStatefulSet (db : Postgres) : Ctl (option error) :=
  let name := OffshootName db in
  '(statefulSet, err) ← GetStatefulSet (Namespace db) name;
  match err with
  | Some err => if IsNotFound err then mret None else mret (Some err)
  | None =>
      statefulSet ← liftGo (deref statefulSet);
      let labels := om_Labels (sts_ObjectMeta statefulSet) in
      if bool_decide (label labels LabelDatabaseKind ≠ ResourceKindPostgres)
         || bool_decide (label labels LabelDatabaseName ≠ name)
      then mret (Some (Errorf ("intended statefulSet " +:+ quoted (Namespace db +:+ "/" +:+ name)
                               +:+ " already exists")))
      else mret None
  end.

(** [int32(1)], or [*db.Spec.Replicas] when it is set. *)
Definition replicasOf (db : Postgres) : Z := default 1 (Replicas (Spec db)).

(** The container of the database, as [ensureStatefulSet] upserts it. *)
Definition postgresContainer (c : Controller) (db : Postgres)
    (postgresVersion : PostgresVersion) : Container :=
  {| c_Name := ResourceSingularPostgres;
     c_Args := ["leader_election"; "--enable-analytics=" +:+ fmt_t (EnableAnalytics c)]
               ++ LoggerOptionsFlags c;
     c_Env := [envValue analytics_Key (AnalyticsClientID c)];
     c_Image := pv_DBImage postgresVersion;
     c_Ports := [ {| cp_Name := PostgresDatabasePortName;
                     cp_ContainerPort := PostgresDatabasePort;
                     cp_Protocol := core_ProtocolTCP |} ];
     c_Resources := tpl_Resources (PodTemplate (Spec db));
     c_LivenessProbe := tpl_LivenessProbe (PodTemplate (Spec db));
     c_ReadinessProbe := tpl_ReadinessProbe (PodTemplate (Spec db));
     c_Lifecycle := tpl_Lifecycle (PodTemplate (Spec db));
     c_SecurityContext :=
       Some {| sc_Privileged := Some false;
               sc_CapabilitiesAdd := Some ["IPC_LOCK"; "SYS_RESOURCE"] |};
     c_VolumeMounts := []; c_ImagePullPolicy := "" |}.

(** The function literal that [ensureStatefulSet] passes to
    [CreateOrPatchStatefulSet] is cut into its runs of statements; the first
    one goes from [in.Labels = ...] to the upsert of the container of the
    database. *)
Definition setIdentity (c : Controller) (postgresVersion : PostgresVersion)
    (db : Postgres) (statefulSet : StatefulSet) : StatefulSet :=
  let owner := NewControllerRef db in
  let replicas := replicasOf db in
  let tpl := PodTemplate (Spec db) in
  let statefulSet := with_meta (set_om_Labels (OffshootLabels db)) statefulSet in
  let statefulSet := with_meta (set_om_Annotations (tpl_ControllerAnnotations tpl)) statefulSet in
  let statefulSet := with_meta (EnsureOwnerReference owner) statefulSet in
  let statefulSet := with_spec (set_ss_Replicas (Some replicas)) statefulSet in
  let statefulSet := with_spec (set_ss_ServiceName (GoverningServiceName db)) statefulSet in
  let statefulSet := with_spec (set_ss_Selector (Some (OffshootSelectors db))) statefulSet in
  let statefulSet := with_template (set_pt_Labels (OffshootSelectors db)) statefulSet in
  let statefulSet := with_template (set_pt_Annotations (tpl_Annotations tpl)) statefulSet in
  let statefulSet :=
    with_podSpec (λ p, set_ps_InitContainers
                         (UpsertContainers (ps_InitContainers p) (tpl_InitContainers tpl)) p)
                 statefulSet in
  with_podSpec (λ p, set_ps_Containers
                       (UpsertContainer (ps_Containers p) (postgresContainer c db postgresVersion)) p)
               statefulSet.

(** From [in.Spec.Template.Spec.NodeSelector = ...] to
    [in.Spec.Template.Spec.SecurityContext = ...]. *)
Definition setScheduling (db : Postgres) (statefulSet : StatefulSet) : StatefulSet :=
  let tpl := PodTemplate (Spec db) in
  let statefulSet := with_podSpec (set_ps_NodeSelector (tpl_NodeSelector tpl)) statefulSet in
  let statefulSet := with_podSpec (set_ps_Affinity (tpl_Affinity tpl)) statefulSet in
  let statefulSet :=
    if nonempty (tpl_SchedulerName tpl)
    then with_podSpec (set_ps_SchedulerName (tpl_SchedulerName tpl)) statefulSet
    else statefulSet in
  let statefulSet := with_podSpec (set_ps_Tolerations (tpl_Tolerations tpl)) statefulSet in
  let statefulSet := with_podSpec (set_ps_ImagePullSecrets (tpl_ImagePullSecrets tpl)) statefulSet in
  let statefulSet := with_podSpec (set_ps_PriorityClassName (tpl_PriorityClassName tpl)) statefulSet in
  let statefulSet := with_podSpec (set_ps_Priority (tpl_Priority tpl)) statefulSet in
  with_podSpec (set_ps_SecurityContext (tpl_SecurityContext tpl)) statefulSet.

(** [if db.Spec.Archiver != nil { ... }]: the secret of the archive, unless
    the backend is local. *)
Definition upsertArchiverSecret (db : Postgres) (statefulSet : StatefulSet) : StatefulSet :=
  match Archiver (Spec db) with
  | Some archiver =>
      match arch_Storage archiver with
      | Some archiverStorage =>
          match Local archiverStorage with
          | None => upsertArchiveSecret statefulSet (StorageSecretName archiverStorage)
          | Some _ => statefulSet
          end
      | None => statefulSet
      end
  | None => statefulSet
  end.

(** [if !kmapi.HasCondition(db.Status.Conditions, api.DatabaseDataRestored) { ... }]:
    the secret of the restore source, unless it is local, and the script. *)
Definition upsertInitSources (db : Postgres) (statefulSet : StatefulSet) : StatefulSet :=
  if negb (HasCondition (StatusConditions db) DatabaseDataRestored) then
    let initSource := Init (Spec db) in
    let statefulSet :=
      match initSource with
      | Some {| init_PostgresWAL := Some wal |} =>
          match Local (wal_Backend wal) with
          | None => upsertInitWalSecret statefulSet (StorageSecretName (wal_Backend wal))
          | Some _ => statefulSet
          end
      | _ => statefulSet
      end in
    match initSource with
    | Some {| init_Script := Some script |} =>
        upsertInitScript statefulSet (script_VolumeSource script)
    | _ => statefulSet
    end
  else statefulSet.

(** The last two assignments. *)
Definition setAccountAndStrategy (db : Postgres) (statefulSet : StatefulSet) : StatefulSet :=
  let statefulSet :=
    with_podSpec (set_ps_ServiceAccountName (tpl_ServiceAccountName (PodTemplate (Spec db))))
                 statefulSet in
  with_spec (set_ss_UpdateStrategy apps_OnDeleteStatefulSetStrategyType) statefulSet.

(** The function literal; [db] is captured by reference. *)
Definition statefulSetMutator (c : Controller) (postgresVersion : PostgresVersion)
    (envList : list EnvVar) (statefulSet : StatefulSet) (db : Postgres)
  : Go (StatefulSet * Postgres) :=
  let statefulSet := setIdentity c postgresVersion db statefulSet in
  let statefulSet := upsertEnv statefulSet db envList in
  let statefulSet := upsertUserEnv statefulSet db in
  let statefulSet := setScheduling db statefulSet in
  statefulSet ← upsertMonitoringContainer c statefulSet db postgresVersion;
  let statefulSet := upsertArchiverSecret db statefulSet in
  let statefulSet := upsertInitSources db statefulSet in
  let statefulSet := upsertShm statefulSet in
  '(statefulSet, db) ← upsertDataVolume statefulSet db;
  let statefulSet := upsertCustomConfig statefulSet db in
  let statefulSet := setAccountAndStrategy db statefulSet in
  mret (statefulSet, db).

(** [core_util.WaitUntilPodRunningBySelector], as a request. *)
Definition CheckStatefulSetPodStatus (statefulSet : StatefulSet) : Ctl (option error) :=
  request (CallWaitUntilPodRunning (om_Namespace (sts_ObjectMeta statefulSet))).

(** [c.CreateStatefulSetPodDisruptionBudget], as a request. *)
Definition CreateStatefulSetPodDisruptionBudget (statefulSet : StatefulSet)
  : Ctl (option error) :=
  request (CallCreatePodDisruptionBudget (om_Namespace (sts_ObjectMeta statefulSet))
                                         (om_Name (sts_ObjectMeta statefulSet))).

(** [ensureStatefulSet] after the check of the name: create or patch, wait
    for the pods, ensure the disruption budget.  The result is Go's
    [(kutil.VerbType, error)], and the database object as the call leaves
    it. *)
Definition reconcileStatefulSet (c : Controller) (db : Postgres)
    (postgresVersion : PostgresVersion) (envList : list EnvVar)
  : Ctl (VerbType * option error * Postgres) :=
  '(statefulSet, vt, err, db) ←
    CreateOrPatchStatefulSet (Namespace db) (OffshootName db)
      (statefulSetMutator c postgresVersion envList) db;
  match err with
  | Some err => mret (VerbUnchanged, Some err, db)
  | None =>
      statefulSet ← liftGo (deref statefulSet);
      err ←
        (if bool_decide (vt = VerbCreated) || bool_decide (vt = VerbPatched) then
           err ← CheckStatefulSetPodStatus statefulSet;
           match err with
           | Some err => mret (Some err)
           | None =>
               Eventf ("Successfully " +:+ verbString vt +:+ " StatefulSet");;
               mret None
           end
         else mret None);
      match err with
      | Some err => mret (VerbUnchanged, Some err, db)
      | None =>
          err ← CreateStatefulSetPodDisruptionBudget statefulSet;
          match err with
          | Some err => mret (vt, Some err, db)
          | None => mret (vt, None, db)
          end
      end
  end.

Definition ensureStatefulSet (c : Controller) (db : Postgres)
    (postgresVersion : PostgresVersion) (envList : list EnvVar)
  : Ctl (VerbType * option error * Postgres) :=
  err ← checkStatefulSet db;
  match err with
  | Some err => mret (VerbUnchanged, Some err, db)
  | None => reconcileStatefulSet c db postgresVersion envList
  end.

Definition ensureCombinedNode (c : Controller) (db : Postgres)
    (postgresVersion : PostgresVersion) : Ctl (VerbType * option error * Postgres) :=
  envList ← liftGo (combinedNodeEnv db);
  ensureStatefulSet c db postgresVersion envList.

(** *** Services *)

Definition databaseServicePort (portName : string) : ServicePort :=
  {| sp_Name := portName; sp_Protocol := ""; sp_Port := PostgresDatabasePort;
     sp_TargetPort := FromString PostgresDatabasePortName; sp_NodePort := 0 |}.

(** The mutator common to [ensurePrimaryService] and [ensureStandbyService],
    which differ in the role, the name of the port and the template. *)
Definition serviceMutator (db : Postgres) (role portName : string) (tpl : ServiceTemplate)
    (svc : Service) : Go Service :=
  let owner := NewControllerRef db in
  let svc := svc_with_meta (EnsureOwnerReference owner) svc in
  let svc := svc_with_meta (set_om_Labels (OffshootLabels db)) svc in
  let svc := svc_with_meta (set_om_Annotations (st_Annotations tpl)) svc in
  let svc := svc_with_spec (set_svs_Selector (OffshootSelectors db)) svc in
  let svc :=
    svc_with_spec (λ s, set_svs_Selector (<[PostgresLabelRole := role]> (svs_Selector s)) s) svc in
  let svc :=
    svc_with_spec
      (λ s, set_svs_Ports
              (ofst_MergeServicePorts
                 (core_MergeServicePorts (svs_Ports s) [databaseServicePort portName])
                 (st_Ports tpl)) s) svc in
  let svc :=
    if nonempty (st_ClusterIP tpl)
    then svc_with_spec (set_svs_ClusterIP (st_ClusterIP tpl)) svc else svc in
  let svc :=
    if nonempty (st_Type tpl)
    then svc_with_spec (set_svs_Type (st_Type tpl)) svc else svc in
  let svc := svc_with_spec (set_svs_ExternalIPs (st_ExternalIPs tpl)) svc in
  let svc := svc_with_spec (set_svs_LoadBalancerIP (st_LoadBalancerIP tpl)) svc in
  let svc :=
    svc_with_spec (set_svs_LoadBalancerSourceRanges (st_LoadBalancerSourceRanges tpl)) svc in
  let svc := svc_with_spec (set_svs_ExternalTrafficPolicy (st_ExternalTrafficPolicy tpl)) svc in
  let svc :=
    if bool_decide (0 < st_HealthCheckNodePort tpl)
    then svc_with_spec (set_svs_HealthCheckNodePort (st_HealthCheckNodePort tpl)) svc
    else svc in
  mret svc.

Definition ensurePrimaryService (db : Postgres) : Ctl (VerbType * option error) :=
  '(_, ok, err) ←
    CreateOrPatchService (Namespace db) (OffshootName db)
      (serviceMutator db PostgresPodPrimary PostgresPrimaryServicePortName
                      (ServiceTemplate_ (Spec db)));
  mret (ok, err).

Definition ensureStandbyService (db : Postgres) : Ctl (VerbType * option error) :=
  '(_, ok, err) ←
    CreateOrPatchService (Namespace db) (StandbyServiceName db)
      (serviceMutator db PostgresPodStandby PostgresStandbyServicePortName
                      (ReplicaServiceTemplate (Spec db)));
  mret (ok, err).

(** The last statements of [ensureService]: the two verbs combined. *)
Definition combineVerbs (vt1 vt2 : VerbType) : VerbType :=
  if bool_decide (vt1 = VerbCreated) && bool_decide (vt2 = VerbCreated) then VerbCreated
  else if bool_decide (vt1 = VerbPatched) || bool_decide (vt2 = VerbPatched) then VerbPatched
  else VerbUnchanged.

Definition ensureService (db : Postgres) : Ctl (VerbType * option error) :=
  '(vt1, err) ← ensurePrimaryService db;
  match err with
  | Some err => mret (VerbUnchanged, Some err)
  | None =>
      (if bool_decide (vt1 ≠ VerbUnchanged)
       then Eventf ("Successfully " +:+ verbString vt1 +:+ " Service")
       else mret tt);;
      let vt2 := VerbUnchanged in
      let replicas := replicasOf db in
      if bool_decide (1 < replicas) then
        '(vt2, err) ← ensureStandbyService db;
        match err with
        | Some err => mret (VerbUnchanged, Some err)
        | None =>
            (if bool_decide (vt2 ≠ VerbUnchanged)
             then Eventf ("Successfully " +:+ verbString vt2 +:+ " Service")
             else mret tt);;
            mret (combineVerbs vt1 vt2, None)
        end
      else mret (combineVerbs vt1 vt2, None)
  end.

Definition statsServiceMutator (db : Postgres) (svc : Service) : Go Service :=
  let owner := NewControllerRef db in
  let svc := svc_with_meta (EnsureOwnerReference owner) svc in
  let svc := svc_with_meta (set_om_Labels (StatsServiceLabels db)) svc in
  let svc := svc_with_spec (set_svs_Selector (OffshootSelectors db)) svc in
  monitor ← deref (Monitor (Spec db));
  exporter ← deref (mon_Prometheus monitor);
  mret (svc_with_spec
          (λ s, set_svs_Ports
                  (core_MergeServicePorts (svs_Ports s)
                     [ {| sp_Name := PrometheusExporterPortName;
                          sp_Protocol := core_ProtocolTCP;
                          sp_Port := exp_Port exporter;
                          sp_TargetPort := FromString PrometheusExporterPortName;
                          sp_NodePort := 0 |} ]) s)
          svc).

Definition ensureStatsService (db : Postgres) : Ctl (VerbType * option error) :=
  match Monitor (Spec db) with
  | Some monitor =>
      if decide (Vendor (mon_Agent monitor) = VendorPrometheus) then
        '(_, vt, err) ←
          CreateOrPatchService (Namespace db) (StatsServiceName db) (statsServiceMutator db);
        match err with
        | Some err => mret (VerbUnchanged, Some err)
        | None =>
            (if bool_decide (vt ≠ VerbUnchanged)
             then Eventf ("Successfully " +:+ verbString vt +:+ " stats service")
             else mret tt);;
            mret (vt, None)
        end
      else mret (VerbUnchanged, None)
  | None => mret (VerbUnchanged, None)
  end.

End Controller.

(** ** The specification's vocabulary *)

(** Section 9 of the specification reads a backend reference as a tagged
    variant over the five backends.  [BackendKind] is the tag, and
    [BackendChoice] the variant with its configuration. *)
Inductive BackendKind := KindS3 | KindGCS | KindAzure | KindSwift | KindLocal.

(** The fixed priority order of section 4.1. *)
Definition backendPriority : list BackendKind :=
  [KindS3; KindGCS; KindAzure; KindSwift; KindLocal].

(** The member of the backend reference for this kind is set. *)
Definition populated (b : Backend) (k : BackendKind) : Prop :=
  match k with
  | KindS3 => is_Some (S3 b)
  | KindGCS => is_Some (GCS b)
  | KindAzure => is_Some (Azure b)
  | KindSwift => is_Some (Swift b)
  | KindLocal => is_Some (Local b)
  end.

Global Instance populated_dec b k : Decision (populated b k).
Proof. destruct k; simpl; apply _. Defined.

(** First match in priority order. *)
Definition selectedBackend (b : Backend) : option BackendKind :=
  head (filter (populated b) backendPriority).


Definition restorePrefixName (k : BackendKind) : string :=
  match k with
  | KindS3 => "RESTORE_S3_PREFIX"
  | KindGCS => "RESTORE_GS_PREFIX"
  | KindAzure => "RESTORE_AZ_PREFIX"
  | KindSwift => "RESTORE_SWIFT_PREFIX"
  | KindLocal => "RESTORE_FILE_PREFIX"
  end.


(** [s] ends with [suffix]. *)
Definition endsWith (s suffix : string) : Prop := ∃ p, s = p +:+ suffix.

Inductive BackendChoice :=
  | UseS3 (s3 : S3Spec)
  | UseGCS (gcs : GCSSpec)
  | UseAzure (az : AzureSpec)
  | UseSwift (sw : SwiftSpec)
  | UseLocal (loc : LocalSpec).

(** The backend reference with a single member set. *)
Definition singleBackend (secret : string) (c : BackendChoice) : Backend :=
  {| StorageSecretName := secret;
     S3 := match c with UseS3 s3 => Some s3 | _ => None end;
     GCS := match c with UseGCS gcs => Some gcs | _ => None end;
     Azure := match c with UseAzure az => Some az | _ => None end;
     Swift := match c with UseSwift sw => Some sw | _ => None end;
     Local := match c with UseLocal loc => Some loc | _ => None end |}.

Section SpecVocabulary.
Context {imports : Imports}.

(** Section 4.1, step 5: "the same backend-specific prefix pattern using the
    restore source's bucket/container/prefix (Local backend uses a path joined
    from mount path and sub-path rather than a URI scheme)". *)
Definition restorePrefixVariable (c : BackendChoice) : EnvVar :=
  match c with
  | UseS3 s3 =>
      envValue "RESTORE_S3_PREFIX" ("s3://" +:+ s3_Bucket s3 +:+ "/" +:+ s3_Prefix s3)
  | UseGCS gcs =>
      envValue "RESTORE_GS_PREFIX" ("gs://" +:+ gcs_Bucket gcs +:+ "/" +:+ gcs_Prefix gcs)
  | UseAzure az =>
      envValue "RESTORE_AZ_PREFIX" ("azure://" +:+ az_Container az +:+ "/" +:+ az_Prefix az)
  | UseSwift sw =>
      envValue "RESTORE_SWIFT_PREFIX" ("swift://" +:+ sw_Container sw +:+ "/" +:+ sw_Prefix sw)
  | UseLocal loc =>
      envValue "RESTORE_FILE_PREFIX" (path_Join ["/"; loc_MountPath loc; loc_SubPath loc])
  end.

End SpecVocabulary.

(** An S3 configuration needs no endpoint override: the endpoint is empty or
    the public one. *)
Definition publicEndpoint (s3 : S3Spec) : Prop :=
  s3_Endpoint s3 = "" ∨ endsWith (s3_Endpoint s3) ".amazonaws.com".

(** A variable that is emitted exactly when it is wanted. *)
Inductive optionalVariable (wanted : Prop) (e : EnvVar) : list EnvVar → Prop :=
  | emitted : wanted → optionalVariable wanted e [e]
  | omitted : ¬ wanted → optionalVariable wanted e [].

(** Section 4.1, steps 4 and 5: for S3 the endpoint override and the region,
    each only when called for; nothing for the other backends. *)
Definition s3Options (c : BackendChoice) (extras : list EnvVar) : Prop :=
  match c with
  | UseS3 s3 =>
      ∃ endpoint region,
        extras = endpoint ++ region
        ∧ optionalVariable (¬ publicEndpoint s3)
            (envValue "RESTORE_S3_ENDPOINT" (s3_Endpoint s3)) endpoint
        ∧ optionalVariable (s3_Region s3 ≠ "")
            (envValue "RESTORE_S3_REGION" (s3_Region s3)) region
  | _ => extras = []
  end.

(** Section 3: "combinable - Created+Created => Created, any Patched =>
    Patched, else Unchanged." *)
Definition combinedOutcome (vt1 vt2 : VerbType) : VerbType :=
  match vt1, vt2 with
  | VerbCreated, VerbCreated => VerbCreated
  | VerbPatched, _ | _, VerbPatched => VerbPatched
  | _, _ => VerbUnchanged
  end.

(** The world once the event for a verb other than Unchanged is recorded. *)
Definition recorded (what : string) (vt : VerbType) (w : World) : World :=
  match vt with
  | VerbUnchanged => w
  | _ => set_w_Events
           (w_Events w ++ [ {| ev_Type := "Normal"; ev_Reason := "Successful";
                               ev_Message := "Successfully " +:+ verbString vt +:+ what |} ]) w
  end.

(** The world once a request is logged. *)
Definition requested (c : Call) (w : World) : World :=
  set_w_Calls (w_Calls w ++ [c]) w.

(** What a run returned, if it did not panic, and the world it left. *)
Definition returned {A} (r : Go (A * World)) : option A :=
  match r with
  | Done (a, _) => Some a
  | Panic _ => None
  end.

Definition finalWorld {A} (r : Go (A * World)) : option World :=
  match r with
  | Done (_, w) => Some w
  | Panic _ => None
  end.

(** ** An instance of the imports

    Values to evaluate the definitions on examples.  The constants are those
    of the packages; the functions are simple stand-ins of the same type. *)

Definition asciiToLower (a : Ascii.ascii) : Ascii.ascii :=
  let n := Ascii.nat_of_ascii a in
  if bool_decide (65 ≤ n ≤ 90)%nat then Ascii.ascii_of_nat (n + 32) else a.

Fixpoint stringToLower (s : string) : string :=
  match s with
  | EmptyString => EmptyString
  | String a rest => String (asciiToLower a) (stringToLower rest)
  end.

Definition joinNonEmpty (elems : list string) : string :=
  foldr (λ e acc, if decide (e = "") then acc
                  else if decide (acc = "") then e
                  else if decide (e = "/") then "/" +:+ acc
                  else e +:+ "/" +:+ acc) "" elems.

Definition exampleLabels (db : Postgres) : gmap string string :=
  {[ "kubedb.com/kind" := "Postgres"; "kubedb.com/name" := Name db ]}.

Definition exampleImports : Imports :=
  {| SchemeGroupVersion := "kubedb.com/v1alpha2";
     ResourceSingularPostgres := "postgres";
     ResourceKindPostgres := "Postgres";
     LabelDatabaseKind := "kubedb.com/kind";
     LabelDatabaseName := "kubedb.com/name";
     PostgresDatabasePort := 5432;
     PostgresDatabasePortName := "api";
     PostgresPrimaryServicePortName := "primary";
     PostgresStandbyServicePortName := "standby";
     PostgresLabelRole := "kubedb.com/role";
     PostgresPodPrimary := "primary";
     PostgresPodStandby := "replica";
     WarmPostgresStandbyMode := "Warm";
     AsynchronousPostgresStreamingMode := "Asynchronous";
     StorageTypeEphemeral := "Ephemeral";
     DatabaseDataRestored := "DataRestored";
     EnvPostgresUser := "POSTGRES_USER";
     EnvPostgresPassword := "POSTGRES_PASSWORD";
     LeaseDurationEnv := "LEASE_DURATION";
     RenewDeadlineEnv := "RENEW_DEADLINE";
     RetryPeriodEnv := "RETRY_PERIOD";
     analytics_Key := "APPSCODE_ANALYTICS_CLIENT_ID";
     VendorPrometheus := "prometheus.io";
     PrometheusExporterPortName := "prom-http";
     BasicAuthUsernameKey := "username";
     BasicAuthPasswordKey := "password";
     OffshootName := Name;
     GoverningServiceName := λ db, Name db +:+ "-gvr";
     StandbyServiceName := λ db, Name db +:+ "-replicas";
     ServiceName := Name;
     StatsServiceName := λ db, Name db +:+ "-stats";
     StatsServicePath := λ _, "/metrics";
     OffshootLabels := exampleLabels;
     OffshootSelectors := exampleLabels;
     StatsServiceLabels := λ db, <["kubedb.com/role" := "stats"]> (exampleLabels db);
     Vendor := λ agent, String.substring 0 13 agent;
     WalDataDir := λ db, "kubedb/" +:+ Namespace db +:+ "/" +:+ Name db +:+ "/archive";
     strings_ToLower := stringToLower;
     path_Join := joinNonEmpty;
     core_MergeServicePorts := UpsertAll sp_Name;
     ofst_MergeServicePorts := λ cur _, cur |}.

Definition noVolumeSource : VolumeSource :=
  {| vs_Secret := None; vs_EmptyDir := None; vs_Other := "" |}.

Definition hostPath (p : string) : VolumeSource :=
  {| vs_Secret := None; vs_EmptyDir := None; vs_Other := "hostPath:" +:+ p |}.

Definition noBackend : Backend :=
  {| StorageSecretName := ""; S3 := None; GCS := None; Azure := None; Swift := None;
     Local := None |}.

Definition examplePodTemplate : OffshootPodTemplate :=
  {| tpl_Annotations := ∅; tpl_ControllerAnnotations := ∅; tpl_InitContainers := [];
     tpl_Env := []; tpl_Resources := ""; tpl_LivenessProbe := None;
     tpl_ReadinessProbe := None; tpl_Lifecycle := None; tpl_NodeSelector := ∅;
     tpl_Affinity := None; tpl_SchedulerName := ""; tpl_Tolerations := [];
     tpl_ImagePullSecrets := []; tpl_PriorityClassName := ""; tpl_Priority := None;
     tpl_SecurityContext := None; tpl_ServiceAccountName := "" |}.

Definition exampleServiceTemplate : ServiceTemplate :=
  {| st_Annotations := ∅; st_Ports := []; st_ClusterIP := ""; st_Type := "";
     st_ExternalIPs := []; st_LoadBalancerIP := ""; st_LoadBalancerSourceRanges := [];
     st_ExternalTrafficPolicy := ""; st_HealthCheckNodePort := 0 |}.

(** A database named [demo/pg] with the given replica count, archiver,
    init source, monitor and storage. *)
Definition examplePostgres (replicas : option Z) (archiver : option PostgresArchiverSpec)
    (init : option InitSpec) (monitor : option AgentSpec)
    (storageType : string) (storage : option PersistentVolumeClaimSpec) : Postgres :=
  {| Name := "pg"; Namespace := "demo"; UID := "uid-1";
     Spec :=
       {| Replicas := replicas; StandbyMode := None; StreamingMode := None;
          LeaderElection := None; Archiver := archiver; Init := init;
          Monitor := monitor; AuthSecretName := "pg-auth"; ConfigSecret := None;
          StorageType := storageType; Storage := storage;
          PodTemplate := examplePodTemplate;
          ServiceTemplate_ := exampleServiceTemplate;
          ReplicaServiceTemplate := exampleServiceTemplate |};
     StatusConditions := [] |}.

Definition exampleController : Controller :=
  {| EnableAnalytics := true; LoggerOptionsFlags := ["--v=3"]; AnalyticsClientID := "id" |}.

Definition exampleVersion : PostgresVersion :=
  {| pv_DBImage := "kubedb/postgres:11.1"; pv_ExporterImage := "kubedb/postgres_exporter:v0.4.7" |}.

(** A control plane without objects that refuses nothing. *)
Definition emptyWorld : World :=
  {| w_StatefulSets := ∅; w_Services := ∅; w_Fails := λ _, None;
     w_Calls := []; w_Events := [] |}.

(** The names of the volumes of the pods of a StatefulSet. *)
Definition volumeNames (o : StatefulSet) : list string :=
  vol_Name <$> ps_Volumes (podSpec o).

(** A local backend: a host path mounted at [mountPath]. *)
Definition localBackend (mountPath : string) : Backend :=
  singleBackend ""
    (UseLocal {| loc_VolumeSource := hostPath "/srv/wal"; loc_MountPath := mountPath;
                 loc_SubPath := "" |}).

Definition exampleStorage : PersistentVolumeClaimSpec :=
  {| pvcs_AccessModes := []; pvcs_Requests := {[ "storage" := "1Gi" ]};
     pvcs_StorageClassName := Some "standard" |}.

(** A database that archives to a local backend. *)
Definition localArchivePostgres : Postgres :=
  examplePostgres None (Some {| arch_Storage := Some (localBackend "/walarchive") |})
    None None "Durable" (Some exampleStorage).

Definition exampleS3 (endpoint region : string) : S3Spec :=
  {| s3_Endpoint := endpoint; s3_Bucket := "backups"; s3_Prefix := "pg"; s3_Region := region |}.

Definition exampleGCS : GCSSpec := {| gcs_Bucket := "backups"; gcs_Prefix := "pg" |}.

(** An archive storage with both the S3 and the GCS member set. *)
Definition s3AndGcs (endpoint : string) : Backend :=
  {| StorageSecretName := "backup-secret"; S3 := Some (exampleS3 endpoint "");
     GCS := Some exampleGCS; Azure := None; Swift := None; Local := None |}.

Definition archivingPostgres (storage : Backend) : Postgres :=
  examplePostgres None (Some {| arch_Storage := Some storage |}) None None
    "Durable" (Some exampleStorage).

(** The recovery target of the specification's example. *)
Definition exampleTarget (inclusive : option bool) : RecoveryTarget :=
  {| TargetTime := "2024-01-01T00:00:00Z"; TargetTimeline := ""; TargetXID := "";
     TargetInclusive := inclusive |}.

Definition exampleWal (c : BackendChoice) (inclusive : option bool) : PostgresWALSourceSpec :=
  {| wal_Backend := singleBackend "backup-secret" c; wal_PITR := Some (exampleTarget inclusive) |}.

(** A database with the given replica count and nothing else configured. *)
Definition plainPostgres (replicas : option Z) : Postgres :=
  examplePostgres replicas None None None "Durable" (Some exampleStorage).

(** A control plane with one StatefulSet [demo/pg] that carries no labels. *)
Definition foreignStatefulSetWorld : World :=
  set_w_StatefulSets {[ ("demo", "pg") := emptyStatefulSet "demo" "pg" ]} emptyWorld.

(** A StatefulSet with the container of the database and nothing else. *)
Definition postgresOnlyStatefulSet : StatefulSet :=
  with_podSpec
    (set_ps_Containers
       [@postgresContainer exampleImports exampleController (plainPostgres None) exampleVersion])
    (emptyStatefulSet "demo" "pg").

(** ** The mutator as a derived value

    Section 9 of the specification asks for pure functions that return a
    derived value.  These definitions say what the mutator makes of a
    StatefulSet [o], given the containers, volumes and claim templates that
    it derives from the database object. *)

(** The place of the first container of a name, or the length of the list
    when there is none: where an upsert under that name puts its container. *)
Definition placeOf (name : string) (containers : list Container) : nat :=
  default (length containers) (fst <$> list_find (λ c, c_Name c = name) containers).

(** [o] with other containers and volumes. *)
Definition withContainersAndVolumes (containers : list Container) (volumes : list Volume)
    (o : StatefulSet) : StatefulSet :=
  with_podSpec (λ p, set_ps_Volumes volumes (set_ps_Containers containers p)) o.

(** [o] with the claim templates upserted. *)
Definition withClaimsUpserted (claims : list PersistentVolumeClaim) (o : StatefulSet)
  : StatefulSet :=
  with_spec (λ s, set_ss_VolumeClaimTemplates
                    (UpsertAll pvc_Name (ss_VolumeClaimTemplates s) claims) s) o.

(** A run of statements acts as an upsert when, on a StatefulSet whose
    containers are the upsert of [pg] and [others] into some containers, it
    does the same as upserting [pg'] where [pg] was and upserting the volumes
    [volumes], whatever the rest of the StatefulSet. *)
Definition actsAsUpsert (f : StatefulSet → StatefulSet) (others : list Container)
    (pg pg' : Container) (volumes : list Volume) : Prop :=
  ∀ cs vs b,
    f (withContainersAndVolumes (UpsertAll c_Name (UpsertByName c_Name cs pg) others) vs b)
    = withContainersAndVolumes (UpsertAll c_Name (UpsertByName c_Name cs pg') others) (UpsertAll vol_Name vs volumes) b.

Section Derived.
Context {imports : Imports}.

(** Mounts and volumes upserted pair by pair. *)
Definition upsertMountsAndVolumes (pairs : list (VolumeMount * Volume))
    (statefulSet : StatefulSet) : StatefulSet :=
  foldl (λ o pair, upsertMountAndVolume pair.1 pair.2 o) statefulSet pairs.

Definition derivedStatefulSet (c : Controller) (postgresVersion : PostgresVersion)
    (db : Postgres) (containers : list Container) (volumes : list Volume)
    (claims : list PersistentVolumeClaim) (o : StatefulSet) : StatefulSet :=
  withContainersAndVolumes
    (UpsertAll c_Name (ps_Containers (podSpec o)) containers)
    (UpsertAll vol_Name (ps_Volumes (podSpec o)) volumes)
    (setAccountAndStrategy db
       (withClaimsUpserted claims
          (setScheduling db (setIdentity c postgresVersion db o)))).

End Derived.

(** ** The governing service *)

Section GoverningService.
Context {imports : Imports}.

(** The function literal that [ensureGoverningService] passes to
    [CreateOrPatchService]. *)
Definition governingServiceMutator (db : Postgres) (svc : Service) : Go Service :=
  let owner := NewControllerRef db in
  let svc := svc_with_meta (EnsureOwnerReference owner) svc in
  let svc := svc_with_meta (set_om_Labels (OffshootLabels db)) svc in
  let svc := svc_with_spec (set_svs_Type core_ServiceTypeClusterIP) svc in
  let svc := svc_with_spec (set_svs_ClusterIP core_ClusterIPNone) svc in
  let svc := svc_with_spec (set_svs_Selector (OffshootSelectors db)) svc in
  let svc := svc_with_spec (set_svs_PublishNotReadyAddresses true) svc in
  mret svc.

(** The result is Go's [error]. *)
Definition ensureGoverningService (db : Postgres) : Ctl (option error) :=
  '(_, vt, err) ←
    CreateOrPatchService (Namespace db) (GoverningServiceName db)
      (governingServiceMutator db);
  (if bool_decide (err = None)
      && (bool_decide (vt = VerbCreated) || bool_decide (vt = VerbPatched))
   then Eventf ("Successfully " +:+ verbString vt +:+ " governing service")
   else mret tt);;
  mret err.

End GoverningService.

(** ** The monitor of the database

    The last file of the sources, [monitor.go], is the monitor of an earlier
    controller, over [github.com/k8sdb/apimachinery/api].  The types of that
    package, what [%v] prints of them and the image of the exporter are not
    in the sources: the development is parametric in them. *)

Class MonitorImports := {
  tapi_ObjectMeta : Type;
  tapi_PostgresSpec : Type;
  tapi_MonitorSpec : Type;
  tapi_PrometheusSpec : Type;
  (* postgres.Spec.Monitor, monitorSpec.Prometheus *)
  tapi_Monitor : tapi_PostgresSpec → option tapi_MonitorSpec;
  tapi_Prometheus : tapi_MonitorSpec → option tapi_PrometheusSpec;
  docker_ImageExporter : string;
  (* fmt.Sprintf("%v", ...) *)
  fmt_v_PostgresSpec : tapi_PostgresSpec → string;
  fmt_v_MonitorSpec : tapi_MonitorSpec → string
}.

Section Monitor.
Context {monitorImports : MonitorImports}.

(** [tapi.Postgres], as far as the monitor reads it. *)
Record tapi_Postgres := {
  tapi_Meta : tapi_ObjectMeta;
  tapi_Spec : tapi_PostgresSpec
}.

(** [c.opt], as far as the monitor reads it. *)
Record Options := {
  ExporterTag : string;
  ExporterNamespace : string
}.

(** What [monitor.NewPrometheusController(c.Client, c.promClient, namespace, image)]
    is given besides the clients. *)
Record PrometheusController := {
  pc_Namespace : string;
  pc_Image : string
}.

(** A call of a method of [monitor.Monitor]. *)
Inductive MonitorCall :=
  | CallAddMonitor (ctrl : PrometheusController) (meta : tapi_ObjectMeta)
      (spec : option tapi_MonitorSpec)
  | CallDeleteMonitor (ctrl : PrometheusController) (meta : tapi_ObjectMeta)
      (spec : option tapi_MonitorSpec)
  | CallUpdateMonitor (ctrl : PrometheusController) (meta : tapi_ObjectMeta)
      (old new : option tapi_MonitorSpec).

(** The monitoring agent: the error, if any, with which it answers a call,
    and the calls made so far, in order. *)
Record Agent := {
  ag_Fails : MonitorCall → option error;
  ag_Calls : list MonitorCall
}.

(** A call: it is logged, and the agent answers with an error or with
    none. *)
Definition invoke (call : MonitorCall) (a : Agent) : option error * Agent :=
  (ag_Fails a call, {| ag_Fails := ag_Fails a; ag_Calls := ag_Calls a ++ [call] |}).

(** The result is Go's [(monitor.Monitor, error)]. *)
Definition newMonitorController (opt : Options) (postgres : tapi_Postgres)
  : option PrometheusController * option error :=
  let monitorSpec := tapi_Monitor (tapi_Spec postgres) in
  match monitorSpec with
  | None =>
      (None, Some (Errorf ("MonitorSpec not found in "
                           +:+ fmt_v_PostgresSpec (tapi_Spec postgres))))
  | Some monitorSpec =>
      match tapi_Prometheus monitorSpec with
      | Some _ =>
          let image := docker_ImageExporter +:+ ":" +:+ ExporterTag opt in
          (Some {| pc_Namespace := ExporterNamespace opt; pc_Image := image |}, None)
      | None =>
          (None, Some (Errorf ("Monitoring controller not found for "
                               +:+ fmt_v_MonitorSpec monitorSpec)))
      end
  end.



Definition updateMonitor (opt : Options) (oldPostgres updatedPostgres : tapi_Postgres)
    (a : Agent) : Go (option error * Agent) :=
  let '(ctrl, err) :=
    match tapi_Monitor (tapi_Spec updatedPostgres) with
    | None => newMonitorController opt oldPostgres
    | Some _ => newMonitorController opt updatedPostgres
    end in
  match err with
  | Some err => mret (Some err, a)
  | None =>
      ctrl ← deref ctrl;
      mret (invoke (CallUpdateMonitor ctrl (tapi_Meta updatedPostgres)
                      (tapi_Monitor (tapi_Spec oldPostgres))
                      (tapi_Monitor (tapi_Spec updatedPostgres))) a)
  end.

(** The controller that [newMonitorController] builds when it builds one. *)
Definition exporterController (opt : Options) : PrometheusController :=
  {| pc_Namespace := ExporterNamespace opt;
     pc_Image := docker_ImageExporter +:+ ":" +:+ ExporterTag opt |}.

(** The database asks for a monitor that the controller can build: it has a
    monitor, and the monitor has a Prometheus part. *)
Definition monitored (postgres : tapi_Postgres) : Prop :=
  ∃ monitorSpec, tapi_Monitor (tapi_Spec postgres) = Some monitorSpec
                 ∧ is_Some (tapi_Prometheus monitorSpec).

End Monitor.

(** ** What the further properties speak of *)

(** The variable [e] is in [env] exactly when it is wanted, and no other
    variable of [env] carries its name. *)
Definition optionalIn (env : list EnvVar) (e : EnvVar) (wanted : Prop) : Prop :=
  (env_Name e ∈ env_Name <$> env ↔ wanted)
  ∧ (∀ e', e' ∈ env → env_Name e' = env_Name e → e' = e).

(** The names that the backend part of [walRecoveryConfig] gives to its
    variables. *)
Definition restoreBackendNames : list string :=
  (restorePrefixName <$> backendPriority) ++ ["RESTORE_S3_ENDPOINT"; "RESTORE_S3_REGION"].

(** [db.Spec.Init.PostgresWAL.PITR], when every pointer on the way is set. *)
Definition restoreTarget (db : Postgres) : option RecoveryTarget :=
  init ← Init (Spec db); wal ← init_PostgresWAL init; wal_PITR wal.

(** The names of the claim templates of a StatefulSet. *)
Definition claimNames (o : StatefulSet) : list string :=
  pvc_Name <$> ss_VolumeClaimTemplates (sts_Spec o).

(** [o'] has the containers, the init containers, the volumes, the claim
    templates and the owners of [o] under their names, in their places, and
    possibly more of them after these. *)
Definition keepsNames (o o' : StatefulSet) : Prop :=
  (c_Name <$> ps_Containers (podSpec o)) `prefix_of` (c_Name <$> ps_Containers (podSpec o'))
  ∧ (c_Name <$> ps_InitContainers (podSpec o))
      `prefix_of` (c_Name <$> ps_InitContainers (podSpec o'))
  ∧ volumeNames o `prefix_of` volumeNames o'
  ∧ claimNames o `prefix_of` claimNames o'
  ∧ (or_UID <$> om_OwnerReferences (sts_ObjectMeta o))
      `prefix_of` (or_UID <$> om_OwnerReferences (sts_ObjectMeta o')).

(** The names under which the mutator upserts or appends a volume. *)
Definition managedVolumeNames : list string :=
  ["wal-g-archive"; "wal-g-restore"; "initial-script"; "shared-memory";
   "local-archive"; "local-init"; "data"; "custom-config"].

Section Invariants.
Context {imports : Imports}.

(** The containers, the volumes and the claim templates of [o'] that are not
    under a name of [o] are under a name that the mutator manages. *)
Definition addsManagedOnly (o o' : StatefulSet) : Prop :=
  (∀ name, name ∈ c_Name <$> ps_Containers (podSpec o') →
           name ∈ c_Name <$> ps_Containers (podSpec o)
           ∨ name ∈ [ResourceSingularPostgres; "exporter"])
  ∧ (∀ name, name ∈ volumeNames o' → name ∈ volumeNames o ∨ name ∈ managedVolumeNames)
  ∧ (∀ name, name ∈ claimNames o' → name ∈ claimNames o ∨ name = "data").

(** Every mount of the container of the database has a volume or a claim
    template of its name. *)
Definition mountsBacked (o : StatefulSet) : Prop :=
  ∀ i container,
    findContainer ResourceSingularPostgres (ps_Containers (podSpec o)) = Some (i, container) →
    ∀ name, name ∈ vm_Name <$> c_VolumeMounts container →
            name ∈ volumeNames o ∨ name ∈ claimNames o.

End Invariants.

(** ** Further examples *)

(** A control plane without objects that refuses the requests that [refused]
    selects. *)
Definition refusingWorld (refused : Call → option error) : World :=
  {| w_StatefulSets := ∅; w_Services := ∅; w_Fails := refused;
     w_Calls := []; w_Events := [] |}.

(** The pods never get to run. *)
Definition podsNeverRun (call : Call) : option error :=
  match call with
  | CallWaitUntilPodRunning _ => Some (ErrClient "timed out waiting for the condition")
  | _ => None
  end.

(** No StatefulSet may be created. *)
Definition creationRefused (call : Call) : option error :=
  match call with
  | CallCreate KStatefulSet _ _ => Some (ErrClient "forbidden")
  | _ => None
  end.

(** The service of the standbys cannot be read. *)
Definition standbyUnreadable (call : Call) : option error :=
  match call with
  | CallGet KService _ "pg-replicas" => Some (ErrClient "connection refused")
  | _ => None
  end.

(** No service can be read. *)
Definition servicesUnreadable (call : Call) : option error :=
  match call with
  | CallGet KService _ _ => Some (ErrClient "connection refused")
  | _ => None
  end.

(** A database whose pod template declares the password in the environment,
    twice. *)
Definition userEnvPostgres : Postgres :=
  {| Name := "pg"; Namespace := "demo"; UID := "uid-1";
     Spec :=
       {| Replicas := None; StandbyMode := None; StreamingMode := None;
          LeaderElection := None; Archiver := None; Init := None;
          Monitor := None; AuthSecretName := "pg-auth"; ConfigSecret := None;
          StorageType := "Durable"; Storage := Some exampleStorage;
          PodTemplate :=
            {| tpl_Annotations := ∅; tpl_ControllerAnnotations := ∅;
               tpl_InitContainers := [];
               tpl_Env := [envValue "POSTGRES_PASSWORD" "first";
                           envValue "TZ" "UTC";
                           envValue "POSTGRES_PASSWORD" "second"];
               tpl_Resources := ""; tpl_LivenessProbe := None;
               tpl_ReadinessProbe := None; tpl_Lifecycle := None; tpl_NodeSelector := ∅;
               tpl_Affinity := None; tpl_SchedulerName := ""; tpl_Tolerations := [];
               tpl_ImagePullSecrets := []; tpl_PriorityClassName := "";
               tpl_Priority := None; tpl_SecurityContext := None;
               tpl_ServiceAccountName := "" |};
          ServiceTemplate_ := exampleServiceTemplate;
          ReplicaServiceTemplate := exampleServiceTemplate |};
     StatusConditions := [] |}.

(** A container that is not the one of the database. *)
Definition sidecarContainer : Container :=
  {| c_Name := "sidecar"; c_Image := "busybox"; c_Args := []; c_Ports := []; c_Env := [];
     c_Resources := ""; c_VolumeMounts := []; c_LivenessProbe := None;
     c_ReadinessProbe := None; c_Lifecycle := None; c_ImagePullPolicy := "";
     c_SecurityContext := None |}.

(** A StatefulSet whose first container is not the one of the database. *)
Definition sidecarFirstStatefulSet : StatefulSet :=
  with_podSpec
    (set_ps_Containers
       [sidecarContainer;
        @postgresContainer exampleImports exampleController (plainPostgres None) exampleVersion])
    (emptyStatefulSet "demo" "pg").

(** A StatefulSet with the sidecar only. *)
Definition sidecarOnlyStatefulSet : StatefulSet :=
  with_podSpec (set_ps_Containers [sidecarContainer]) (emptyStatefulSet "demo" "pg").

(** An instance of the imports of the monitor: a database is its name and
    its specification is its monitor, which is its Prometheus part, if
    any. *)
Definition exampleMonitorImports : MonitorImports :=
  {| tapi_ObjectMeta := string;
     tapi_PostgresSpec := option (option string);
     tapi_MonitorSpec := option string;
     tapi_PrometheusSpec := string;
     tapi_Monitor := id;
     tapi_Prometheus := id;
     docker_ImageExporter := "kubedb/operator";
     fmt_v_PostgresSpec := λ _, "{...}";
     fmt_v_MonitorSpec := λ _, "&{...}" |}.

(** A database of that instance. *)
Definition exampleMonitored (monitor : option (option string))
  : @tapi_Postgres exampleMonitorImports :=
  @Build_tapi_Postgres exampleMonitorImports "pg" monitor.

Definition exampleOptions : Options :=
  {| ExporterTag := "0.8.0"; ExporterNamespace := "kube-system" |}.

(** An agent that accepts every call. *)
Definition idleAgent : @Agent exampleMonitorImports :=
  @Build_Agent exampleMonitorImports (λ _, None) [].

(** * Properties *)

(** ** Strings *)

Lemma string_length_app (s t : string) :
  String.length (s +:+ t) = (String.length s + String.length t)%nat.
Proof. induction s as [|a s IH]; simpl; [done | by rewrite IH]. Qed.

Lemma substring_all (s : string) : String.substring 0 (String.length s) s = s.
Proof. induction s as [|a s IH]; simpl; [done | by rewrite IH]. Qed.

Lemma substring_app_r (p s : string) (m : nat) :
  String.substring (String.length p) m (p +:+ s) = String.substring 0 m s.
Proof. induction p as [|a p IH]; simpl; [done | apply IH]. Qed.

Lemma substring_split (s : string) (n : nat) :
  (n ≤ String.length s)%nat →
  s = String.substring 0 n s +:+ String.substring n (String.length s - n) s.
Proof.
  revert n. induction s as [|a s IH]; intros [|n] Hn; simpl in *; try lia.
  - done.
  - by rewrite substring_all.
  - change (String a s = String a (String.substring 0 n s
                               +:+ String.substring n (String.length s - n) s)).
    f_equal. apply IH. lia.
Qed.

(** Go's [strings.HasSuffix] decides [endsWith]. *)
Lemma HasSuffix_endsWith (s suffix : string) :
  HasSuffix s suffix = true ↔ endsWith s suffix.
Proof.
  unfold HasSuffix, endsWith. rewrite andb_true_iff, !bool_decide_eq_true. split.
  - intros [Hlen Hsub].
    exists (String.substring 0 (String.length s - String.length suffix) s).
    etrans; [apply (substring_split s (String.length s - String.length suffix)); lia|].
    f_equal. rewrite <- Hsub at 3. f_equal. lia.
  - intros [p ->]. rewrite string_length_app. split; [lia|].
    replace (String.length p + String.length suffix - String.length suffix)%nat
      with (String.length p) by lia.
    by rewrite substring_app_r, substring_all.
Qed.

Lemma HasSuffix_false (s suffix : string) :
  HasSuffix s suffix = false ↔ ¬ endsWith s suffix.
Proof. rewrite <- HasSuffix_endsWith. by destruct (HasSuffix s suffix). Qed.

Lemma nonempty_true (s : string) : nonempty s = true ↔ s ≠ "".
Proof. unfold nonempty. by rewrite bool_decide_eq_true. Qed.

Lemma nonempty_false (s : string) : nonempty s = false ↔ s = "".
Proof.
  unfold nonempty. rewrite bool_decide_eq_false. split; [|naive_solver].
  intros Hs. by destruct (decide (s = "")).
Qed.

(** ** Upserts *)

Section UpsertProperties.
Context {A : Type} (keyOf : A → string).
Implicit Types (l items : list A) (a b : A).

(** Of two upserts under the same key the second one wins. *)
Lemma UpsertByName_absorb l a b :
  keyOf a = keyOf b →
  UpsertByName keyOf (UpsertByName keyOf l a) b = UpsertByName keyOf l b.
Proof.
  intros Hab. induction l as [|x l IH]; simpl.
  - by rewrite decide_True.
  - destruct (decide (keyOf x = keyOf a)) as [Hxa|Hxa]; simpl.
    + rewrite decide_True by done. rewrite decide_True by congruence. done.
    + rewrite decide_False by congruence. rewrite decide_False by congruence.
      by rewrite IH.
Qed.

(** Upserts under different keys commute as soon as one of the keys is
    there already. *)
Lemma UpsertByName_comm l a b :
  keyOf a ≠ keyOf b →
  keyOf a ∈ keyOf <$> l ∨ keyOf b ∈ keyOf <$> l →
  UpsertByName keyOf (UpsertByName keyOf l a) b
  = UpsertByName keyOf (UpsertByName keyOf l b) a.
Proof.
  intros Hab. induction l as [|x l IH]; simpl.
  - intros [H|H]; by apply elem_of_nil in H.
  - intros Hin.
    destruct (decide (keyOf x = keyOf a)) as [Hxa|Hxa],
             (decide (keyOf x = keyOf b)) as [Hxb|Hxb]; simpl.
    + congruence.
    + rewrite decide_False by congruence. by rewrite decide_True.
    + rewrite decide_True by done. by rewrite decide_False by congruence.
    + rewrite decide_False by done. rewrite decide_False by done.
      rewrite IH; [done|].
      destruct Hin as [Hin|Hin]; apply elem_of_cons in Hin as [Hin|Hin];
        try congruence; auto.
Qed.

Lemma UpsertByName_keys_elem l a k :
  k ∈ keyOf <$> UpsertByName keyOf l a ↔ k = keyOf a ∨ k ∈ keyOf <$> l.
Proof.
  induction l as [|x l IH]; simpl.
  - rewrite list_elem_of_singleton, elem_of_nil. tauto.
  - destruct (decide (keyOf x = keyOf a)) as [Hxa|Hxa]; simpl;
      rewrite !elem_of_cons, ?IH; rewrite ?Hxa; tauto.
Qed.

Lemma UpsertAll_cons l a items :
  UpsertAll keyOf l (a :: items) = UpsertAll keyOf (UpsertByName keyOf l a) items.
Proof. done. Qed.

Lemma UpsertAll_snoc l items a :
  UpsertAll keyOf l (items ++ [a]) = UpsertByName keyOf (UpsertAll keyOf l items) a.
Proof. unfold UpsertAll. by rewrite foldl_app. Qed.

Lemma UpsertAll_app l items1 items2 :
  UpsertAll keyOf l (items1 ++ items2) = UpsertAll keyOf (UpsertAll keyOf l items1) items2.
Proof. unfold UpsertAll. by rewrite foldl_app. Qed.

Lemma UpsertAll_keys_elem l items k :
  k ∈ keyOf <$> UpsertAll keyOf l items ↔ k ∈ keyOf <$> items ∨ k ∈ keyOf <$> l.
Proof.
  revert l. induction items as [|a items IH]; intros l.
  - simpl. rewrite elem_of_nil. tauto.
  - rewrite UpsertAll_cons, IH, UpsertByName_keys_elem, fmap_cons, elem_of_cons. tauto.
Qed.

(** An upsert of [a] that is followed by upserts under keys that are there
    already, and then by another upsert of [a], may be dropped. *)
Lemma UpsertAll_absorb l items a :
  (∀ k, k ∈ keyOf <$> items → k ∈ keyOf <$> l) →
  UpsertByName keyOf (UpsertAll keyOf (UpsertByName keyOf l a) items) a
  = UpsertByName keyOf (UpsertAll keyOf l items) a.
Proof.
  revert l. induction items as [|b items IH]; intros l Hkeys.
  - by apply UpsertByName_absorb.
  - rewrite !UpsertAll_cons. destruct (decide (keyOf a = keyOf b)) as [Hab|Hab].
    + by rewrite UpsertByName_absorb.
    + rewrite UpsertByName_comm; [|done|].
      * apply IH. intros k Hk. apply UpsertByName_keys_elem. right.
        apply Hkeys. by right.
      * right. apply Hkeys. by left.
Qed.

(** Section 4.2: upserting the same items once more changes nothing. *)
Lemma UpsertAll_idemp l items :
  UpsertAll keyOf (UpsertAll keyOf l items) items = UpsertAll keyOf l items.
Proof.
  revert l. induction items as [|a items IH] using rev_ind; intros l; [done|].
  rewrite !UpsertAll_snoc. rewrite UpsertAll_absorb.
  - by rewrite IH.
  - intros k Hk. apply UpsertAll_keys_elem. by left.
Qed.

Lemma UpsertByName_idemp l a :
  UpsertByName keyOf (UpsertByName keyOf l a) a = UpsertByName keyOf l a.
Proof. by apply UpsertByName_absorb. Qed.

(** Section 4.2: an item under a key that is there replaces the first item
    under that key, where it stands; an item under a new key goes to the
    end. *)
Lemma UpsertByName_replace l1 x l2 a :
  keyOf x = keyOf a →
  keyOf a ∉ keyOf <$> l1 →
  UpsertByName keyOf (l1 ++ x :: l2) a = l1 ++ a :: l2.
Proof.
  intros Hxa. induction l1 as [|y l1 IH]; simpl; intros Hnotin.
  - by rewrite decide_True.
  - rewrite decide_False.
    + rewrite IH; [done|]. intros Hin. apply Hnotin. by right.
    + intros Hya. apply Hnotin. rewrite <- Hya. by left.
Qed.

Lemma UpsertByName_append l a :
  keyOf a ∉ keyOf <$> l →
  UpsertByName keyOf l a = l ++ [a].
Proof.
  induction l as [|y l IH]; simpl; intros Hnotin; [done|].
  rewrite decide_False.
  - rewrite IH; [done|]. intros Hin. apply Hnotin. by right.
  - intros Hya. apply Hnotin. rewrite <- Hya. by left.
Qed.

(** The first item under the key of [a], after the upsert of [a], is [a];
    the place depends on the list and on the key only. *)
Lemma list_find_UpsertByName l a :
  list_find (λ x, keyOf x = keyOf a) (UpsertByName keyOf l a)
  = Some (default (length l) (fst <$> list_find (λ x, keyOf x = keyOf a) l), a).
Proof.
  induction l as [|x l IH]; simpl.
  - by rewrite decide_True.
  - destruct (decide (keyOf x = keyOf a)) as [Hxa|Hxa]; simpl.
    + by rewrite decide_True.
    + rewrite decide_False by done. rewrite IH.
      by destruct (list_find _ l) as [[i y]|].
Qed.

(** Changing the item at that place amounts to upserting the changed item,
    if the change keeps the key. *)
Lemma alter_UpsertByName l a (f : A → A) :
  keyOf (f a) = keyOf a →
  alter f (default (length l) (fst <$> list_find (λ x, keyOf x = keyOf a) l))
        (UpsertByName keyOf l a)
  = UpsertByName keyOf l (f a).
Proof.
  intros Hf. induction l as [|x l IH]; simpl.
  - done.
  - destruct (decide (keyOf x = keyOf a)) as [Hxa|Hxa]; simpl.
    + rewrite decide_True by congruence. done.
    + rewrite decide_False by congruence. rewrite <- IH.
      by destruct (list_find _ l) as [[i y]|].
Qed.

(** An upsert under another key leaves the first item under a key in its
    place. *)
Lemma list_find_UpsertByName_ne l a (k : string) :
  keyOf a ≠ k →
  is_Some (list_find (λ x, keyOf x = k) l) →
  list_find (λ x, keyOf x = k) (UpsertByName keyOf l a)
  = list_find (λ x, keyOf x = k) l.
Proof.
  intros Hak. induction l as [|x l IH]; simpl; [by intros [? [=]]|].
  intros Hfound.
  destruct (decide (keyOf x = keyOf a)) as [Hxa|Hxa]; simpl.
  - rewrite decide_False by congruence. rewrite decide_False by congruence. done.
  - destruct (decide (keyOf x = k)) as [Hxk|Hxk]; [done|].
    rewrite IH; [done|]. by destruct (list_find _ l).
Qed.

Lemma alter_UpsertByName_ne l a (f : A → A) (i : nat) (x : A) :
  (∀ y, keyOf (f y) = keyOf y) →
  l !! i = Some x →
  keyOf x ≠ keyOf a →
  alter f i (UpsertByName keyOf l a) = UpsertByName keyOf (alter f i l) a.
Proof.
  intros Hf. revert i. induction l as [|y l IH]; intros i Hi Hxa; [done|].
  destruct i as [|i]; simpl in *.
  - injection Hi as ->. rewrite decide_False by done. simpl.
    rewrite decide_False by (by rewrite Hf). done.
  - destruct (decide (keyOf y = keyOf a)); simpl; [done|]. f_equal. by apply IH.
Qed.

End UpsertProperties.

(** ** The environment *)

Section EnvironmentProperties.
Context {imports : Imports}.



Lemma walRecoveryConfig_Done (wal : PostgresWALSourceSpec) (env : list EnvVar) :
  walRecoveryConfig wal = Done env ↔
  ∃ pitr, pitrEnv wal = Done pitr
          ∧ env = [envValue "RESTORE" "true"] ++ restoreBackendEnv wal ++ pitr.
Proof.
  unfold walRecoveryConfig. destruct (pitrEnv wal) as [pitr|]; simpl.
  - split; [intros [= <-]; by eexists | by intros (? & [= <-] & ->)].
  - split; [done | by intros (? & ? & _)].
Qed.






(** The archive environment of a database that archives to S3. *)
Lemma archiveEnv_S3 (db : Postgres) archiver storage s3 :
  Archiver (Spec db) = Some archiver →
  arch_Storage archiver = Some storage →
  S3 storage = Some s3 →
  archiveEnv db
  = [envValue "ARCHIVE" "wal-g";
     envValue "ARCHIVE_S3_PREFIX" ("s3://" +:+ s3_Bucket s3 +:+ "/" +:+ WalDataDir db)]
    ++ (if nonempty (s3_Endpoint s3) && negb (HasSuffix (s3_Endpoint s3) ".amazonaws.com")
        then [envValue "ARCHIVE_S3_ENDPOINT" (s3_Endpoint s3)] else [])
    ++ (if nonempty (s3_Region s3)
        then [envValue "ARCHIVE_S3_REGION" (s3_Region s3)] else []).
Proof. intros Ha Hs Hs3. unfold archiveEnv. by rewrite Ha, Hs, Hs3. Qed.

(** C5: for an S3 archive storage, [ARCHIVE_S3_ENDPOINT] is in the
    environment if and only if the endpoint is not empty and does not end
    with [.amazonaws.com], and then its value is the endpoint;
    [ARCHIVE_S3_REGION] is there if and only if the region is not empty.  So
    the endpoint [minio.example.com] gives the variable and
    [s3.us-east-1.amazonaws.com] gives none. *)
Theorem archive_s3_endpoint_iff (db : Postgres) (archiver : PostgresArchiverSpec)
    (storage : Backend) (s3 : S3Spec) :
  Archiver (Spec db) = Some archiver →
  arch_Storage archiver = Some storage →
  S3 storage = Some s3 →
  ("ARCHIVE_S3_ENDPOINT" ∈ env_Name <$> archiveEnv db
   ↔ s3_Endpoint s3 ≠ "" ∧ ¬ endsWith (s3_Endpoint s3) ".amazonaws.com")
  ∧ (∀ e, e ∈ archiveEnv db → env_Name e = "ARCHIVE_S3_ENDPOINT" →
       e = envValue "ARCHIVE_S3_ENDPOINT" (s3_Endpoint s3))
  ∧ ("ARCHIVE_S3_REGION" ∈ env_Name <$> archiveEnv db ↔ s3_Region s3 ≠ "")
  ∧ (∀ e, e ∈ archiveEnv db → env_Name e = "ARCHIVE_S3_REGION" →
       e = envValue "ARCHIVE_S3_REGION" (s3_Region s3))
  ∧ (s3_Endpoint s3 = "minio.example.com" →
       envValue "ARCHIVE_S3_ENDPOINT" "minio.example.com" ∈ archiveEnv db)
  ∧ (s3_Endpoint s3 = "s3.us-east-1.amazonaws.com" →
       "ARCHIVE_S3_ENDPOINT" ∉ env_Name <$> archiveEnv db).
Proof.
  intros Ha Hs Hs3. rewrite (archiveEnv_S3 _ _ _ _ Ha Hs Hs3).
  set (ep := if nonempty (s3_Endpoint s3) && negb (HasSuffix (s3_Endpoint s3) ".amazonaws.com")
        then [envValue "ARCHIVE_S3_ENDPOINT" (s3_Endpoint s3)] else []).
  set (rg := if nonempty (s3_Region s3)
        then [envValue "ARCHIVE_S3_REGION" (s3_Region s3)] else []).
  assert (Hep : ∀ e, e ∈ ep ↔ e = envValue "ARCHIVE_S3_ENDPOINT" (s3_Endpoint s3)
                               ∧ s3_Endpoint s3 ≠ ""
                               ∧ ¬ endsWith (s3_Endpoint s3) ".amazonaws.com").
  { intros e. unfold ep.
    destruct (nonempty (s3_Endpoint s3)) eqn:Hne;
      [apply nonempty_true in Hne | apply nonempty_false in Hne];
    (destruct (HasSuffix (s3_Endpoint s3) ".amazonaws.com") eqn:Hsuf;
      [apply HasSuffix_endsWith in Hsuf | apply HasSuffix_false in Hsuf]); simpl;
    rewrite ?elem_of_cons, ?elem_of_nil; tauto. }
  assert (Hrg : ∀ e, e ∈ rg ↔ e = envValue "ARCHIVE_S3_REGION" (s3_Region s3)
                               ∧ s3_Region s3 ≠ "").
  { intros e. unfold rg.
    destruct (nonempty (s3_Region s3)) eqn:Hne;
      [apply nonempty_true in Hne | apply nonempty_false in Hne]; simpl;
    rewrite ?elem_of_cons, ?elem_of_nil; tauto. }
  assert (Hin : ∀ e, e ∈ [envValue "ARCHIVE" "wal-g";
                   envValue "ARCHIVE_S3_PREFIX" ("s3://" +:+ s3_Bucket s3 +:+ "/" +:+ WalDataDir db)]
                  ++ ep ++ rg
            ↔ e = envValue "ARCHIVE" "wal-g"
              ∨ e = envValue "ARCHIVE_S3_PREFIX" ("s3://" +:+ s3_Bucket s3 +:+ "/" +:+ WalDataDir db)
              ∨ e ∈ ep ∨ e ∈ rg).
  { intros e. rewrite !elem_of_app, !elem_of_cons, elem_of_nil. tauto. }
  clearbody ep rg.
  assert (Hname : ∀ n, n ∈ env_Name <$> [envValue "ARCHIVE" "wal-g";
                   envValue "ARCHIVE_S3_PREFIX" ("s3://" +:+ s3_Bucket s3 +:+ "/" +:+ WalDataDir db)]
                  ++ ep ++ rg
            ↔ n = "ARCHIVE" ∨ n = "ARCHIVE_S3_PREFIX"
              ∨ (n = "ARCHIVE_S3_ENDPOINT" ∧ s3_Endpoint s3 ≠ ""
                               ∧ ¬ endsWith (s3_Endpoint s3) ".amazonaws.com")
              ∨ (n = "ARCHIVE_S3_REGION" ∧ s3_Region s3 ≠ "")).
  { intros n. rewrite list_elem_of_fmap. split.
    - intros (e & -> & [->|[->|[He|He]]]%Hin); [by left | by right; left | |].
      + apply Hep in He as (-> & ? & ?). right; right; left. done.
      + apply Hrg in He as (-> & ?). right; right; right. done.
    - intros [->|[->|[(-> & ? & ?)|(-> & ?)]]].
      + eexists; split; [|apply Hin; left; done]; done.
      + eexists; split; [|apply Hin; right; left; done]; done.
      + eexists; split; [|apply Hin; right; right; left; apply Hep; done]; done.
      + eexists; split; [|apply Hin; right; right; right; apply Hrg; done]; done. }
  split_and!.
  - rewrite Hname. split; [intros [?|[?|[(_ & ? & ?)|(? & _)]]]; done | intros [??]; by right; right; left].
  - intros e [->|[->|[He|He]]]%Hin Hn; try done.
    + by apply Hep in He as (-> & _).
    + by apply Hrg in He as (-> & _).
  - rewrite Hname. split; [intros [?|[?|[(? & _)|(_ & ?)]]]; done | intros ?; by right; right; right].
  - intros e [->|[->|[He|He]]]%Hin Hn; try done.
    + by apply Hep in He as (-> & _).
    + by apply Hrg in He as (-> & _).
  - intros Heq. apply Hin. right; right; left. apply Hep. rewrite Heq. split_and!; [done..|].
    apply HasSuffix_false. by vm_compute.
  - intros Heq. rewrite Hname. intros [?|[?|[(_ & _ & Hno)|(? & _)]]]; try done.
    apply Hno. rewrite Heq. apply HasSuffix_endsWith. by vm_compute.
Qed.

(** The environment of a recovery target whose inclusive flag is set. *)
Lemma pitrEnv_inclusive (wal : PostgresWALSourceSpec) (pitr : RecoveryTarget) (b : bool) :
  wal_PITR wal = Some pitr →
  TargetInclusive pitr = Some b →
  pitrEnv wal
  = Done ([envValue "PITR" "true"; envValue "TARGET_INCLUSIVE" (fmt_t b)]
          ++ (if nonempty (TargetTime pitr)
              then [envValue "TARGET_TIME" (TargetTime pitr)] else [])
          ++ (if nonempty (TargetTimeline pitr)
              then [envValue "TARGET_TIMELINE" (TargetTimeline pitr)] else [])
          ++ (if nonempty (TargetXID pitr)
              then [envValue "TARGET_XID" (TargetXID pitr)] else [])).
Proof. intros Hp Hb. unfold pitrEnv. by rewrite Hp, Hb. Qed.

(** The backend part for a reference with a single member set. *)
Lemma restoreBackendEnv_single (secret : string) (c : BackendChoice) (pitr : option RecoveryTarget) :
  ∃ extras, s3Options c extras
    ∧ restoreBackendEnv {| wal_Backend := singleBackend secret c; wal_PITR := pitr |}
      = restorePrefixVariable c :: extras.
Proof.
  destruct c as [s3|gcs|az|sw|loc]; try (by exists []).
  unfold restoreBackendEnv; simpl.
  eexists; split; [|reflexivity].
  eexists _, _; split; [reflexivity|]. split.
  - destruct (nonempty (s3_Endpoint s3)) eqn:Hne;
      [apply nonempty_true in Hne | apply nonempty_false in Hne];
    (destruct (HasSuffix (s3_Endpoint s3) ".amazonaws.com") eqn:Hsuf;
      [apply HasSuffix_endsWith in Hsuf | apply HasSuffix_false in Hsuf]); simpl;
    constructor; unfold publicEndpoint; tauto.
  - destruct (nonempty (s3_Region s3)) eqn:Hne;
      [apply nonempty_true in Hne | apply nonempty_false in Hne]; simpl;
    constructor; tauto.
Qed.

Lemma s3Options_names (c : BackendChoice) (extras : list EnvVar) :
  s3Options c extras →
  ∀ e, e ∈ extras →
       env_Name e = "RESTORE_S3_ENDPOINT" ∨ env_Name e = "RESTORE_S3_REGION".
Proof.
  intros Hextras.
  destruct c; simpl in Hextras; try (subst extras; by intros ? ?%elem_of_nil).
  destruct Hextras as (ep & rg & -> & Hep & Hrg). intros e.
  rewrite elem_of_app. destruct Hep, Hrg;
    rewrite ?elem_of_cons, ?elem_of_nil; intros [?|?]; destruct_or?; subst; auto; done.
Qed.

(** C6, amended: for a restore source with a single backend set, a recovery
    target that is inclusive, has the target time [2024-01-01T00:00:00Z] and
    neither timeline nor transaction id, [walRecoveryConfig] returns
    [RESTORE=true], the prefix variable of the backend, for S3 the endpoint
    override and the region where they are called for, then [PITR=true],
    [TARGET_INCLUSIVE=true] and [TARGET_TIME]; these are exactly the five
    variables of the claim for GCS, Azure, Swift and Local, and for S3 with a
    public endpoint and no region.  There is no [TARGET_TIMELINE] and no
    [TARGET_XID]. *)
Theorem pitr_env_emission (secret : string) (c : BackendChoice) :
  let target := {| TargetTime := "2024-01-01T00:00:00Z"; TargetTimeline := "";
                   TargetXID := ""; TargetInclusive := Some true |} in
  let wal := {| wal_Backend := singleBackend secret c; wal_PITR := Some target |} in
  let five := [envValue "RESTORE" "true"; restorePrefixVariable c;
               envValue "PITR" "true"; envValue "TARGET_INCLUSIVE" "true";
               envValue "TARGET_TIME" "2024-01-01T00:00:00Z"] in
  ∃ extras env,
    s3Options c extras
    ∧ walRecoveryConfig wal = Done env
    ∧ env = [envValue "RESTORE" "true"; restorePrefixVariable c] ++ extras
            ++ [envValue "PITR" "true"; envValue "TARGET_INCLUSIVE" "true";
                envValue "TARGET_TIME" "2024-01-01T00:00:00Z"]
    ∧ (match c with
       | UseS3 s3 => publicEndpoint s3 ∧ s3_Region s3 = ""
       | _ => True
       end → env = five)
    ∧ ("TARGET_TIMELINE" ∉ env_Name <$> env)
    ∧ ("TARGET_XID" ∉ env_Name <$> env).
Proof.
  intros target wal five.
  destruct (restoreBackendEnv_single secret c (Some target)) as (extras & Hextras & Hbackend).
  exists extras, ([envValue "RESTORE" "true"; restorePrefixVariable c] ++ extras
                  ++ [envValue "PITR" "true"; envValue "TARGET_INCLUSIVE" "true";
                      envValue "TARGET_TIME" "2024-01-01T00:00:00Z"]).
  split_and!; [done | | done | |..].
  - apply walRecoveryConfig_Done. eexists. split.
    + by apply (pitrEnv_inclusive wal target true).
    + fold wal in Hbackend. by rewrite Hbackend.
  - destruct c as [s3|gcs|az|sw|loc]; simpl in Hextras; try (by subst extras).
    destruct Hextras as (ep & rg & -> & Hep & Hrg). intros [Hpub Hregion].
    destruct Hep; [done|]. by destruct Hrg.
  - rewrite !fmap_app, !elem_of_app, !list_elem_of_fmap.
    intros [(e & He & Hin)|[(e & He & Hin)|(e & He & Hin)]].
    + revert Hin. rewrite !elem_of_cons, elem_of_nil. intros [->|[->|[]]]; [done|].
      by destruct c.
    + destruct (s3Options_names _ _ Hextras e Hin) as [Hn|Hn]; by rewrite Hn in He.
    + revert Hin. rewrite !elem_of_cons, elem_of_nil. by intros [->|[->|[->|[]]]].
  - rewrite !fmap_app, !elem_of_app, !list_elem_of_fmap.
    intros [(e & He & Hin)|[(e & He & Hin)|(e & He & Hin)]].
    + revert Hin. rewrite !elem_of_cons, elem_of_nil. intros [->|[->|[]]]; [done|].
      by destruct c.
    + destruct (s3Options_names _ _ Hextras e Hin) as [Hn|Hn]; by rewrite Hn in He.
    + revert Hin. rewrite !elem_of_cons, elem_of_nil. by intros [->|[->|[->|[]]]].
Qed.

(** C9: when the restore source has a recovery target, [walRecoveryConfig]
    dereferences its inclusive flag: with a nil flag it panics on the nil
    pointer and returns no environment, with a flag [b] it returns an
    environment with [TARGET_INCLUSIVE] set to [b]; it returns exactly when
    the flag is not nil. *)
Theorem walRecoveryConfig_dereferences_TargetInclusive
    (wal : PostgresWALSourceSpec) (pitr : RecoveryTarget) :
  wal_PITR wal = Some pitr →
  (TargetInclusive pitr = None ↔ walRecoveryConfig wal = Panic NilDereference)
  ∧ (is_Some (TargetInclusive pitr) ↔ ∃ env, walRecoveryConfig wal = Done env)
  ∧ (∀ b, TargetInclusive pitr = Some b →
       ∃ env, walRecoveryConfig wal = Done env
              ∧ envValue "TARGET_INCLUSIVE" (fmt_t b) ∈ env).
Proof.
  intros Hp.
  assert (Hsome : ∀ b, TargetInclusive pitr = Some b →
            ∃ env, walRecoveryConfig wal = Done env
                   ∧ envValue "TARGET_INCLUSIVE" (fmt_t b) ∈ env).
  { intros b Hb. eexists. split.
    - apply walRecoveryConfig_Done. eexists. split; [|reflexivity].
      by apply pitrEnv_inclusive.
    - rewrite !elem_of_app. right; right; left.
      rewrite !elem_of_cons. by right; left. }
  assert (Hnone : TargetInclusive pitr = None → walRecoveryConfig wal = Panic NilDereference).
  { intros Hb. unfold walRecoveryConfig, pitrEnv. by rewrite Hp, Hb. }
  split_and!; [split; [done|] | split | done].
  - destruct (TargetInclusive pitr) as [b|] eqn:Hb; [|done].
    destruct (Hsome b eq_refl) as (env & -> & _). done.
  - intros [b Hb]. destruct (Hsome b Hb) as (env & Henv & _). by exists env.
  - intros [env Henv]. destruct (TargetInclusive pitr) as [b|] eqn:Hb; [by eexists|].
    by rewrite (Hnone eq_refl) in Henv.
Qed.

End EnvironmentProperties.

(** ** Services *)

Section ServiceProperties.
Context {imports : Imports}.

(** The last statements of [ensureService] compute the combination of the
    specification. *)
Lemma combineVerbs_combinedOutcome (vt1 vt2 : VerbType) :
  combineVerbs vt1 vt2 = combinedOutcome vt1 vt2.
Proof. by destruct vt1, vt2. Qed.

(** [ensureService] when the primary service is reconciled without error and
    the database has at most one replica. *)
Lemma ensureService_single (db : Postgres) (w w1 : World) (vt1 : VerbType) :
  ensurePrimaryService db w = Done ((vt1, None), w1) →
  replicasOf db ≤ 1 →
  ensureService db w
  = Done ((combinedOutcome vt1 VerbUnchanged, None), recorded " Service" vt1 w1).
Proof.
  intros Hprimary Hreplicas. unfold ensureService.
  unfold mbind at 1, Ctl_bind. rewrite Hprimary.
  rewrite bool_decide_eq_false_2 by lia.
  rewrite combineVerbs_combinedOutcome. by destruct vt1.
Qed.

(** [ensureService] when both services are reconciled without error. *)
Lemma ensureService_both (db : Postgres) (w w1 w2 : World) (vt1 vt2 : VerbType) :
  ensurePrimaryService db w = Done ((vt1, None), w1) →
  1 < replicasOf db →
  ensureStandbyService db (recorded " Service" vt1 w1) = Done ((vt2, None), w2) →
  ensureService db w
  = Done ((combinedOutcome vt1 vt2, None), recorded " Service" vt2 w2).
Proof.
  intros Hprimary Hreplicas Hstandby. unfold ensureService.
  unfold mbind at 1, Ctl_bind. rewrite Hprimary.
  rewrite bool_decide_eq_true_2 by lia.
  assert (Hev : ((if bool_decide (vt1 ≠ VerbUnchanged)
                  then Eventf ("Successfully " +:+ verbString vt1 +:+ " Service")
                  else mret ()) w1) = Done (tt, recorded " Service" vt1 w1)).
  { by destruct vt1. }
  unfold mbind at 1, Ctl_bind. rewrite Hev.
  unfold mbind at 1, Ctl_bind. rewrite Hstandby.
  rewrite combineVerbs_combinedOutcome. by destruct vt2.
Qed.

(** C2: when the primary service is reconciled with the verb [vt1] and the
    standby service with the verb [vt2], [ensureService] returns their
    combination without error: Created if both are Created, Patched if one of
    them is Patched, Unchanged otherwise. *)
Theorem ensureService_combines_outcomes (db : Postgres) (w w1 w2 : World)
    (vt1 vt2 : VerbType) :
  ensurePrimaryService db w = Done ((vt1, None), w1) →
  1 < replicasOf db →
  ensureStandbyService db (recorded " Service" vt1 w1) = Done ((vt2, None), w2) →
  ensureService db w = Done ((combinedOutcome vt1 vt2, None), recorded " Service" vt2 w2)
  ∧ combineVerbs vt1 vt2 = combinedOutcome vt1 vt2
  ∧ (vt1 = VerbCreated ∧ vt2 = VerbCreated → combinedOutcome vt1 vt2 = VerbCreated)
  ∧ (vt1 = VerbPatched ∨ vt2 = VerbPatched → combinedOutcome vt1 vt2 = VerbPatched)
  ∧ (¬ (vt1 = VerbCreated ∧ vt2 = VerbCreated) → ¬ (vt1 = VerbPatched ∨ vt2 = VerbPatched) →
     combinedOutcome vt1 vt2 = VerbUnchanged).
Proof.
  intros Hprimary Hreplicas Hstandby. split_and!.
  - by apply ensureService_both with w1.
  - apply combineVerbs_combinedOutcome.
  - by intros [-> ->].
  - intros [-> | ->]; [done | by destruct vt1].
  - intros Hcreated Hpatched. destruct vt1, vt2; try done; exfalso;
      first [ by apply Hcreated | apply Hpatched; by left | apply Hpatched; by right ].
Qed.

(** C3, amended: with at most one replica (the count is 1, or nil and read
    as 1) [ensureService] makes no request for the standby service - the
    world it leaves is the one the primary service left, with its event -
    and its verb is that of the primary service combined with Unchanged:
    Patched for a patched primary service, Unchanged otherwise, also for a
    created one.  With more replicas, 3 say, both services are reconciled,
    and the verb is Created when both are created. *)
Theorem ensureService_standby_gating (db : Postgres) (w w1 : World) (vt1 : VerbType) :
  ensurePrimaryService db w = Done ((vt1, None), w1) →
  (replicasOf db ≤ 1 →
     ensureService db w
     = Done ((if decide (vt1 = VerbPatched) then VerbPatched else VerbUnchanged, None),
             recorded " Service" vt1 w1))
  ∧ (Replicas (Spec db) = None ∨ Replicas (Spec db) = Some 1 → replicasOf db ≤ 1)
  ∧ (∀ w2, Replicas (Spec db) = Some 3 → vt1 = VerbCreated →
       ensureStandbyService db (recorded " Service" vt1 w1) = Done ((VerbCreated, None), w2) →
       ensureService db w = Done ((VerbCreated, None), recorded " Service" VerbCreated w2)).
Proof.
  intros Hprimary. split_and!.
  - intros Hreplicas. rewrite (ensureService_single _ _ _ _ Hprimary Hreplicas).
    by destruct vt1.
  - unfold replicasOf. by intros [-> | ->].
  - intros w2 Hreplicas -> Hstandby.
    apply (ensureService_both _ _ _ w2 _ VerbCreated Hprimary); [|done].
    unfold replicasOf. by rewrite Hreplicas.
Qed.

(** C8: without a monitor, and with a monitor whose vendor is not
    Prometheus, [ensureStatsService] returns Unchanged and no error, and
    leaves the world as it was: no request, no event. *)
Theorem ensureStatsService_soft_skip (db : Postgres) (w : World) :
  (Monitor (Spec db) = None
   ∨ ∃ monitor, Monitor (Spec db) = Some monitor
                ∧ Vendor (mon_Agent monitor) ≠ VendorPrometheus) →
  ensureStatsService db w = Done ((VerbUnchanged, None), w).
Proof.
  unfold ensureStatsService. intros [-> | (monitor & -> & Hvendor)]; [done|].
  by rewrite decide_False.
Qed.

End ServiceProperties.

(** ** The StatefulSet *)

Section WorkloadProperties.
Context {imports : Imports}.

(** The check of the name on a StatefulSet that exists. *)
Lemma checkStatefulSet_found (db : Postgres) (w : World) (existing : StatefulSet) :
  w_Fails w (CallGet KStatefulSet (Namespace db) (OffshootName db)) = None →
  w_StatefulSets w !! (Namespace db, OffshootName db) = Some existing →
  checkStatefulSet db w
  = Done (if bool_decide (label (om_Labels (sts_ObjectMeta existing)) LabelDatabaseKind
                          ≠ ResourceKindPostgres)
             || bool_decide (label (om_Labels (sts_ObjectMeta existing)) LabelDatabaseName
                             ≠ OffshootName db)
          then Some (Errorf ("intended statefulSet "
                             +:+ quoted (Namespace db +:+ "/" +:+ OffshootName db)
                             +:+ " already exists"))
          else None,
          requested (CallGet KStatefulSet (Namespace db) (OffshootName db)) w).
Proof.
  intros Hfails Hfound.
  unfold checkStatefulSet, GetStatefulSet, Get, request.
  unfold mbind, Ctl_bind, getWorld, mret, Ctl_ret. simpl.
  rewrite Hfails. simpl. rewrite Hfound. simpl.
  by destruct (_ || _).
Qed.

(** The check of the name when there is no StatefulSet of that name, and
    when the control plane answers NotFound. *)
Lemma checkStatefulSet_not_found (db : Postgres) (w : World) :
  (w_Fails w (CallGet KStatefulSet (Namespace db) (OffshootName db)) = None
   ∧ w_StatefulSets w !! (Namespace db, OffshootName db) = None)
  ∨ (∃ err, w_Fails w (CallGet KStatefulSet (Namespace db) (OffshootName db)) = Some err
            ∧ IsNotFound err = true) →
  checkStatefulSet db w
  = Done (None, requested (CallGet KStatefulSet (Namespace db) (OffshootName db)) w).
Proof.
  intros [[Hfails Hnone] | (err & Hfails & Hnf)];
    unfold checkStatefulSet, GetStatefulSet, Get, request;
    unfold mbind, Ctl_bind, getWorld, mret, Ctl_ret; simpl;
    rewrite Hfails; simpl.
  - by rewrite Hnone.
  - by rewrite Hnf.
Qed.

(** C7: when a StatefulSet of the name exists and its labels do not carry
    both the kind of the database and its name, [ensureStatefulSet] returns
    Unchanged and the error of the collision, and all it did is the request
    that read the object: no mutator ran, nothing was written, no event was
    recorded.  When there is no such StatefulSet (NotFound), the check
    returns no error and [ensureStatefulSet] goes on with the
    reconciliation. *)
Theorem ensureStatefulSet_naming_collision (c : Controller) (db : Postgres)
    (postgresVersion : PostgresVersion) (envList : list EnvVar) (w : World) :
  let read := CallGet KStatefulSet (Namespace db) (OffshootName db) in
  (∀ existing,
     w_Fails w read = None →
     w_StatefulSets w !! (Namespace db, OffshootName db) = Some existing →
     label (om_Labels (sts_ObjectMeta existing)) LabelDatabaseKind ≠ ResourceKindPostgres
     ∨ label (om_Labels (sts_ObjectMeta existing)) LabelDatabaseName ≠ OffshootName db →
     ensureStatefulSet c db postgresVersion envList w
     = Done ((VerbUnchanged,
              Some (Errorf ("intended statefulSet "
                            +:+ quoted (Namespace db +:+ "/" +:+ OffshootName db)
                            +:+ " already exists")),
              db),
             requested read w))
  ∧ ((w_Fails w read = None ∧ w_StatefulSets w !! (Namespace db, OffshootName db) = None)
     ∨ (∃ err, w_Fails w read = Some err ∧ IsNotFound err = true) →
     checkStatefulSet db w = Done (None, requested read w)
     ∧ ensureStatefulSet c db postgresVersion envList w
       = reconcileStatefulSet c db postgresVersion envList (requested read w)).
Proof.
  intros read. split.
  - intros existing Hfails Hfound Hlabels. unfold ensureStatefulSet.
    unfold mbind at 1, Ctl_bind. rewrite (checkStatefulSet_found _ _ _ Hfails Hfound).
    assert (Hcollision :
      bool_decide (label (om_Labels (sts_ObjectMeta existing)) LabelDatabaseKind
                   ≠ ResourceKindPostgres)
      || bool_decide (label (om_Labels (sts_ObjectMeta existing)) LabelDatabaseName
                      ≠ OffshootName db) = true).
    { apply orb_true_iff. rewrite !bool_decide_eq_true. done. }
    by rewrite Hcollision.
  - intros Hnf. pose proof (checkStatefulSet_not_found db w Hnf) as Hcheck.
    split; [done|]. unfold ensureStatefulSet.
    unfold mbind at 1, Ctl_bind. by rewrite Hcheck.
Qed.

(** *** The data volume *)

Lemma findContainer_names (name : string) (l l' : list Container) (i : nat) (c : Container) :
  c_Name <$> l' = c_Name <$> l →
  findContainer name l = Some (i, c) →
  ∃ c', findContainer name l' = Some (i, c').
Proof.
  unfold findContainer. intros Hnames Hfind.
  assert (Hl : list_find (λ n, n = name) (c_Name <$> l) = Some (i, c_Name c)).
  { rewrite list_find_fmap.
    erewrite (list_find_ext _ (λ c, c_Name c = name)) by done.
    by rewrite Hfind. }
  rewrite <- Hnames, list_find_fmap in Hl.
  erewrite (list_find_ext _ (λ c, c_Name c = name)) in Hl by done.
  destruct (list_find _ l') as [[j c']|]; [|done].
  injection Hl as -> _. by exists c'.
Qed.

(** Appending a local volume keeps the names of the containers and leaves
    the claim templates alone; it panics only without containers. *)
Lemma appendLocalVolume_Done (name : string) (loc : LocalSpec) (statefulSet : StatefulSet) :
  ps_Containers (podSpec statefulSet) ≠ [] →
  ∃ statefulSet',
    appendLocalVolume name loc statefulSet = Done statefulSet'
    ∧ c_Name <$> ps_Containers (podSpec statefulSet')
      = c_Name <$> ps_Containers (podSpec statefulSet)
    ∧ ss_VolumeClaimTemplates (sts_Spec statefulSet')
      = ss_VolumeClaimTemplates (sts_Spec statefulSet).
Proof.
  intros Hcontainers. unfold appendLocalVolume.
  destruct (ps_Containers (podSpec statefulSet)) as [|first rest] eqn:Hcs; [done|].
  simpl. eexists. split; [reflexivity|]. split; [|done].
  unfold podSpec in *. simpl. by rewrite Hcs.
Qed.

Lemma appendLocalVolumes_Done (statefulSet : StatefulSet) (db : Postgres) :
  ps_Containers (podSpec statefulSet) ≠ [] →
  ∃ statefulSet',
    appendLocalVolumes statefulSet db = Done statefulSet'
    ∧ c_Name <$> ps_Containers (podSpec statefulSet')
      = c_Name <$> ps_Containers (podSpec statefulSet)
    ∧ ss_VolumeClaimTemplates (sts_Spec statefulSet')
      = ss_VolumeClaimTemplates (sts_Spec statefulSet).
Proof.
  intros Hcontainers. unfold appendLocalVolumes.
  destruct (_ || _); [|by exists statefulSet].
  assert (Hfirst : ∃ s1,
            match archiverLocal db with
            | Some pgLocalVol => appendLocalVolume "local-archive" pgLocalVol statefulSet
            | None => mret statefulSet
            end = Done s1
            ∧ c_Name <$> ps_Containers (podSpec s1)
              = c_Name <$> ps_Containers (podSpec statefulSet)
            ∧ ss_VolumeClaimTemplates (sts_Spec s1)
              = ss_VolumeClaimTemplates (sts_Spec statefulSet)).
  { destruct (archiverLocal db) as [loc|]; [|by exists statefulSet].
    by apply appendLocalVolume_Done. }
  destruct Hfirst as (s1 & -> & Hnames1 & Hclaims1). simpl.
  destruct (initLocal db) as [loc|]; [|by exists s1].
  destruct (appendLocalVolume_Done "local-init" loc s1) as (s2 & -> & Hnames2 & Hclaims2).
  { intros Hnil. apply Hcontainers.
    apply (f_equal length) in Hnames1. rewrite !length_fmap, Hnil in Hnames1.
    by destruct (ps_Containers (podSpec statefulSet)). }
  exists s2. split; [done|]. by rewrite Hnames2, Hclaims2.
Qed.

Lemma UpsertByName_elem {A} (keyOf : A → string) (l : list A) (x : A) :
  x ∈ UpsertByName keyOf l x.
Proof.
  induction l as [|y l IH]; simpl.
  - apply list_elem_of_singleton. done.
  - destruct (decide (keyOf y = keyOf x)); [left | by right].
Qed.

Lemma set_Storage_same (db : Postgres) (pvc : PersistentVolumeClaimSpec) :
  Storage (Spec db) = Some pvc →
  set_Spec (set_Storage (Some pvc) (Spec db)) db = db.
Proof. destruct db as [? ? ? [] ?]; simpl. by intros ->. Qed.

(** C10: in a StatefulSet that has the container of the database,
    [upsertDataVolume] with a storage type other than ephemeral writes
    [ReadWriteOnce] as the only access mode into the storage of the database
    object when its list of access modes is empty, and leaves the object as
    it is otherwise; the claim template named [data] that it then upserts
    carries the storage as it is after that.  With the ephemeral storage type
    the claim templates stay as they were. *)
Theorem upsertDataVolume_access_modes (statefulSet : StatefulSet) (db : Postgres)
    (i : nat) (container : Container) :
  findContainer ResourceSingularPostgres (ps_Containers (podSpec statefulSet))
  = Some (i, container) →
  (∀ pvc,
     StorageType (Spec db) ≠ StorageTypeEphemeral →
     Storage (Spec db) = Some pvc →
     ∃ statefulSet' db' pvc' claim,
       upsertDataVolume statefulSet db = Done (statefulSet', db')
       ∧ Storage (Spec db') = Some pvc'
       ∧ claim ∈ ss_VolumeClaimTemplates (sts_Spec statefulSet')
       ∧ pvc_Name claim = "data"
       ∧ pvc_Spec claim = pvc'
       ∧ (pvcs_AccessModes pvc = [] →
            pvcs_AccessModes pvc' = ["ReadWriteOnce"]
            ∧ pvc' = set_pvcs_AccessModes ["ReadWriteOnce"] pvc)
       ∧ (pvcs_AccessModes pvc ≠ [] → pvc' = pvc ∧ db' = db))
  ∧ (StorageType (Spec db) = StorageTypeEphemeral →
     ∃ statefulSet',
       upsertDataVolume statefulSet db = Done (statefulSet', db)
       ∧ ss_VolumeClaimTemplates (sts_Spec statefulSet')
         = ss_VolumeClaimTemplates (sts_Spec statefulSet)).
Proof.
  intros Hfind.
  assert (Hcontainers : ps_Containers (podSpec statefulSet) ≠ []).
  { intros Hnil. by rewrite Hnil in Hfind. }
  destruct (appendLocalVolumes_Done statefulSet db Hcontainers)
    as (s1 & Hlocal & Hnames & Hclaims).
  destruct (findContainer_names _ _ _ _ _ Hnames Hfind) as (c1 & Hfind1).
  split.
  - intros pvc Hdurable Hstorage.
    unfold upsertDataVolume. rewrite Hlocal. simpl. rewrite Hfind1.
    rewrite decide_False by done. rewrite Hstorage. simpl.
    destruct (decide (length (pvcs_AccessModes pvc) = 0%nat)) as [Hempty|Hsome].
    + eexists _, _, (set_pvcs_AccessModes [core_ReadWriteOnce] pvc), _.
      split_and!; [reflexivity | done | apply UpsertByName_elem | done | done | done |].
      intros Hne. by destruct (pvcs_AccessModes pvc).
    + eexists _, _, pvc, _.
      split_and!; [reflexivity | done | apply UpsertByName_elem | done | done | |].
      * intros Hnil. by rewrite Hnil in Hsome.
      * intros _. split; [done|]. by apply set_Storage_same.
  - intros Hephemeral.
    unfold upsertDataVolume. rewrite Hlocal. simpl. rewrite Hfind1.
    rewrite decide_True by done. eexists. split; [reflexivity|]. done.
Qed.

End WorkloadProperties.

(** ** The mutator is a sequence of upserts *)

Section MutatorProperties.
Context {imports : Imports}.

Local Arguments UpsertByName : simpl never.
Local Arguments UpsertAll : simpl never.

(** The containers after the upsert of the container [pg] of the database
    and of the containers [others]. *)
Local Abbreviation upserted cs pg others :=
  (UpsertAll c_Name (UpsertByName c_Name cs pg) others).

Lemma findContainer_upserted (cs : list Container) (pg : Container) (others : list Container) :
  c_Name pg = ResourceSingularPostgres →
  Forall (λ e, c_Name e ≠ ResourceSingularPostgres) others →
  findContainer ResourceSingularPostgres (upserted cs pg others)
  = Some (placeOf ResourceSingularPostgres cs, pg).
Proof.
  intros Hpg. unfold findContainer, placeOf. rewrite <- Hpg.
  induction others as [|e others IH] using rev_ind; intros Hothers.
  - apply list_find_UpsertByName.
  - apply Forall_app in Hothers as [Hothers He%Forall_inv].
    rewrite UpsertAll_snoc. rewrite list_find_UpsertByName_ne.
    + by apply IH.
    + done.
    + rewrite IH by done. by eexists.
Qed.

Lemma alter_upserted (cs : list Container) (pg : Container) (others : list Container)
    (f : Container → Container) :
  c_Name pg = ResourceSingularPostgres →
  (∀ y, c_Name (f y) = c_Name y) →
  Forall (λ e, c_Name e ≠ ResourceSingularPostgres) others →
  alter f (placeOf ResourceSingularPostgres cs) (upserted cs pg others)
  = upserted cs (f pg) others.
Proof.
  intros Hpg Hf.
  induction others as [|e others IH] using rev_ind; intros Hothers.
  - unfold placeOf. rewrite <- Hpg. by apply alter_UpsertByName.
  - apply Forall_app in Hothers as [Hothers He%Forall_inv].
    rewrite !UpsertAll_snoc.
    pose proof (findContainer_upserted cs pg others Hpg Hothers) as Hfind.
    apply list_find_Some in Hfind as (Hlookup & _ & _).
    rewrite (alter_UpsertByName_ne c_Name _ _ f _ pg Hf Hlookup).
    + by rewrite IH.
    + by rewrite Hpg.
Qed.

Lemma set_c_Env_name env (y : Container) : c_Name (set_c_Env env y) = c_Name y.
Proof. done. Qed.

Lemma set_c_VolumeMounts_name mounts (y : Container) :
  c_Name (set_c_VolumeMounts mounts y) = c_Name y.
Proof. done. Qed.

Lemma actsAsUpsert_id others pg : actsAsUpsert id others pg pg [].
Proof. by intros cs vs b. Qed.

Lemma actsAsUpsert_compose f g others pg0 pg1 pg2 volumes1 volumes2 :
  actsAsUpsert f others pg0 pg1 volumes1 →
  actsAsUpsert g others pg1 pg2 volumes2 →
  actsAsUpsert (g ∘ f) others pg0 pg2 (volumes1 ++ volumes2).
Proof.
  intros Hf Hg cs vs b. simpl. by rewrite Hf, Hg, UpsertAll_app.
Qed.

Lemma upsertEnv_actsAsUpsert db envs others pg :
  c_Name pg = ResourceSingularPostgres →
  Forall (λ e, c_Name e ≠ ResourceSingularPostgres) others →
  ∃ pg', c_Name pg' = ResourceSingularPostgres
         ∧ c_VolumeMounts pg' = c_VolumeMounts pg
         ∧ actsAsUpsert (λ o, upsertEnv o db envs) others pg pg' [].
Proof.
  intros Hpg Hothers. eexists. split_and!; [| |intros cs vs b].
  3:{ unfold upsertEnv.
      change (ps_Containers (podSpec (withContainersAndVolumes ?x vs b))) with x.
      rewrite (findContainer_upserted cs pg others Hpg Hothers).
      etrans.
      { instantiate (1 := withContainersAndVolumes
                            (alter (set_c_Env _) (placeOf ResourceSingularPostgres cs)
                                   (upserted cs pg others)) vs b).
        reflexivity. }
      rewrite (alter_upserted cs pg others _ Hpg (set_c_Env_name _) Hothers).
      reflexivity. }
  - done.
  - done.
Qed.

Lemma upsertUserEnv_actsAsUpsert db others pg :
  c_Name pg = ResourceSingularPostgres →
  Forall (λ e, c_Name e ≠ ResourceSingularPostgres) others →
  ∃ pg', c_Name pg' = ResourceSingularPostgres
         ∧ c_VolumeMounts pg' = c_VolumeMounts pg
         ∧ actsAsUpsert (λ o, upsertUserEnv o db) others pg pg' [].
Proof.
  intros Hpg Hothers. eexists. split_and!; [| |intros cs vs b].
  3:{ unfold upsertUserEnv.
      change (ps_Containers (podSpec (withContainersAndVolumes ?x vs b))) with x.
      rewrite (findContainer_upserted cs pg others Hpg Hothers).
      etrans.
      { instantiate (1 := withContainersAndVolumes
                            (alter (set_c_Env _) (placeOf ResourceSingularPostgres cs)
                                   (upserted cs pg others)) vs b).
        reflexivity. }
      rewrite (alter_upserted cs pg others _ Hpg (set_c_Env_name _) Hothers).
      reflexivity. }
  - done.
  - done.
Qed.

Lemma upsertMountAndVolume_actsAsUpsert volumeMount volume others pg :
  c_Name pg = ResourceSingularPostgres →
  Forall (λ e, c_Name e ≠ ResourceSingularPostgres) others →
  actsAsUpsert (upsertMountAndVolume volumeMount volume) others pg
    (set_c_VolumeMounts (UpsertVolumeMount (c_VolumeMounts pg) volumeMount) pg) [volume].
Proof.
  intros Hpg Hothers cs vs b. unfold upsertMountAndVolume.
  change (ps_Containers (podSpec (withContainersAndVolumes ?x vs b))) with x.
  rewrite (findContainer_upserted cs pg others Hpg Hothers).
  etrans.
  { instantiate (1 := withContainersAndVolumes
                        (alter (set_c_VolumeMounts _) (placeOf ResourceSingularPostgres cs)
                               (upserted cs pg others)) (UpsertVolume vs volume) b).
    reflexivity. }
  rewrite (alter_upserted cs pg others _ Hpg (set_c_VolumeMounts_name _) Hothers).
  reflexivity.
Qed.

Lemma upsertMountsAndVolumes_actsAsUpsert pairs others pg :
  c_Name pg = ResourceSingularPostgres →
  Forall (λ e, c_Name e ≠ ResourceSingularPostgres) others →
  ∃ pg', c_Name pg' = ResourceSingularPostgres
         ∧ actsAsUpsert (upsertMountsAndVolumes pairs) others pg pg' (pairs.*2).
Proof.
  intros Hpg Hothers. revert pg Hpg.
  induction pairs as [|[volumeMount volume] pairs IH]; intros pg Hpg.
  - exists pg. split; [done|]. apply actsAsUpsert_id.
  - destruct (IH (set_c_VolumeMounts (UpsertVolumeMount (c_VolumeMounts pg) volumeMount) pg))
      as (pg' & Hpg' & Hacts); [done|].
    exists pg'. split; [done|]. intros cs vs b.
    change (upsertMountsAndVolumes ((volumeMount, volume) :: pairs) ?o)
      with (upsertMountsAndVolumes pairs (upsertMountAndVolume volumeMount volume o)).
    rewrite (upsertMountAndVolume_actsAsUpsert _ _ _ _ Hpg Hothers), Hacts.
    reflexivity.
Qed.

(** The secrets, the script, the shared memory: pairs of a mount and a
    volume that depend on the database object only. *)
Lemma upsertSecrets_pairs (db : Postgres) :
  ∃ pairs, ∀ o,
    upsertShm (upsertInitSources db (upsertArchiverSecret db o))
    = upsertMountsAndVolumes pairs o.
Proof.
  assert (Harchive : ∃ pairs, ∀ o, upsertArchiverSecret db o = upsertMountsAndVolumes pairs o).
  { unfold upsertArchiverSecret.
    destruct (Archiver (Spec db)) as [archiver|]; [|by exists []].
    destruct (arch_Storage archiver) as [storage|]; [|by exists []].
    destruct (Local storage); [by exists []|]. by eexists [(_, _)]. }
  assert (Hinit : ∃ pairs, ∀ o, upsertInitSources db o = upsertMountsAndVolumes pairs o).
  { unfold upsertInitSources.
    destruct (negb _); [|by exists []].
    destruct (Init (Spec db)) as [[script wal]|]; [|by exists []].
    destruct wal as [wal|], script as [script|]; try destruct (Local (wal_Backend wal));
      first [ by exists [] | by eexists [(_, _)] | by eexists [(_, _); (_, _)] ]. }
  destruct Harchive as (pairs1 & Harchive), Hinit as (pairs2 & Hinit).
  eexists (pairs1 ++ pairs2 ++ [(_, _)]). intros o.
  rewrite Harchive, Hinit. unfold upsertMountsAndVolumes. rewrite !foldl_app. done.
Qed.

Lemma upsertCustomConfig_pairs (db : Postgres) :
  ∃ pairs, ∀ o db',
    ConfigSecret (Spec db') = ConfigSecret (Spec db) →
    upsertCustomConfig o db' = upsertMountsAndVolumes pairs o.
Proof.
  destruct (ConfigSecret (Spec db)) as [secret|] eqn:Hsecret.
  - eexists [(_, _)]. intros o db' Hdb'. unfold upsertCustomConfig. by rewrite Hdb'.
  - exists []. intros o db' Hdb'. unfold upsertCustomConfig. by rewrite Hdb'.
Qed.

(** The container of the exporter is upserted, or nothing is, or the
    mutator panics on a monitor without a Prometheus part. *)
Lemma upsertMonitoringContainer_upserts (c : Controller) (db : Postgres)
    (postgresVersion : PostgresVersion) :
  ResourceSingularPostgres ≠ "exporter" →
  (∀ o, upsertMonitoringContainer c o db postgresVersion = Panic NilDereference)
  ∨ ∃ others,
      Forall (λ e, c_Name e ≠ ResourceSingularPostgres) others
      ∧ ∀ cs pg vs b,
          upsertMonitoringContainer c (withContainersAndVolumes (upserted cs pg []) vs b)
            db postgresVersion
          = Done (withContainersAndVolumes (upserted cs pg others) vs b).
Proof.
  intros Hname. unfold upsertMonitoringContainer.
  destruct (Monitor (Spec db)) as [monitor|].
  - destruct (decide _).
    + destruct (mon_Prometheus monitor) as [exporter|]; [|by left].
      right. eexists [_]. split; [|intros cs pg vs b].
      2:{ simpl. reflexivity. }
      apply Forall_singleton. simpl. done.
    + right. exists []. split; [done|]. by intros.
  - right. exists []. split; [done|]. by intros.
Qed.

(** The data volume, for a database without local backends. *)
Lemma upsertDataVolume_upserts (db : Postgres) (others : list Container) (pg : Container) :
  archiverLocal db = None →
  initLocal db = None →
  c_Name pg = ResourceSingularPostgres →
  Forall (λ e, c_Name e ≠ ResourceSingularPostgres) others →
  (∀ cs vs b,
     upsertDataVolume (withContainersAndVolumes (upserted cs pg others) vs b) db
     = Panic NilDereference)
  ∨ ∃ pg' volumes claims db1,
      c_Name pg' = ResourceSingularPostgres
      ∧ ConfigSecret (Spec db1) = ConfigSecret (Spec db)
      ∧ PodTemplate (Spec db1) = PodTemplate (Spec db)
      ∧ ∀ cs vs b,
          upsertDataVolume (withContainersAndVolumes (upserted cs pg others) vs b) db
          = Done (withClaimsUpserted claims
                    (withContainersAndVolumes (upserted cs pg' others)
                       (UpsertAll vol_Name vs volumes) b),
                  db1).
Proof.
  intros Harchive Hinit Hpg Hothers.
  assert (Hlocal : ∀ o, appendLocalVolumes o db = Done o).
  { intros o. unfold appendLocalVolumes. rewrite Harchive, Hinit. by destruct (_ || _). }
  pose proof (upsertMountAndVolume_actsAsUpsert
                {| vm_Name := "data"; vm_MountPath := "/var/pv" |}
                {| vol_Name := ""; vol_VolumeSource := noVolumeSource |}
                others pg Hpg Hothers) as Hmount.
  unfold upsertDataVolume.
  destruct (decide (StorageType (Spec db) = StorageTypeEphemeral)) as [Hephemeral|Hdurable].
  - right. eexists _, [_], [], db. split_and!; [| done | done | intros cs vs b].
    2:{ rewrite Hlocal. simpl.
        change (ps_Containers (podSpec (withContainersAndVolumes ?x vs b))) with x.
        rewrite (findContainer_upserted cs pg others Hpg Hothers).
        etrans.
        { instantiate (1 := Done (withContainersAndVolumes
                        (alter (set_c_VolumeMounts _) (placeOf ResourceSingularPostgres cs)
                               (upserted cs pg others)) (UpsertVolume vs _) b, db)).
          reflexivity. }
        rewrite (alter_upserted cs pg others _ Hpg (set_c_VolumeMounts_name _) Hothers).
        reflexivity. }
    done.
  - destruct (Storage (Spec db)) as [pvc|] eqn:Hstorage.
    + right. eexists _, [], [_], _. split_and!; [| | | intros cs vs b].
      4:{ rewrite Hlocal. simpl.
          change (ps_Containers (podSpec (withContainersAndVolumes ?x vs b))) with x.
          rewrite (findContainer_upserted cs pg others Hpg Hothers).
          simpl.
          etrans.
          { instantiate (1 := Done (withClaimsUpserted [_] (withContainersAndVolumes
                          (alter (set_c_VolumeMounts _) (placeOf ResourceSingularPostgres cs)
                                 (upserted cs pg others)) vs b), _)).
            reflexivity. }
          rewrite (alter_upserted cs pg others _ Hpg (set_c_VolumeMounts_name _) Hothers).
          reflexivity. }
      * done.
      * done.
      * done.
    + left. intros cs vs b. rewrite Hlocal. simpl.
      change (ps_Containers (podSpec (withContainersAndVolumes ?x vs b))) with x.
      rewrite (findContainer_upserted cs pg others Hpg Hothers).
      done.
Qed.

Lemma setScheduling_frame db cs vs b :
  setScheduling db (withContainersAndVolumes cs vs b)
  = withContainersAndVolumes cs vs (setScheduling db b).
Proof. unfold setScheduling. by destruct (nonempty _). Qed.

Lemma setAccountAndStrategy_frame db db' cs vs b :
  PodTemplate (Spec db') = PodTemplate (Spec db) →
  setAccountAndStrategy db' (withContainersAndVolumes cs vs b)
  = withContainersAndVolumes cs vs (setAccountAndStrategy db b).
Proof. intros Hdb'. unfold setAccountAndStrategy. by rewrite Hdb'. Qed.

Lemma withClaimsUpserted_frame claims cs vs b :
  withClaimsUpserted claims (withContainersAndVolumes cs vs b)
  = withContainersAndVolumes cs vs (withClaimsUpserted claims b).
Proof. done. Qed.

Lemma postgresContainer_name c db postgresVersion :
  c_Name (postgresContainer c db postgresVersion) = ResourceSingularPostgres.
Proof. done. Qed.

(** Without local backends the mutator either panics, whatever the
    StatefulSet, or it is the derived form: containers, volumes and claim
    templates that depend on the database object alone are upserted, the
    other fields are assigned. *)
Lemma statefulSetMutator_derived (c : Controller) (postgresVersion : PostgresVersion)
    (envList : list EnvVar) (db : Postgres) :
  archiverLocal db = None →
  initLocal db = None →
  ResourceSingularPostgres ≠ "exporter" →
  (∀ o, statefulSetMutator c postgresVersion envList o db = Panic NilDereference)
  ∨ ∃ containers volumes claims db1,
      ∀ o, statefulSetMutator c postgresVersion envList o db
           = Done (derivedStatefulSet c postgresVersion db containers volumes claims o, db1).
Proof.
  intros Harchive Hinit Hname.
  pose proof (postgresContainer_name c db postgresVersion) as Hpg0.
  destruct (upsertEnv_actsAsUpsert db envList [] _ Hpg0 (Forall_nil_2 _))
    as (pg1 & Hpg1 & _ & Hact1).
  destruct (upsertUserEnv_actsAsUpsert db [] _ Hpg1 (Forall_nil_2 _))
    as (pg2 & Hpg2 & _ & Hact2).
  assert (Hstart : ∀ o,
    upsertUserEnv (upsertEnv (setIdentity c postgresVersion db o) db envList) db
    = withContainersAndVolumes (upserted (ps_Containers (podSpec o)) pg2 [])
        (ps_Volumes (podSpec o)) (setIdentity c postgresVersion db o)).
  { intros o.
    change (setIdentity c postgresVersion db o)
      with (withContainersAndVolumes
              (upserted (ps_Containers (podSpec o)) (postgresContainer c db postgresVersion) [])
              (ps_Volumes (podSpec o)) (setIdentity c postgresVersion db o)) at 1.
    pose proof (Hact1 (ps_Containers (podSpec o)) (ps_Volumes (podSpec o))
                  (setIdentity c postgresVersion db o)) as H1.
    cbv beta in H1. change (UpsertAll vol_Name ?v []) with v in H1. rewrite H1.
    pose proof (Hact2 (ps_Containers (podSpec o)) (ps_Volumes (podSpec o))
                  (setIdentity c postgresVersion db o)) as H2.
    cbv beta in H2. change (UpsertAll vol_Name ?v []) with v in H2. rewrite H2.
    reflexivity. }
  destruct (upsertMonitoringContainer_upserts c db postgresVersion Hname)
    as [Hpanic | (others & Hothers & Hmonitor)].
  { left. intros o. unfold statefulSetMutator. cbv zeta. by rewrite Hpanic. }
  destruct (upsertSecrets_pairs db) as (pairs & Hpairs).
  destruct (upsertMountsAndVolumes_actsAsUpsert pairs others pg2 Hpg2 Hothers)
    as (pg3 & Hpg3 & Hact3).
  destruct (upsertDataVolume_upserts db others pg3 Harchive Hinit Hpg3 Hothers)
    as [Hpanic | (pg4 & volumes & claims & db1 & Hpg4 & Hconfig & Htemplate & Hdata)].
  { left. intros o. unfold statefulSetMutator. cbv zeta.
    rewrite Hstart, setScheduling_frame, Hmonitor.
    change (Done ?x ≫= ?f) with (f x). cbv beta.
    rewrite Hpairs, Hact3, Hpanic. done. }
  destruct (upsertCustomConfig_pairs db) as (pairs' & Hcustom).
  destruct (upsertMountsAndVolumes_actsAsUpsert pairs' others pg4 Hpg4 Hothers)
    as (pg5 & Hpg5 & Hact5).
  right. exists (pg5 :: others), (pairs.*2 ++ volumes ++ pairs'.*2), claims, db1.
  intros o. unfold statefulSetMutator. cbv zeta.
  rewrite Hstart, setScheduling_frame, Hmonitor.
  change (Done ?x ≫= ?f) with (f x). cbv beta.
  rewrite Hpairs, Hact3, Hdata.
  change (Done (?x, ?y) ≫= ?f) with (f (x, y)). cbv beta iota.
  rewrite (Hcustom _ db1 Hconfig).
  rewrite withClaimsUpserted_frame, Hact5,
    (setAccountAndStrategy_frame db db1 _ _ _ Htemplate).
  unfold derivedStatefulSet. rewrite !UpsertAll_app. reflexivity.
Qed.

(** Assignments along the paths of a StatefulSet, computed innermost first. *)
Local Ltac compute_assignments :=
  cbv beta iota zeta delta [
    derivedStatefulSet withContainersAndVolumes withClaimsUpserted
    setAccountAndStrategy setScheduling setIdentity EnsureOwnerReference
    UpsertContainers UpsertContainer podSpec with_podSpec with_template with_spec
    with_meta set_c_Env set_c_VolumeMounts set_om_Annotations set_om_Labels
    set_om_OwnerReferences set_ps_Affinity set_ps_Containers set_ps_ImagePullSecrets
    set_ps_InitContainers set_ps_NodeSelector set_ps_Priority set_ps_PriorityClassName
    set_ps_SchedulerName set_ps_SecurityContext set_ps_ServiceAccountName
    set_ps_Tolerations set_ps_Volumes set_pt_Annotations set_pt_Labels set_pt_Spec
    set_pvcs_AccessModes set_ss_Replicas set_ss_Selector set_ss_ServiceName
    set_ss_Template set_ss_UpdateStrategy set_ss_VolumeClaimTemplates
    set_sts_ObjectMeta set_sts_Spec om_Name om_Namespace om_Labels om_Annotations
    om_OwnerReferences ps_InitContainers ps_Containers ps_Volumes ps_NodeSelector
    ps_Affinity ps_SchedulerName ps_Tolerations ps_ImagePullSecrets
    ps_PriorityClassName ps_Priority ps_SecurityContext ps_ServiceAccountName pt_Labels
    pt_Annotations pt_Spec ss_Replicas ss_ServiceName ss_Selector ss_Template
    ss_VolumeClaimTemplates ss_UpdateStrategy sts_ObjectMeta sts_Spec ].

Lemma derivedStatefulSet_idemp c postgresVersion db containers volumes claims o :
  derivedStatefulSet c postgresVersion db containers volumes claims
    (derivedStatefulSet c postgresVersion db containers volumes claims o)
  = derivedStatefulSet c postgresVersion db containers volumes claims o.
Proof.
  destruct o as [[name ns labels annotations refs]
                 [replicas serviceName selector
                  [tlabels tannotations
                   [init cs vs nodeSelector affinity scheduler tolerations pullSecrets
                    priorityClass priority securityContext serviceAccount]]
                  vct strategy]].
  destruct (nonempty (tpl_SchedulerName (PodTemplate (Spec db)))) eqn:Hscheduler;
    compute_assignments;
    rewrite ?Hscheduler; cbv beta iota;
    rewrite !UpsertAll_idemp, !UpsertByName_idemp; reflexivity.
Qed.

(** X19: without local backends the mutator is idempotent: run on its own
    result, with the same database object, it returns that result. *)
Theorem statefulSetMutator_idempotent_without_local (c : Controller)
    (postgresVersion : PostgresVersion) (envList : list EnvVar) (db db1 : Postgres)
    (o o1 : StatefulSet) :
  archiverLocal db = None →
  initLocal db = None →
  ResourceSingularPostgres ≠ "exporter" →
  statefulSetMutator c postgresVersion envList o db = Done (o1, db1) →
  statefulSetMutator c postgresVersion envList o1 db = Done (o1, db1).
Proof.
  intros Harchive Hinit Hname Hrun.
  destruct (statefulSetMutator_derived c postgresVersion envList db Harchive Hinit Hname)
    as [Hpanic | (containers & volumes & claims & db' & Hderived)].
  - by rewrite Hpanic in Hrun.
  - rewrite Hderived in Hrun. injection Hrun as <- <-.
    by rewrite Hderived, derivedStatefulSet_idemp.
Qed.

(** What the mutator returns carries the labels of the database. *)
Lemma statefulSetMutator_labels (c : Controller) (postgresVersion : PostgresVersion)
    (envList : list EnvVar) (db db1 : Postgres) (o o1 : StatefulSet) :
  archiverLocal db = None →
  initLocal db = None →
  ResourceSingularPostgres ≠ "exporter" →
  statefulSetMutator c postgresVersion envList o db = Done (o1, db1) →
  om_Labels (sts_ObjectMeta o1) = OffshootLabels db.
Proof.
  intros Harchive Hinit Hname Hrun.
  destruct (statefulSetMutator_derived c postgresVersion envList db Harchive Hinit Hname)
    as [Hpanic | (containers & volumes & claims & db' & Hderived)].
  - by rewrite Hpanic in Hrun.
  - rewrite Hderived in Hrun. injection Hrun as <- <-.
    unfold derivedStatefulSet, setAccountAndStrategy, setScheduling.
    by destruct (nonempty _).
Qed.

End MutatorProperties.

(** ** Create or patch *)

Section ReconcileProperties.
Context {imports : Imports}.

(** The object is absent and nothing is refused: it is created as the
    mutator makes it from the empty object. *)
Lemma CreateOrPatchStatefulSet_creates {S : Type} (ns name : string)
    (transform : StatefulSet → S → Go (StatefulSet * S)) (captured captured' : S)
    (created : StatefulSet) (w : World) :
  w_Fails w (CallGet KStatefulSet ns name) = None →
  w_Fails w (CallCreate KStatefulSet ns name) = None →
  w_StatefulSets w !! (ns, name) = None →
  transform (emptyStatefulSet ns name) captured = Done (created, captured') →
  CreateOrPatchStatefulSet ns name transform captured w
  = Done ((Some created, VerbCreated, None, captured'),
          set_w_StatefulSets (<[(ns, name) := created]> (w_StatefulSets w))
            (requested (CallCreate KStatefulSet ns name)
               (requested (CallGet KStatefulSet ns name) w))).
Proof.
  intros Hget Hcreate Habsent Hrun.
  unfold CreateOrPatchStatefulSet, CreateOrPatch, Get, request, liftGo, modifyWorld, getWorld.
  unfold mbind, Ctl_bind, mret, Ctl_ret.
  rewrite Hget. cbn [w_StatefulSets set_w_Calls]. rewrite Habsent.
  cbn [IsNotFound]. rewrite Hrun.
  cbn [w_Fails set_w_Calls]. rewrite Hcreate. reflexivity.
Qed.

(** The object is there and the mutator returns it as it is: nothing is
    written. *)
Lemma CreateOrPatchStatefulSet_unchanged {S : Type} (ns name : string)
    (transform : StatefulSet → S → Go (StatefulSet * S)) (captured captured' : S)
    (cur : StatefulSet) (w : World) :
  w_Fails w (CallGet KStatefulSet ns name) = None →
  w_StatefulSets w !! (ns, name) = Some cur →
  transform cur captured = Done (cur, captured') →
  CreateOrPatchStatefulSet ns name transform captured w
  = Done ((Some cur, VerbUnchanged, None, captured'),
          requested (CallGet KStatefulSet ns name) w).
Proof.
  intros Hget Hfound Hrun.
  unfold CreateOrPatchStatefulSet, CreateOrPatch, Get, request, liftGo, modifyWorld, getWorld.
  unfold mbind, Ctl_bind, mret, Ctl_ret.
  rewrite Hget. cbn [w_StatefulSets set_w_Calls]. rewrite Hfound.
  rewrite Hrun. by rewrite decide_True.
Qed.

(** X20: for a database without local backends, on a control plane that
    refuses nothing, the first [ensureStatefulSet] creates the StatefulSet as
    the mutator makes it from the empty object; the second one, with the same
    database object, returns Unchanged and leaves the object as it is. *)
Theorem ensureStatefulSet_reapplied_unchanged (c : Controller)
    (postgresVersion : PostgresVersion) (envList : list EnvVar) (db db1 : Postgres)
    (o1 : StatefulSet) (w : World) :
  archiverLocal db = None →
  initLocal db = None →
  ResourceSingularPostgres ≠ "exporter" →
  label (OffshootLabels db) LabelDatabaseKind = ResourceKindPostgres →
  label (OffshootLabels db) LabelDatabaseName = OffshootName db →
  (∀ call, w_Fails w call = None) →
  w_StatefulSets w !! (Namespace db, OffshootName db) = None →
  statefulSetMutator c postgresVersion envList
    (emptyStatefulSet (Namespace db) (OffshootName db)) db = Done (o1, db1) →
  ∃ w1 w2,
    ensureStatefulSet c db postgresVersion envList w = Done ((VerbCreated, None, db1), w1)
    ∧ w_StatefulSets w1 !! (Namespace db, OffshootName db) = Some o1
    ∧ ensureStatefulSet c db postgresVersion envList w1
      = Done ((VerbUnchanged, None, db1), w2)
    ∧ w_StatefulSets w2 = w_StatefulSets w1
    ∧ statefulSetMutator c postgresVersion envList o1 db = Done (o1, db1).
Proof.
  intros Harchive Hinit Hname Hkind Hdbname Hfails Habsent Hrun.
  assert (Hagain : statefulSetMutator c postgresVersion envList o1 db = Done (o1, db1)).
  { destruct (statefulSetMutator_derived c postgresVersion envList db Harchive Hinit Hname)
      as [Hpanic | (containers & volumes & claims & db' & Hderived)].
    - by rewrite Hpanic in Hrun.
    - rewrite Hderived in Hrun. injection Hrun as <- <-.
      by rewrite Hderived, derivedStatefulSet_idemp. }
  pose proof (statefulSetMutator_labels _ _ _ _ _ _ _ Harchive Hinit Hname Hrun) as Hlabels.
  set (ns := Namespace db) in *. set (name := OffshootName db) in *.
  set (read := CallGet KStatefulSet ns name).
  (* the first run *)
  assert (Hfirst : ∃ w1,
            ensureStatefulSet c db postgresVersion envList w = Done ((VerbCreated, None, db1), w1)
            ∧ w_StatefulSets w1 = <[(ns, name) := o1]> (w_StatefulSets w)
            ∧ w_Fails w1 = w_Fails w).
  { eexists. split; [|split].
    - unfold ensureStatefulSet. unfold mbind at 1, Ctl_bind.
      rewrite (checkStatefulSet_not_found db w) by (left; split; [apply Hfails | done]).
      unfold reconcileStatefulSet. unfold mbind at 1, Ctl_bind.
      fold ns name read.
      rewrite (CreateOrPatchStatefulSet_creates ns name _ db db1 o1 (requested read w));
        [| apply Hfails | apply Hfails | done | done].
      unfold CheckStatefulSetPodStatus, CreateStatefulSetPodDisruptionBudget, Eventf,
        request, liftGo, modifyWorld, deref.
      unfold mbind, Ctl_bind, mret, Ctl_ret.
      unfold requested, set_w_Events, set_w_Calls, set_w_StatefulSets.
      repeat (simpl; rewrite Hfails). reflexivity.
    - reflexivity.
    - reflexivity. }
  destruct Hfirst as (w1 & Hfirst & Hstore1 & Hfails1).
  assert (Hfound1 : w_StatefulSets w1 !! (ns, name) = Some o1).
  { rewrite Hstore1. apply lookup_insert_eq. }
  exists w1. eexists. split_and!; [done | done | | | done].
  - unfold ensureStatefulSet. unfold mbind at 1, Ctl_bind.
    rewrite (checkStatefulSet_found db w1 o1); [| by rewrite Hfails1 | done].
    rewrite Hlabels. fold name. rewrite Hkind, Hdbname.
    rewrite !bool_decide_eq_false_2 by (intros Hne; by apply Hne).
    cbn [orb].
    unfold reconcileStatefulSet. unfold mbind at 1, Ctl_bind.
    fold ns name read.
    rewrite (CreateOrPatchStatefulSet_unchanged ns name _ db db1 o1 (requested read w1));
      [| by rewrite <- (Hfails read), <- Hfails1 | done | done].
    unfold CreateStatefulSetPodDisruptionBudget, request, liftGo, deref.
    unfold mbind, Ctl_bind, mret, Ctl_ret.
    unfold requested, set_w_Calls. simpl. rewrite Hfails1, Hfails. reflexivity.
  - reflexivity.
Qed.

End ReconcileProperties.

(** ** Re-applying the mutator *)

(** C1, on the code: for a database that archives to a local backend the
    reconciliation is not idempotent.  The first [ensureCombinedNode] on an
    empty control plane creates the StatefulSet; the second one, with the
    same database object, patches it instead of leaving it unchanged, and the
    object it writes has the volume [local-archive] twice:
    [upsertDataVolume] appends that volume where the other volumes are
    upserted.  The mutator run twice differs from the mutator run once. *)
Theorem reapplied_with_local_archive_patches :
  let db := localArchivePostgres in
  let c := exampleController in
  let pv := exampleVersion in
  ∃ (w1 w2 : World) (o1 o2 : StatefulSet) (db1 db2 : Postgres) (envList : list EnvVar),
    @ensureCombinedNode exampleImports c db pv emptyWorld = Done ((VerbCreated, None, db1), w1)
    ∧ w_StatefulSets w1 !! ("demo", "pg") = Some o1
    ∧ @ensureCombinedNode exampleImports c db pv w1 = Done ((VerbPatched, None, db2), w2)
    ∧ w_StatefulSets w2 !! ("demo", "pg") = Some o2
    ∧ o2 ≠ o1
    ∧ volumeNames o1 = ["shared-memory"; "local-archive"]
    ∧ volumeNames o2 = ["shared-memory"; "local-archive"; "local-archive"]
    ∧ @combinedNodeEnv exampleImports db = Done envList
    ∧ @statefulSetMutator exampleImports c pv envList (emptyStatefulSet "demo" "pg") db
      = Done (o1, db1)
    ∧ @statefulSetMutator exampleImports c pv envList o1 db = Done (o2, db2).
Proof.
  intros db c pv.
  pose (run1 := @ensureCombinedNode exampleImports c db pv emptyWorld).
  pose (w1 := default emptyWorld (finalWorld run1)).
  pose (run2 := @ensureCombinedNode exampleImports c db pv w1).
  pose (w2 := default emptyWorld (finalWorld run2)).
  pose (o := emptyStatefulSet "demo" "pg").
  exists w1, w2,
    (default o (w_StatefulSets w1 !! ("demo", "pg"))),
    (default o (w_StatefulSets w2 !! ("demo", "pg"))),
    (default db (snd <$> returned run1)),
    (default db (snd <$> returned run2)),
    (match @combinedNodeEnv exampleImports db with Done env => env | Panic _ => [] end).
  split_and!; try (vm_compute; reflexivity).
  apply (bool_decide_unpack _). vm_compute. exact I.
Qed.

(** ** More on the environment *)

Section EnvironmentEdges.
Context {imports : Imports}.

(** A name is, or is not, among names that are all known. *)
Local Ltac known_names :=
  match goal with
  | |- _ ∈ _ => by apply (bool_decide_unpack _); vm_compute
  | |- _ ∉ _ => by apply (bool_decide_unpack _); vm_compute
  | |- NoDup _ => by apply (bool_decide_unpack _); vm_compute
  | H : _ ∈ _ |- _ => by apply (bool_decide_pack _) in H; vm_compute in H
  end.

Local Ltac one_of_them :=
  repeat match goal with
  | H : _ ∈ _ :: _ |- _ => apply elem_of_cons in H as [->|H]
  | H : _ ∈ _ ++ _ |- _ => apply elem_of_app in H as [H|H]
  | H : _ ∈ [] |- _ => by apply elem_of_nil in H
  end.

Local Ltac by_cases_on_strings :=
  repeat match goal with
  | |- context [nonempty ?s] =>
      let H := fresh "Hne" in
      destruct (nonempty s) eqn:H;
      [apply nonempty_true in H | apply nonempty_false in H]
  | |- context [HasSuffix ?s ?t] =>
      let H := fresh "Hsuf" in
      destruct (HasSuffix s t) eqn:H;
      [apply HasSuffix_endsWith in H | apply HasSuffix_false in H]
  end.

Lemma optionalIn_skip_l (env1 env2 : list EnvVar) (e : EnvVar) (wanted : Prop) :
  (∀ e', e' ∈ env1 → env_Name e' ≠ env_Name e) →
  optionalIn env2 e wanted → optionalIn (env1 ++ env2) e wanted.
Proof.
  intros Hskip [Hiff Hsame]. split.
  - rewrite fmap_app, elem_of_app, <- Hiff. split; [|by right].
    intros [(e' & Hn & He')%list_elem_of_fmap|?]; [|done]. by destruct (Hskip e' He').
  - intros e' [He'|He']%elem_of_app Hn; [by destruct (Hskip e' He') | by apply Hsame].
Qed.

Lemma optionalIn_skip_r (env1 env2 : list EnvVar) (e : EnvVar) (wanted : Prop) :
  (∀ e', e' ∈ env2 → env_Name e' ≠ env_Name e) →
  optionalIn env1 e wanted → optionalIn (env1 ++ env2) e wanted.
Proof.
  intros Hskip [Hiff Hsame]. split.
  - rewrite fmap_app, elem_of_app, <- Hiff. split; [|by left].
    intros [?|(e' & Hn & He')%list_elem_of_fmap]; [done|]. by destruct (Hskip e' He').
  - intros e' [He'|He']%elem_of_app Hn; [by apply Hsame | by destruct (Hskip e' He')].
Qed.

(** [if value != "" { envList = append(envList, {Name: name, Value: value}) }] *)
Lemma optionalIn_nonempty (name value : string) :
  optionalIn (if nonempty value then [envValue name value] else [])
    (envValue name value) (value ≠ "").
Proof.
  by_cases_on_strings; (split; [|by intros e' He'; one_of_them]); simpl.
  - split; [done|]. intros _. apply elem_of_cons. by left.
  - split; [by intros ?%elem_of_nil | done].
Qed.

Lemma restoreBackendEnv_names (wal : PostgresWALSourceSpec) (e : EnvVar) :
  e ∈ restoreBackendEnv wal → env_Name e ∈ restoreBackendNames.
Proof.
  unfold restoreBackendEnv.
  destruct (S3 _) as [s3|]; [|destruct (GCS _); [|destruct (Azure _);
    [|destruct (Swift _); [|destruct (Local _)]]]];
  by_cases_on_strings; simpl; intros He; one_of_them; simpl; known_names.
Qed.

(** X1: with a recovery target, [walRecoveryConfig] emits [TARGET_TIME],
    [TARGET_TIMELINE] and [TARGET_XID] each exactly when the field of the
    target is not empty, with the field as the value and under no other
    value; without a recovery target it emits none of [PITR],
    [TARGET_INCLUSIVE], [TARGET_TIME], [TARGET_TIMELINE], [TARGET_XID]. *)
Theorem walRecoveryConfig_target_variables (wal : PostgresWALSourceSpec)
    (env : list EnvVar) :
  walRecoveryConfig wal = Done env →
  (∀ pitr, wal_PITR wal = Some pitr →
     optionalIn env (envValue "TARGET_TIME" (TargetTime pitr)) (TargetTime pitr ≠ "")
     ∧ optionalIn env (envValue "TARGET_TIMELINE" (TargetTimeline pitr))
         (TargetTimeline pitr ≠ "")
     ∧ optionalIn env (envValue "TARGET_XID" (TargetXID pitr)) (TargetXID pitr ≠ ""))
  ∧ (wal_PITR wal = None →
     ∀ e, e ∈ env →
          env_Name e ∉ ["PITR"; "TARGET_INCLUSIVE"; "TARGET_TIME"; "TARGET_TIMELINE";
                        "TARGET_XID"]).
Proof.
  intros (pitrl & Hpitr & ->)%walRecoveryConfig_Done.
  unfold pitrEnv in Hpitr. split.
  - intros pitr Hp. rewrite Hp in Hpitr.
    destruct (TargetInclusive pitr) as [b|]; [|done]. simpl in Hpitr.
    injection Hpitr as <-.
    assert (Hbackend : ∀ name, name ∉ restoreBackendNames →
              ∀ e', e' ∈ [envValue "RESTORE" "true"] ++ restoreBackendEnv wal →
                    name ≠ "RESTORE" → env_Name e' ≠ name).
    { intros name Hname e' [He'|He']%elem_of_app Hrestore.
      - one_of_them. by intros <-.
      - intros <-. by apply Hname, (restoreBackendEnv_names wal). }
    rewrite !(assoc_L (++) [_] (restoreBackendEnv wal)).
    split_and!; (apply optionalIn_skip_l;
      [intros e' He'; simpl; (apply Hbackend; [known_names | done | done])|]).
    + apply (optionalIn_skip_l [_; _]); [by intros e' He'; one_of_them|].
      apply optionalIn_skip_r; [by by_cases_on_strings; intros e' He'; one_of_them|].
      apply optionalIn_nonempty.
    + apply (optionalIn_skip_l [_; _]); [by intros e' He'; one_of_them|].
      apply optionalIn_skip_l; [by by_cases_on_strings; intros e' He'; one_of_them|].
      apply optionalIn_skip_r; [by by_cases_on_strings; intros e' He'; one_of_them|].
      apply optionalIn_nonempty.
    + apply (optionalIn_skip_l [_; _]); [by intros e' He'; one_of_them|].
      do 2 (apply optionalIn_skip_l; [by by_cases_on_strings; intros e' He'; one_of_them|]).
      apply optionalIn_nonempty.
  - intros Hp. rewrite Hp in Hpitr. injection Hpitr as <-.
    intros e [He|[He|He]%elem_of_app]%elem_of_app; one_of_them; [known_names|].
    apply restoreBackendEnv_names in He. intros Hin.
    unfold restoreBackendNames in He. simpl in He.
    revert He Hin. generalize (env_Name e). intros name He Hin.
    one_of_them; known_names.
Qed.

(** X2: for a restore source on S3, [walRecoveryConfig] emits
    [RESTORE_S3_PREFIX] with the bucket and the prefix, [RESTORE_S3_ENDPOINT]
    exactly when the endpoint is not empty and does not end with
    [.amazonaws.com], and [RESTORE_S3_REGION] exactly when the region is not
    empty; each with the configured value and under no other value. *)
Theorem walRecoveryConfig_s3_options (wal : PostgresWALSourceSpec) (s3 : S3Spec)
    (env : list EnvVar) :
  S3 (wal_Backend wal) = Some s3 →
  walRecoveryConfig wal = Done env →
  envValue "RESTORE_S3_PREFIX" ("s3://" +:+ s3_Bucket s3 +:+ "/" +:+ s3_Prefix s3) ∈ env
  ∧ optionalIn env (envValue "RESTORE_S3_ENDPOINT" (s3_Endpoint s3))
      (s3_Endpoint s3 ≠ "" ∧ ¬ endsWith (s3_Endpoint s3) ".amazonaws.com")
  ∧ optionalIn env (envValue "RESTORE_S3_REGION" (s3_Region s3)) (s3_Region s3 ≠ "").
Proof.
  intros Hs3 (pitrl & Hpitr & ->)%walRecoveryConfig_Done.
  assert (Htargets : ∀ e, e ∈ pitrl →
            env_Name e ∈ ["PITR"; "TARGET_INCLUSIVE"; "TARGET_TIME"; "TARGET_TIMELINE";
                          "TARGET_XID"]).
  { unfold pitrEnv in Hpitr. destruct (wal_PITR wal) as [pitr|].
    - destruct (TargetInclusive pitr); [|done]. simpl in Hpitr. injection Hpitr as <-.
      by_cases_on_strings; simpl; intros e He; one_of_them; simpl; known_names.
    - injection Hpitr as <-. by intros e ?%elem_of_nil. }
  assert (Hskip : ∀ name, name ∉ ["PITR"; "TARGET_INCLUSIVE"; "TARGET_TIME";
                                   "TARGET_TIMELINE"; "TARGET_XID"] →
            ∀ e, e ∈ pitrl → env_Name e ≠ name).
  { intros name Hname e He <-. by apply Hname, Htargets. }
  unfold restoreBackendEnv. rewrite Hs3. split_and!.
  - apply elem_of_app. right. apply elem_of_app. left. apply elem_of_cons. by left.
  - apply (optionalIn_skip_l [_]); [by intros e' He'; one_of_them|].
    apply optionalIn_skip_r; [apply Hskip; known_names|].
    apply (optionalIn_skip_l [_]); [by intros e' He'; one_of_them|].
    apply optionalIn_skip_r; [by by_cases_on_strings; intros e' He'; one_of_them|].
    by_cases_on_strings; simpl; (split; [|by intros e' He'; one_of_them]); simpl;
      rewrite ?elem_of_cons, ?elem_of_nil; tauto.
  - apply (optionalIn_skip_l [_]); [by intros e' He'; one_of_them|].
    apply optionalIn_skip_r; [apply Hskip; known_names|].
    apply (optionalIn_skip_l [_]); [by intros e' He'; one_of_them|].
    apply optionalIn_skip_l; [by by_cases_on_strings; simpl; intros e' He'; one_of_them|].
    apply optionalIn_nonempty.
Qed.

(** X3: the archive part of the environment of [ensureCombinedNode] and the
    environment of [walRecoveryConfig] name no variable twice, whatever the
    configuration. *)
Theorem derived_environment_names_distinct (db : Postgres) :
  NoDup (env_Name <$> archiveEnv db)
  ∧ ∀ wal env, walRecoveryConfig wal = Done env → NoDup (env_Name <$> env).
Proof.
  split.
  - unfold archiveEnv.
    destruct (Archiver _) as [archiver|]; [|constructor].
    destruct (arch_Storage _) as [storage|]; [|constructor].
    destruct (S3 _) as [s3|]; [|destruct (GCS _); [|destruct (Azure _);
      [|destruct (Swift _); [|destruct (Local _)]]]];
    by_cases_on_strings; simpl; known_names.
  - intros wal env (pitrl & Hpitr & ->)%walRecoveryConfig_Done.
    unfold pitrEnv in Hpitr. destruct (wal_PITR wal) as [pitr|].
    + destruct (TargetInclusive pitr); [|done]. simpl in Hpitr. injection Hpitr as <-.
      unfold restoreBackendEnv.
      destruct (S3 _) as [s3|]; [|destruct (GCS _); [|destruct (Azure _);
        [|destruct (Swift _); [|destruct (Local _)]]]];
      by_cases_on_strings; simpl; known_names.
    + injection Hpitr as <-. unfold restoreBackendEnv.
      destruct (S3 _) as [s3|]; [|destruct (GCS _); [|destruct (Azure _);
        [|destruct (Swift _); [|destruct (Local _)]]]];
      by_cases_on_strings; simpl; known_names.
Qed.

(** X4: the archive part of the environment is empty without an archiver
    storage; with one it starts with [ARCHIVE=wal-g], which occurs once, and
    nothing follows exactly when no member of the storage is populated: the
    archive is then switched on without a prefix. *)
Theorem archiveEnv_switch (db : Postgres) :
  (Archiver (Spec db) ≫= arch_Storage = None → archiveEnv db = [])
  ∧ (∀ storage, Archiver (Spec db) ≫= arch_Storage = Some storage →
       ∃ rest, archiveEnv db = envValue "ARCHIVE" "wal-g" :: rest
               ∧ (rest = [] ↔ selectedBackend storage = None)
               ∧ ∀ e, e ∈ rest → env_Name e ≠ "ARCHIVE").
Proof.
  unfold archiveEnv. destruct (Archiver (Spec db)) as [archiver|]; simpl; [|done].
  destruct (arch_Storage archiver) as [storage|]; simpl; [|done].
  split; [done|]. intros ? [= <-]. eexists. split; [reflexivity|].
  destruct storage as [secret [s3|] [gcs|] [az|] [sw|] [loc|]]; simpl;
    (split; [|by by_cases_on_strings; simpl; intros e He; one_of_them]);
    by_cases_on_strings; done.
Qed.

(** X5: the derivation of the environment panics, with a nil dereference,
    exactly when the database restores to a recovery target whose inclusive
    flag is nil, and returns an environment otherwise; in the first case
    [ensureCombinedNode] panics on every control plane, before any
    request. *)
Theorem combinedNodeEnv_panics_iff (db : Postgres) :
  ((∃ pitr, restoreTarget db = Some pitr ∧ TargetInclusive pitr = None)
   ↔ combinedNodeEnv db = Panic NilDereference)
  ∧ ((∀ pitr, restoreTarget db = Some pitr → is_Some (TargetInclusive pitr))
     ↔ ∃ env, combinedNodeEnv db = Done env)
  ∧ ((∃ pitr, restoreTarget db = Some pitr ∧ TargetInclusive pitr = None) →
     ∀ c postgresVersion w,
       ensureCombinedNode c db postgresVersion w = Panic NilDereference).
Proof.
  unfold ensureCombinedNode, combinedNodeEnv, walRecoveryConfig, pitrEnv, restoreTarget.
  destruct (Init (Spec db)) as [init|]; simpl.
  2:{ split_and!; [split; [by intros (? & ? & _) | by intros [=]] | | by intros (? & ? & _)].
      split; [by eexists | by intros _ ? ?]. }
  destruct (init_PostgresWAL init) as [wal|]; simpl.
  2:{ split_and!; [split; [by intros (? & ? & _) | by intros [=]] | | by intros (? & ? & _)].
      split; [by eexists | by intros _ ? ?]. }
  destruct (wal_PITR wal) as [pitr|]; simpl.
  2:{ split_and!; [split; [by intros (? & ? & _) | by intros [=]] | | by intros (? & ? & _)].
      split; [by eexists | by intros _ ? ?]. }
  destruct (TargetInclusive pitr) as [b|] eqn:Hb; simpl.
  - split_and!; [split; [intros (? & [= <-] & ?); congruence | by intros [=]] | |
                 intros (? & [= <-] & ?); congruence].
    split; [by eexists | intros _ ? [= <-]; by eexists].
  - split_and!; [split; [done | intros _; by eexists] | | done].
    split; [intros H; destruct (H pitr eq_refl) as [? Hsome]; congruence | by intros [? [=]]].
Qed.

End EnvironmentEdges.

(** ** Errors of the reconciliation *)

Section ReconcileErrors.
Context {imports : Imports}.

(** X6: [checkStatefulSet] never panics and all it does is the request that
    reads the StatefulSet.  It returns an error exactly when the control
    plane answers with an error other than NotFound, or when the StatefulSet
    exists and its labels do not carry both the kind and the name of the
    database; an error of the control plane is returned as it is, and
    [ensureStatefulSet] then returns Unchanged with that error after this
    one request. *)
Theorem checkStatefulSet_reads_only (db : Postgres) (w : World) :
  let read := CallGet KStatefulSet (Namespace db) (OffshootName db) in
  ∃ r, checkStatefulSet db w = Done (r, requested read w)
       ∧ (is_Some r ↔
            (∃ err, w_Fails w read = Some err ∧ IsNotFound err = false)
            ∨ (w_Fails w read = None
               ∧ ∃ existing,
                   w_StatefulSets w !! (Namespace db, OffshootName db) = Some existing
                   ∧ (label (om_Labels (sts_ObjectMeta existing)) LabelDatabaseKind
                      ≠ ResourceKindPostgres
                      ∨ label (om_Labels (sts_ObjectMeta existing)) LabelDatabaseName
                        ≠ OffshootName db)))
       ∧ (∀ err, w_Fails w read = Some err → IsNotFound err = false →
            r = Some err
            ∧ ∀ c postgresVersion envList,
                ensureStatefulSet c db postgresVersion envList w
                = Done ((VerbUnchanged, Some err, db), requested read w)).
Proof.
  intros read.
  destruct (w_Fails w read) as [err|] eqn:Hfails.
  - destruct (IsNotFound err) eqn:Hnf.
    + exists None. split_and!.
      * apply checkStatefulSet_not_found. right. by exists err.
      * split; [by intros [? [=]] |].
        intros [(? & [= <-] & ?) | [[=] _]]. congruence.
      * intros ? [= <-] ?. congruence.
    + assert (Hcheck : checkStatefulSet db w = Done (Some err, requested read w)).
      { unfold checkStatefulSet, GetStatefulSet, Get, request.
        unfold mbind, Ctl_bind, getWorld, mret, Ctl_ret. simpl.
        fold read. rewrite Hfails. simpl. by rewrite Hnf. }
      exists (Some err). split_and!; [done | |].
      * split; [intros _; left; by exists err | by eexists].
      * intros ? [= <-] _. split; [done|]. intros c postgresVersion envList.
        unfold ensureStatefulSet. unfold mbind, Ctl_bind. by rewrite Hcheck.
  - destruct (w_StatefulSets w !! (Namespace db, OffshootName db)) as [existing|] eqn:Hfound.
    + eexists. split_and!; [by apply checkStatefulSet_found | | done].
      destruct (bool_decide _ || bool_decide _) eqn:Hlabels.
      * apply orb_true_iff in Hlabels as Hl. rewrite !bool_decide_eq_true in Hl.
        split; [|by eexists]. intros _. right. split; [done|]. by exists existing.
      * apply orb_false_iff in Hlabels as [Hk Hn]. rewrite !bool_decide_eq_false in Hk, Hn.
        split; [by intros [? [=]] |].
        intros [(? & [=] & _) | (_ & ? & [= <-] & [?|?])]; done.
    + exists None. split_and!; [apply checkStatefulSet_not_found; by left | | done].
      split; [by intros [? [=]] |].
      intros [(? & [=] & _) | (_ & ? & [=] & _)].
Qed.

(** X7: [ensureStatefulSet] once the create-or-patch call has returned the
    StatefulSet.  For the verb Unchanged it does not wait for the pods and
    records no event: it ensures the disruption budget and returns Unchanged
    with the answer to that.  For Created and Patched it waits for the pods;
    if that fails it returns Unchanged with the error, although the object
    is written, without an event and without a request for the disruption
    budget; otherwise it records the event and returns the verb itself with
    the answer to the request for the disruption budget, error or not. *)
Theorem ensureStatefulSet_after_write (c : Controller) (db db1 : Postgres)
    (postgresVersion : PostgresVersion) (envList : list EnvVar) (w w0 w1 : World)
    (o1 : StatefulSet) (vt : VerbType) :
  checkStatefulSet db w = Done (None, w0) →
  CreateOrPatchStatefulSet (Namespace db) (OffshootName db)
    (statefulSetMutator c postgresVersion envList) db w0
  = Done ((Some o1, vt, None, db1), w1) →
  let wait := CallWaitUntilPodRunning (om_Namespace (sts_ObjectMeta o1)) in
  let budget := CallCreatePodDisruptionBudget (om_Namespace (sts_ObjectMeta o1))
                  (om_Name (sts_ObjectMeta o1)) in
  (vt = VerbUnchanged →
     ensureStatefulSet c db postgresVersion envList w
     = Done ((VerbUnchanged, w_Fails w1 budget, db1), requested budget w1))
  ∧ (vt ≠ VerbUnchanged → ∀ err, w_Fails w1 wait = Some err →
       ensureStatefulSet c db postgresVersion envList w
       = Done ((VerbUnchanged, Some err, db1), requested wait w1))
  ∧ (vt ≠ VerbUnchanged → w_Fails w1 wait = None →
       ensureStatefulSet c db postgresVersion envList w
       = Done ((vt, w_Fails w1 budget, db1),
               requested budget (recorded " StatefulSet" vt (requested wait w1)))).
Proof.
  intros Hcheck Hwrite wait budget.
  assert (Hens : ensureStatefulSet c db postgresVersion envList w
                 = (statefulSet ← liftGo (deref (Some o1));
                    err ←
                      (if bool_decide (vt = VerbCreated) || bool_decide (vt = VerbPatched) then
                         err ← CheckStatefulSetPodStatus statefulSet;
                         match err with
                         | Some err => mret (Some err)
                         | None =>
                             Eventf ("Successfully " +:+ verbString vt +:+ " StatefulSet");;
                             mret None
                         end
                       else mret None);
                    match err with
                    | Some err => mret (VerbUnchanged, Some err, db1)
                    | None =>
                        err ← CreateStatefulSetPodDisruptionBudget statefulSet;
                        match err with
                        | Some err => mret (vt, Some err, db1)
                        | None => mret (vt, None, db1)
                        end
                    end) w1).
  { unfold ensureStatefulSet. unfold mbind at 1, Ctl_bind. rewrite Hcheck.
    unfold reconcileStatefulSet. unfold mbind at 1, Ctl_bind. by rewrite Hwrite. }
  rewrite Hens. clear Hens Hcheck Hwrite.
  unfold CheckStatefulSetPodStatus, CreateStatefulSetPodDisruptionBudget, Eventf,
    request, liftGo, modifyWorld, deref.
  unfold mbind, Ctl_bind, mret, Ctl_ret. fold wait budget.
  split_and!.
  - intros ->. simpl. by destruct (w_Fails w1 budget).
  - intros Hvt err Hwait.
    replace (bool_decide (vt = VerbCreated) || bool_decide (vt = VerbPatched)) with true
      by (by destruct vt).
    by rewrite Hwait.
  - intros Hvt Hwait.
    replace (bool_decide (vt = VerbCreated) || bool_decide (vt = VerbPatched)) with true
      by (by destruct vt).
    rewrite Hwait.
    change (w_Fails (set_w_Events ?e (set_w_Calls ?x w1)) budget) with (w_Fails w1 budget).
    destruct vt; [done|..]; by destruct (w_Fails w1 budget).
Qed.


(** X23: when there is no StatefulSet of the name and the control plane
    refuses its creation, [ensureStatefulSet] returns Unchanged with that
    error after three requests (two reads, the creation): nothing is stored,
    no event is recorded and the pods are not waited for; the database
    object it leaves is the one the mutator made, access modes written. *)
Theorem ensureStatefulSet_create_refused (c : Controller) (db db1 : Postgres)
    (postgresVersion : PostgresVersion) (envList : list EnvVar) (w : World)
    (o1 : StatefulSet) (err : error) :
  w_Fails w (CallGet KStatefulSet (Namespace db) (OffshootName db)) = None →
  w_StatefulSets w !! (Namespace db, OffshootName db) = None →
  w_Fails w (CallCreate KStatefulSet (Namespace db) (OffshootName db)) = Some err →
  statefulSetMutator c postgresVersion envList
    (emptyStatefulSet (Namespace db) (OffshootName db)) db = Done (o1, db1) →
  ensureStatefulSet c db postgresVersion envList w
  = Done ((VerbUnchanged, Some err, db1),
          requested (CallCreate KStatefulSet (Namespace db) (OffshootName db))
            (requested (CallGet KStatefulSet (Namespace db) (OffshootName db))
               (requested (CallGet KStatefulSet (Namespace db) (OffshootName db)) w))).
Proof.
  intros Hget Habsent Hcreate Hrun.
  unfold ensureStatefulSet. unfold mbind at 1, Ctl_bind.
  rewrite (checkStatefulSet_not_found db w) by (by left).
  unfold reconcileStatefulSet. unfold mbind at 1, Ctl_bind.
  set (ns := Namespace db) in *. set (name := OffshootName db) in *.
  assert (Hwrite :
    CreateOrPatchStatefulSet ns name (statefulSetMutator c postgresVersion envList) db
      (requested (CallGet KStatefulSet ns name) w)
    = Done ((None, VerbUnchanged, Some err, db1),
            requested (CallCreate KStatefulSet ns name)
              (requested (CallGet KStatefulSet ns name)
                 (requested (CallGet KStatefulSet ns name) w)))).
  { unfold CreateOrPatchStatefulSet, CreateOrPatch, Get, request, liftGo, modifyWorld,
      getWorld.
    unfold mbind, Ctl_bind, mret, Ctl_ret. unfold requested.
    cbn [w_Fails set_w_Calls]. rewrite Hget.
    cbn [w_StatefulSets set_w_Calls]. rewrite Habsent.
    cbn [IsNotFound]. rewrite Hrun.
    cbn [w_Fails set_w_Calls]. rewrite Hcreate. reflexivity. }
  by rewrite Hwrite.
Qed.

(** *** Create or patch, for a service *)

Lemma CreateOrPatchService_refused (ns name : string) (transform : Service → Go Service)
    (err : error) (w : World) :
  w_Fails w (CallGet KService ns name) = Some err →
  IsNotFound err = false →
  CreateOrPatchService ns name transform w
  = Done ((None, VerbUnchanged, Some err), requested (CallGet KService ns name) w).
Proof.
  intros Hget Hnf.
  unfold CreateOrPatchService, CreateOrPatch, Get, request, liftGo, modifyWorld, getWorld.
  unfold mbind, Ctl_bind, mret, Ctl_ret.
  rewrite Hget. by rewrite Hnf.
Qed.

Lemma CreateOrPatchService_creates (ns name : string) (transform : Service → Go Service)
    (created : Service) (w : World) :
  w_Fails w (CallGet KService ns name) = None →
  w_Fails w (CallCreate KService ns name) = None →
  w_Services w !! (ns, name) = None →
  transform (emptyService ns name) = Done created →
  CreateOrPatchService ns name transform w
  = Done ((Some created, VerbCreated, None),
          set_w_Services (<[(ns, name) := created]> (w_Services w))
            (requested (CallCreate KService ns name)
               (requested (CallGet KService ns name) w))).
Proof.
  intros Hget Hcreate Habsent Hrun.
  unfold CreateOrPatchService, CreateOrPatch, Get, request, liftGo, modifyWorld, getWorld.
  unfold mbind, Ctl_bind, mret, Ctl_ret.
  rewrite Hget. cbn [w_Services set_w_Calls]. rewrite Habsent.
  cbn [IsNotFound]. rewrite Hrun. unfold Go_bind, Go_ret.
  cbn [w_Fails set_w_Calls]. rewrite Hcreate. reflexivity.
Qed.

Lemma CreateOrPatchService_unchanged (ns name : string) (transform : Service → Go Service)
    (cur : Service) (w : World) :
  w_Fails w (CallGet KService ns name) = None →
  w_Services w !! (ns, name) = Some cur →
  transform cur = Done cur →
  CreateOrPatchService ns name transform w
  = Done ((Some cur, VerbUnchanged, None), requested (CallGet KService ns name) w).
Proof.
  intros Hget Hfound Hrun.
  unfold CreateOrPatchService, CreateOrPatch, Get, request, liftGo, modifyWorld, getWorld.
  unfold mbind, Ctl_bind, mret, Ctl_ret.
  rewrite Hget. cbn [w_Services set_w_Calls]. rewrite Hfound.
  rewrite Hrun. unfold Go_bind, Go_ret. by rewrite decide_True.
Qed.

Lemma CreateOrPatchService_patches (ns name : string) (transform : Service → Go Service)
    (cur modified : Service) (w : World) :
  w_Fails w (CallGet KService ns name) = None →
  w_Fails w (CallPatch KService ns name) = None →
  w_Services w !! (ns, name) = Some cur →
  transform cur = Done modified →
  modified ≠ cur →
  CreateOrPatchService ns name transform w
  = Done ((Some modified, VerbPatched, None),
          set_w_Services (<[(ns, name) := modified]> (w_Services w))
            (requested (CallPatch KService ns name)
               (requested (CallGet KService ns name) w))).
Proof.
  intros Hget Hpatch Hfound Hrun Hne.
  unfold CreateOrPatchService, CreateOrPatch, Get, request, liftGo, modifyWorld, getWorld.
  unfold mbind, Ctl_bind, mret, Ctl_ret.
  rewrite Hget. cbn [w_Services set_w_Calls]. rewrite Hfound.
  rewrite Hrun. unfold Go_bind, Go_ret. rewrite decide_False by done.
  cbn [w_Fails set_w_Calls]. rewrite Hpatch. reflexivity.
Qed.

(** *** The two services *)

(** X8: when the primary service cannot be read, [ensureService] returns
    Unchanged with that error after this one request: no event, and no
    request for the service of the standbys, however many replicas. *)
Theorem ensureService_stops_at_primary_error (db : Postgres) (w : World) (err : error) :
  w_Fails w (CallGet KService (Namespace db) (OffshootName db)) = Some err →
  IsNotFound err = false →
  ensureService db w
  = Done ((VerbUnchanged, Some err),
          requested (CallGet KService (Namespace db) (OffshootName db)) w).
Proof.
  intros Hget Hnf.
  assert (Hprimary : ensurePrimaryService db w
            = Done ((VerbUnchanged, Some err),
                    requested (CallGet KService (Namespace db) (OffshootName db)) w)).
  { unfold ensurePrimaryService. unfold mbind, Ctl_bind.
    by rewrite (CreateOrPatchService_refused _ _ _ err). }
  unfold ensureService. unfold mbind at 1, Ctl_bind. by rewrite Hprimary.
Qed.

(** X9: when the primary service is created and the service of the standbys
    cannot be read, [ensureService] returns Unchanged with that error, while
    the primary service stays in the control plane and its event stays
    recorded: three requests were made, and nothing is undone. *)
Theorem ensureService_keeps_primary_when_standby_fails (db : Postgres) (w : World)
    (err : error) :
  let ns := Namespace db in
  w_Fails w (CallGet KService ns (OffshootName db)) = None →
  w_Fails w (CallCreate KService ns (OffshootName db)) = None →
  w_Services w !! (ns, OffshootName db) = None →
  1 < replicasOf db →
  w_Fails w (CallGet KService ns (StandbyServiceName db)) = Some err →
  IsNotFound err = false →
  ∃ primary w',
    ensureService db w = Done ((VerbUnchanged, Some err), w')
    ∧ w_Services w' = <[(ns, OffshootName db) := primary]> (w_Services w)
    ∧ w_Calls w' = w_Calls w ++ [CallGet KService ns (OffshootName db);
                                 CallCreate KService ns (OffshootName db);
                                 CallGet KService ns (StandbyServiceName db)]
    ∧ w_Events w' = w_Events w ++ [ {| ev_Type := "Normal"; ev_Reason := "Successful";
                                      ev_Message := "Successfully created Service" |} ].
Proof.
  intros ns Hget Hcreate Habsent Hreplicas Hstandby Hnf.
  assert (Hmut : ∃ primary,
            serviceMutator db PostgresPodPrimary PostgresPrimaryServicePortName
              (ServiceTemplate_ (Spec db)) (emptyService ns (OffshootName db))
            = Done primary).
  { by eexists. }
  destruct Hmut as (primary & Hmut). exists primary.
  set (w1 := set_w_Services (<[(ns, OffshootName db) := primary]> (w_Services w))
               (requested (CallCreate KService ns (OffshootName db))
                  (requested (CallGet KService ns (OffshootName db)) w))).
  assert (Hprimary : ensurePrimaryService db w = Done ((VerbCreated, None), w1)).
  { unfold ensurePrimaryService. unfold mbind, Ctl_bind. fold ns.
    by rewrite (CreateOrPatchService_creates ns _ _ primary w Hget Hcreate Habsent Hmut). }
  assert (Hstandby' : ensureStandbyService db (recorded " Service" VerbCreated w1)
            = Done ((VerbUnchanged, Some err),
                    requested (CallGet KService ns (StandbyServiceName db))
                      (recorded " Service" VerbCreated w1))).
  { unfold ensureStandbyService. unfold mbind, Ctl_bind. fold ns.
    by rewrite (CreateOrPatchService_refused ns _ _ err). }
  eexists. split.
  - unfold ensureService. unfold mbind at 1, Ctl_bind. rewrite Hprimary.
    rewrite bool_decide_eq_true_2 by lia.
    assert (Hev : ((if bool_decide (VerbCreated ≠ VerbUnchanged)
                    then Eventf ("Successfully " +:+ verbString VerbCreated +:+ " Service")
                    else mret ()) w1) = Done (tt, recorded " Service" VerbCreated w1)).
    { done. }
    unfold mbind at 1, Ctl_bind. rewrite Hev.
    unfold mbind at 1, Ctl_bind. rewrite Hstandby'. reflexivity.
  - split_and!; [done | | done]. simpl. by rewrite <- !app_assoc.
Qed.

(** *** The governing service *)

Lemma governingServiceMutator_idemp (db : Postgres) (svc svc1 : Service) :
  governingServiceMutator db svc = Done svc1 →
  governingServiceMutator db svc1 = Done svc1.
Proof.
  intros [= <-]. unfold governingServiceMutator. f_equal.
  destruct svc as [[name ns labels annotations refs] spec]. 
  unfold svc_with_meta, svc_with_spec, EnsureOwnerReference. simpl.
  by rewrite UpsertByName_idemp.
Qed.

(** X10: on a control plane that refuses nothing, whatever service is there
    under the name, [ensureGoverningService] returns no error and leaves a
    headless service (type ClusterIP, cluster IP None) that publishes the
    addresses that are not ready, selects the pods of the database and is
    owned by it; run again, it reads the service and does nothing else: no
    write and no event. *)
Theorem ensureGoverningService_settles (db : Postgres) (w : World) :
  (∀ call, w_Fails w call = None) →
  ∃ svc w1,
    ensureGoverningService db w = Done (None, w1)
    ∧ w_Services w1 !! (Namespace db, GoverningServiceName db) = Some svc
    ∧ svs_Type (svc_Spec svc) = core_ServiceTypeClusterIP
    ∧ svs_ClusterIP (svc_Spec svc) = core_ClusterIPNone
    ∧ svs_PublishNotReadyAddresses (svc_Spec svc) = true
    ∧ svs_Selector (svc_Spec svc) = OffshootSelectors db
    ∧ NewControllerRef db ∈ om_OwnerReferences (svc_ObjectMeta svc)
    ∧ ensureGoverningService db w1
      = Done (None,
              requested (CallGet KService (Namespace db) (GoverningServiceName db)) w1).
Proof.
  intros Hfails.
  set (ns := Namespace db). set (name := GoverningServiceName db).
  set (base := default (emptyService ns name) (w_Services w !! (ns, name))).
  destruct (governingServiceMutator db base) as [svc|] eqn:Hmut; [|done].
  pose proof (governingServiceMutator_idemp db base svc Hmut) as Hagain.
  assert (Hfields : svs_Type (svc_Spec svc) = core_ServiceTypeClusterIP
    ∧ svs_ClusterIP (svc_Spec svc) = core_ClusterIPNone
    ∧ svs_PublishNotReadyAddresses (svc_Spec svc) = true
    ∧ svs_Selector (svc_Spec svc) = OffshootSelectors db
    ∧ NewControllerRef db ∈ om_OwnerReferences (svc_ObjectMeta svc)).
  { injection Hmut as <-. split_and!; [done..|]. apply UpsertByName_elem. }
  assert (Hsecond : ∀ w1, w_Fails w1 = w_Fails w →
            w_Services w1 !! (ns, name) = Some svc →
            ensureGoverningService db w1
            = Done (None, requested (CallGet KService ns name) w1)).
  { intros w1 Hfails1 Hfound. unfold ensureGoverningService.
    unfold mbind at 1, Ctl_bind. fold ns name.
    rewrite (CreateOrPatchService_unchanged ns name _ svc w1);
      [done | by rewrite Hfails1 | done | done]. }
  exists svc.
  destruct (w_Services w !! (ns, name)) as [cur|] eqn:Hcur; simpl in base.
  - destruct (decide (svc = cur)) as [->|Hne].
    + eexists. split; [by apply Hsecond|]. split_and!; try tauto.
      apply Hsecond; done.
    + eexists. split.
      { unfold ensureGoverningService. unfold mbind at 1, Ctl_bind. fold ns name.
        rewrite (CreateOrPatchService_patches ns name _ cur svc w);
          [reflexivity | apply Hfails | apply Hfails | done | done | done]. }
      split_and!; try tauto.
      * apply lookup_insert_eq.
      * apply Hsecond; [done | apply lookup_insert_eq].
  - eexists. split.
    { unfold ensureGoverningService. unfold mbind at 1, Ctl_bind. fold ns name.
      rewrite (CreateOrPatchService_creates ns name _ svc w);
        [reflexivity | apply Hfails | apply Hfails | done | done]. }
    split_and!; try tauto.
    + apply lookup_insert_eq.
    + apply Hsecond; [done | apply lookup_insert_eq].
Qed.

End ReconcileErrors.

(** ** More on upserts *)

Section UpsertOrder.
Context {A : Type} (keyOf : A → string).
Implicit Types (l items : list A) (a b : A).

Lemma UpsertByName_keys_prefix l a :
  (keyOf <$> l) `prefix_of` (keyOf <$> UpsertByName keyOf l a).
Proof.
  induction l as [|x l IH]; simpl.
  - apply prefix_nil.
  - destruct (decide (keyOf x = keyOf a)) as [Hxa|Hxa]; simpl.
    + by rewrite Hxa.
    + by apply prefix_cons.
Qed.

Lemma UpsertAll_keys_prefix l items :
  (keyOf <$> l) `prefix_of` (keyOf <$> UpsertAll keyOf l items).
Proof.
  revert l. induction items as [|a items IH]; intros l; [done|].
  rewrite UpsertAll_cons. etrans; [apply UpsertByName_keys_prefix | apply IH].
Qed.

(** An upsert under another key changes nothing under a key. *)
Lemma list_find_UpsertByName_other l a (k : string) :
  keyOf a ≠ k →
  list_find (λ x, keyOf x = k) (UpsertByName keyOf l a)
  = list_find (λ x, keyOf x = k) l.
Proof.
  intros Hak. induction l as [|x l IH]; simpl.
  - by rewrite decide_False.
  - destruct (decide (keyOf x = keyOf a)) as [Hxa|Hxa]; simpl.
    + rewrite decide_False by done. by rewrite decide_False by congruence.
    + destruct (decide (keyOf x = k)); [done|]. by rewrite IH.
Qed.

Lemma UpsertByName_elem_other l a x :
  x ∈ l → keyOf x ≠ keyOf a → x ∈ UpsertByName keyOf l a.
Proof.
  intros Hx Hxa. induction l as [|y l IH]; simpl; [by apply elem_of_nil in Hx|].
  apply elem_of_cons in Hx as [->|Hx].
  - rewrite decide_False by done. by left.
  - destruct (decide (keyOf y = keyOf a)); [by right | right; by apply IH].
Qed.

(** An item under a key that is not upserted stays where it is. *)
Lemma UpsertByName_lookup_other l a (i : nat) x :
  l !! i = Some x → keyOf x ≠ keyOf a → UpsertByName keyOf l a !! i = Some x.
Proof.
  revert i. induction l as [|y l IH]; intros [|i] Hx Hne; simpl in *; try done.
  - injection Hx as ->. by rewrite decide_False.
  - destruct (decide (keyOf y = keyOf a)); simpl; [done | by apply IH].
Qed.

Lemma UpsertAll_lookup_other l items (i : nat) x :
  l !! i = Some x → keyOf x ∉ keyOf <$> items → UpsertAll keyOf l items !! i = Some x.
Proof.
  revert l. induction items as [|a items IH]; intros l Hx Hne; [done|].
  rewrite UpsertAll_cons. apply IH.
  - apply UpsertByName_lookup_other; [done|]. intros Heq. apply Hne. rewrite Heq. by left.
  - intros Hin. apply Hne. by right.
Qed.

(** Of the items upserted under a key the last one is found. *)
Lemma list_find_UpsertAll_last l items1 a items2 :
  keyOf a ∉ keyOf <$> items2 →
  ∃ i, list_find (λ x, keyOf x = keyOf a) (UpsertAll keyOf l (items1 ++ a :: items2))
       = Some (i, a).
Proof.
  intros Hlast. rewrite UpsertAll_app, UpsertAll_cons.
  generalize (UpsertAll keyOf l items1). clear l items1. intros l.
  assert (Hfound : ∃ i, list_find (λ x, keyOf x = keyOf a) (UpsertByName keyOf l a)
                        = Some (i, a)).
  { rewrite list_find_UpsertByName. by eexists. }
  revert Hfound. generalize (UpsertByName keyOf l a). clear l. intros l.
  revert l. induction items2 as [|b items2 IH]; intros l Hfound; [done|].
  rewrite UpsertAll_cons. apply IH.
  - intros Hin. apply Hlast. by right.
  - rewrite list_find_UpsertByName_other; [done|].
    intros Hba. apply Hlast. rewrite <- Hba. by left.
Qed.

End UpsertOrder.

(** ** More on the StatefulSet *)

Section WorkloadInvariants.
Context {imports : Imports}.

Local Arguments UpsertByName : simpl never.
Local Arguments UpsertAll : simpl never.

(** *** Without the container of the database *)

Lemma appendLocalVolumes_without_local (statefulSet : StatefulSet) (db : Postgres) :
  archiverLocal db = None → initLocal db = None →
  appendLocalVolumes statefulSet db = Done statefulSet.
Proof.
  intros Harchive Hinit. unfold appendLocalVolumes. rewrite Harchive, Hinit.
  by destruct (_ || _).
Qed.

(** X11: in a StatefulSet without a container under the name of the
    database, [upsertEnv], [upsertUserEnv], [upsertArchiveSecret],
    [upsertInitWalSecret], [upsertShm], [upsertInitScript] and
    [upsertCustomConfig] return the StatefulSet as it is: not even the
    volume is added; so does [upsertDataVolume] for a database without
    local backends, which then neither adds a claim template nor writes the
    access modes nor reads the storage. *)
Theorem upserts_skip_without_container (statefulSet : StatefulSet) (db : Postgres)
    (envs : list EnvVar) (secretName : string) (script : VolumeSource) :
  findContainer ResourceSingularPostgres (ps_Containers (podSpec statefulSet)) = None →
  upsertEnv statefulSet db envs = statefulSet
  ∧ upsertUserEnv statefulSet db = statefulSet
  ∧ upsertArchiveSecret statefulSet secretName = statefulSet
  ∧ upsertInitWalSecret statefulSet secretName = statefulSet
  ∧ upsertShm statefulSet = statefulSet
  ∧ upsertInitScript statefulSet script = statefulSet
  ∧ upsertCustomConfig statefulSet db = statefulSet
  ∧ (archiverLocal db = None → initLocal db = None →
     upsertDataVolume statefulSet db = Done (statefulSet, db)).
Proof.
  intros Hnone.
  unfold upsertEnv, upsertUserEnv, upsertArchiveSecret, upsertInitWalSecret, upsertShm,
    upsertInitScript, upsertCustomConfig, upsertMountAndVolume.
  rewrite Hnone. split_and!; try done.
  - by destruct (ConfigSecret (Spec db)).
  - intros Harchive Hinit. unfold upsertDataVolume.
    rewrite appendLocalVolumes_without_local by done. simpl. by rewrite Hnone.
Qed.

(** *** When the data volume panics *)

Lemma findContainer_names_None (name : string) (l l' : list Container) :
  c_Name <$> l' = c_Name <$> l →
  findContainer name l = None → findContainer name l' = None.
Proof.
  intros Hnames Hnone.
  destruct (findContainer name l') as [[i c']|] eqn:Hfind; [|done].
  destruct (findContainer_names name l' l i c' (eq_sym Hnames) Hfind) as (c & Hc).
  congruence.
Qed.

Lemma archiverLocal_guard (db : Postgres) :
  is_Some (archiverLocal db) ∨ is_Some (initLocal db) →
  bool_decide (Archiver (Spec db) ≠ None) || bool_decide (Init (Spec db) ≠ None) = true.
Proof.
  unfold archiverLocal, initLocal. intros [[loc Hloc]|[loc Hloc]].
  - destruct (Archiver (Spec db)); [done | by simpl in Hloc].
  - destruct (Init (Spec db)); [|by simpl in Hloc].
    apply orb_true_iff. right. by apply bool_decide_eq_true.
Qed.

(** X12: [upsertDataVolume] panics in two cases only.  It indexes out of
    range exactly when the database has a local archive or a local restore
    source and the StatefulSet has no container at all; it dereferences nil
    exactly when the container of the database is there, the storage type
    is not ephemeral and the storage is nil.  An ephemeral database with a
    nil storage is fine. *)
Theorem upsertDataVolume_panics_iff (statefulSet : StatefulSet) (db : Postgres) :
  (upsertDataVolume statefulSet db = Panic IndexOutOfRange
   ↔ (is_Some (archiverLocal db) ∨ is_Some (initLocal db))
     ∧ ps_Containers (podSpec statefulSet) = [])
  ∧ (upsertDataVolume statefulSet db = Panic NilDereference
     ↔ is_Some (findContainer ResourceSingularPostgres (ps_Containers (podSpec statefulSet)))
       ∧ StorageType (Spec db) ≠ StorageTypeEphemeral
       ∧ Storage (Spec db) = None).
Proof.
  destruct (ps_Containers (podSpec statefulSet)) as [|first rest] eqn:Hcs.
  - (* no container at all *)
    assert (Hrun : upsertDataVolume statefulSet db
                   = if bool_decide (is_Some (archiverLocal db) ∨ is_Some (initLocal db))
                     then Panic IndexOutOfRange else Done (statefulSet, db)).
    { unfold upsertDataVolume.
      destruct (archiverLocal db) as [loc|] eqn:Harchive.
      - rewrite bool_decide_eq_true_2 by (left; by eexists).
        unfold appendLocalVolumes.
        rewrite archiverLocal_guard by (left; by eexists).
        rewrite Harchive. unfold appendLocalVolume. by rewrite Hcs.
      - destruct (initLocal db) as [loc|] eqn:Hinit.
        + rewrite bool_decide_eq_true_2 by (right; by eexists).
          unfold appendLocalVolumes.
          rewrite archiverLocal_guard by (right; by eexists).
          rewrite Harchive, Hinit. simpl. unfold appendLocalVolume. by rewrite Hcs.
        + rewrite bool_decide_eq_false_2 by (by intros [[? [=]]|[? [=]]]).
          rewrite appendLocalVolumes_without_local by done. simpl. by rewrite Hcs. }
    rewrite Hrun. destruct (bool_decide _) eqn:Hlocal.
    + apply bool_decide_eq_true in Hlocal.
      split; [done|]. split; [done | by intros [[? [=]] _]].
    + apply bool_decide_eq_false in Hlocal.
      split; [split; [done | by intros [? _]] |].
      split; [done | by intros [[? [=]] _]].
  - (* some container *)
    assert (Hcontainers : ps_Containers (podSpec statefulSet) ≠ []) by (by rewrite Hcs).
    destruct (appendLocalVolumes_Done statefulSet db Hcontainers)
      as (s1 & Hlocal & Hnames & _).
    rewrite <- Hcs.
    unfold upsertDataVolume. rewrite Hlocal. simpl.
    destruct (findContainer ResourceSingularPostgres (ps_Containers (podSpec statefulSet)))
      as [[i container]|] eqn:Hfind.
    + destruct (findContainer_names _ _ _ _ _ Hnames Hfind) as (c1 & ->).
      destruct (decide (StorageType (Spec db) = StorageTypeEphemeral)) as [Heph|Hdur].
      * split; [split; [done | by intros [_ ?]] |].
        split; [done | by intros (_ & ? & _)].
      * destruct (Storage (Spec db)) as [pvc|]; simpl.
        -- split; [split; [done | by intros [_ ?]] |].
           split; [done | by intros (_ & _ & ?)].
        -- split; [split; [done | by intros [_ ?]] |]. split; [|done].
           intros _. split_and!; [by eexists | done | done].
    + rewrite (findContainer_names_None _ _ _ Hnames Hfind).
      split; [split; [done | by intros [_ ?]] |].
      split; [done | by intros ([? [=]] & _)].
Qed.


(** *** The environment of the user *)

Lemma fmap_alter_same {B : Type} (g : Container → B) (f : Container → Container)
    (i : nat) (cs : list Container) (x : Container) :
  cs !! i = Some x → g (f x) = g x → g <$> alter f i cs = g <$> cs.
Proof.
  revert i. induction cs as [|y cs IH]; intros [|i] Hx Hg; simpl in *; try done.
  - injection Hx as ->. by rewrite Hg.
  - f_equal. by apply IH.
Qed.

Lemma findContainer_alter (name : string) (cs : list Container) (i : nat)
    (container : Container) (f : Container → Container) :
  findContainer name cs = Some (i, container) →
  c_Name (f container) = c_Name container →
  findContainer name (alter f i cs) = Some (i, f container).
Proof.
  intros Hfind Hf.
  pose proof Hfind as (Hlookup & _ & _)%list_find_Some.
  destruct (findContainer_names name cs (alter f i cs) i container) as (c' & Hc');
    [by apply fmap_alter_same with container | done |].
  pose proof Hc' as (Hlookup' & _ & _)%list_find_Some.
  rewrite list_lookup_alter, Hlookup in Hlookup'. simpl in Hlookup'.
  rewrite decide_True in Hlookup' by done. congruence.
Qed.

(** X13: a variable of the pod template wins over every variable of its
    name that [upsertEnv] derived and over the earlier ones of the template:
    after [upsertEnv] and [upsertUserEnv] the container of the database is
    where it was, and the variable found under a name of the template is
    the last one the template declares under that name. *)
Theorem upsertUserEnv_overrides (statefulSet : StatefulSet) (db : Postgres)
    (envs : list EnvVar) (i : nat) (container : Container)
    (before after : list EnvVar) (e : EnvVar) :
  findContainer ResourceSingularPostgres (ps_Containers (podSpec statefulSet))
  = Some (i, container) →
  tpl_Env (PodTemplate (Spec db)) = before ++ e :: after →
  env_Name e ∉ env_Name <$> after →
  ∃ container' j,
    findContainer ResourceSingularPostgres
      (ps_Containers (podSpec (upsertUserEnv (upsertEnv statefulSet db envs) db)))
    = Some (i, container')
    ∧ list_find (λ x, env_Name x = env_Name e) (c_Env container') = Some (j, e).
Proof.
  intros Hfind Huser Hlast.
  unfold upsertEnv at 1. rewrite Hfind.
  set (derived := UpsertEnvVars (c_Env container) _).
  set (o1 := with_podSpec (setContainerEnv i derived) statefulSet).
  assert (Hfind1 : findContainer ResourceSingularPostgres (ps_Containers (podSpec o1))
                   = Some (i, set_c_Env derived container)).
  { change (ps_Containers (podSpec o1))
      with (alter (set_c_Env derived) i (ps_Containers (podSpec statefulSet))).
    by apply findContainer_alter. }
  unfold upsertUserEnv. rewrite Hfind1.
  set (final := UpsertEnvVars (c_Env (set_c_Env derived container)) _).
  destruct (list_find_UpsertAll_last env_Name derived before e after Hlast) as (j & Hj).
  exists (set_c_Env final (set_c_Env derived container)), j. split.
  - change (ps_Containers (podSpec (with_podSpec (setContainerEnv i final) o1)))
      with (alter (set_c_Env final) i (ps_Containers (podSpec o1))).
    by apply findContainer_alter.
  - unfold final. rewrite Huser. exact Hj.
Qed.


(** *** What the mutator keeps *)

(** A run of statements keeps the names, adds managed names only and keeps
    the mounts backed. *)
Local Abbreviation sound o o' :=
  (keepsNames o o' ∧ addsManagedOnly o o' ∧ (mountsBacked o → mountsBacked o')).

(** A name is among the managed ones. *)
Local Ltac managed_name := by apply (bool_decide_unpack _); vm_compute.

Lemma elem_of_names_prefix (l1 l2 : list string) (x : string) :
  l1 `prefix_of` l2 → x ∈ l1 → x ∈ l2.
Proof. intros [k ->] Hx. apply elem_of_app. by left. Qed.

Lemma keepsNames_refl (o : StatefulSet) : keepsNames o o.
Proof. by split_and!. Qed.

Lemma keepsNames_trans (o1 o2 o3 : StatefulSet) :
  keepsNames o1 o2 → keepsNames o2 o3 → keepsNames o1 o3.
Proof.
  intros (? & ? & ? & ? & ?) (? & ? & ? & ? & ?).
  split_and!; by etrans.
Qed.

Lemma addsManagedOnly_trans (o1 o2 o3 : StatefulSet) :
  addsManagedOnly o1 o2 → addsManagedOnly o2 o3 → addsManagedOnly o1 o3.
Proof.
  intros (Hc1 & Hv1 & Hk1) (Hc2 & Hv2 & Hk2). split_and!.
  - intros n [?%Hc1|?]%Hc2; tauto.
  - intros n [?%Hv1|?]%Hv2; tauto.
  - intros n [?%Hk1|?]%Hk2; tauto.
Qed.

Lemma sound_trans (o1 o2 o3 : StatefulSet) :
  sound o1 o2 → sound o2 o3 → sound o1 o3.
Proof.
  intros (Hk1 & Ha1 & Hb1) (Hk2 & Ha2 & Hb2). split_and!.
  - by apply keepsNames_trans with o2.
  - by apply addsManagedOnly_trans with o2.
  - auto.
Qed.

(** The containers, the volumes, the claim templates and the owners are as
    they were. *)
Lemma sound_same (o o' : StatefulSet) :
  ps_Containers (podSpec o') = ps_Containers (podSpec o) →
  ps_InitContainers (podSpec o') = ps_InitContainers (podSpec o) →
  ps_Volumes (podSpec o') = ps_Volumes (podSpec o) →
  ss_VolumeClaimTemplates (sts_Spec o') = ss_VolumeClaimTemplates (sts_Spec o) →
  om_OwnerReferences (sts_ObjectMeta o') = om_OwnerReferences (sts_ObjectMeta o) →
  sound o o'.
Proof.
  intros Hcs Hinit Hvs Hclaims Hrefs. split_and!.
  - unfold keepsNames, volumeNames, claimNames.
    by rewrite Hcs, Hinit, Hvs, Hclaims, Hrefs.
  - unfold addsManagedOnly, volumeNames, claimNames. rewrite Hcs, Hvs, Hclaims.
    split_and!; intros n ?; by left.
  - unfold mountsBacked, volumeNames, claimNames.
    by rewrite Hcs, Hvs, Hclaims.
Qed.

(** The container found under the name of the database is changed, volumes
    and claim templates are added. *)
Lemma sound_alter (o o' : StatefulSet) (i : nat) (container : Container)
    (f : Container → Container) :
  findContainer ResourceSingularPostgres (ps_Containers (podSpec o)) = Some (i, container) →
  ps_Containers (podSpec o') = alter f i (ps_Containers (podSpec o)) →
  c_Name (f container) = c_Name container →
  ps_InitContainers (podSpec o') = ps_InitContainers (podSpec o) →
  om_OwnerReferences (sts_ObjectMeta o') = om_OwnerReferences (sts_ObjectMeta o) →
  volumeNames o `prefix_of` volumeNames o' →
  claimNames o `prefix_of` claimNames o' →
  (∀ name, name ∈ volumeNames o' → name ∈ volumeNames o ∨ name ∈ managedVolumeNames) →
  (∀ name, name ∈ claimNames o' → name ∈ claimNames o ∨ name = "data") →
  (∀ name, name ∈ vm_Name <$> c_VolumeMounts (f container) →
           name ∈ vm_Name <$> c_VolumeMounts container
           ∨ name ∈ volumeNames o' ∨ name ∈ claimNames o') →
  sound o o'.
Proof.
  intros Hfind Hcs Hname Hinit Hrefs Hvs Hclaims Hvsonly Hclaimsonly Hmounts.
  pose proof Hfind as (Hlookup & _ & _)%list_find_Some.
  pose proof (fmap_alter_same c_Name f i _ container Hlookup Hname) as Hnames.
  split_and!.
  - unfold keepsNames. rewrite Hcs, Hinit, Hrefs, Hnames. by split_and!.
  - unfold addsManagedOnly. rewrite Hcs, Hnames. split_and!; [by left | done | done].
  - intros Hbacked i' container' Hfind' name Hin.
    rewrite Hcs, (findContainer_alter _ _ _ _ f Hfind Hname) in Hfind'.
    injection Hfind' as <- <-.
    destruct (Hmounts name Hin) as [Hold|[?|?]]; [|by left | by right].
    destruct (Hbacked i container Hfind name Hold);
      [left | right]; by eapply elem_of_names_prefix.
Qed.

(** A container without mounts is upserted, under the name of the database
    or of the exporter. *)
Lemma sound_upsertContainer (o o' : StatefulSet) (e : Container) :
  ps_Containers (podSpec o') = UpsertContainer (ps_Containers (podSpec o)) e →
  c_VolumeMounts e = [] →
  c_Name e ∈ [ResourceSingularPostgres; "exporter"] →
  (c_Name <$> ps_InitContainers (podSpec o))
    `prefix_of` (c_Name <$> ps_InitContainers (podSpec o')) →
  (or_UID <$> om_OwnerReferences (sts_ObjectMeta o))
    `prefix_of` (or_UID <$> om_OwnerReferences (sts_ObjectMeta o')) →
  ps_Volumes (podSpec o') = ps_Volumes (podSpec o) →
  ss_VolumeClaimTemplates (sts_Spec o') = ss_VolumeClaimTemplates (sts_Spec o) →
  sound o o' ∧ (c_Name e = ResourceSingularPostgres → mountsBacked o').
Proof.
  intros Hcs Hmounts Hmanaged Hinit Hrefs Hvs Hclaims.
  assert (Hfresh : c_Name e = ResourceSingularPostgres → mountsBacked o').
  { intros He i container Hfind name Hin. rewrite Hcs in Hfind.
    unfold findContainer, UpsertContainer in Hfind.
    rewrite <- He, list_find_UpsertByName in Hfind. injection Hfind as _ <-.
    rewrite Hmounts in Hin. by apply elem_of_nil in Hin. }
  split; [|done]. split_and!.
  - unfold keepsNames, volumeNames, claimNames. rewrite Hcs, Hvs, Hclaims.
    split_and!; [apply UpsertByName_keys_prefix | done..].
  - unfold addsManagedOnly, volumeNames, claimNames. rewrite Hcs, Hvs, Hclaims.
    split_and!; [|by left..].
    intros n [->|?]%UpsertByName_keys_elem; [by right | by left].
  - destruct (decide (c_Name e = ResourceSingularPostgres)) as [He|He]; [auto|].
    intros Hbacked i container Hfind. rewrite Hcs in Hfind.
    unfold findContainer, UpsertContainer in Hfind.
    rewrite list_find_UpsertByName_other in Hfind by done.
    unfold volumeNames, claimNames. rewrite Hvs, Hclaims.
    exact (Hbacked i container Hfind).
Qed.

Lemma setIdentity_sound (c : Controller) (postgresVersion : PostgresVersion)
    (db : Postgres) (o : StatefulSet) :
  sound o (setIdentity c postgresVersion db o)
  ∧ mountsBacked (setIdentity c postgresVersion db o).
Proof.
  destruct (sound_upsertContainer o (setIdentity c postgresVersion db o)
              (postgresContainer c db postgresVersion)) as [Hsound Hbacked];
    [done | done | by left | apply UpsertAll_keys_prefix | apply UpsertByName_keys_prefix
    | done | done |].
  split; [done|]. by apply Hbacked.
Qed.

Lemma upsertEnv_sound (o : StatefulSet) (db : Postgres) (envs : list EnvVar) :
  sound o (upsertEnv o db envs).
Proof.
  unfold upsertEnv.
  destruct (findContainer _ _) as [[i container]|] eqn:Hfind; [|by apply sound_same].
  eapply (sound_alter _ _ i container);
    [done | reflexivity | done | done | done | done | done | by left | by left | by left].
Qed.

Lemma upsertUserEnv_sound (o : StatefulSet) (db : Postgres) :
  sound o (upsertUserEnv o db).
Proof.
  unfold upsertUserEnv.
  destruct (findContainer _ _) as [[i container]|] eqn:Hfind; [|by apply sound_same].
  eapply (sound_alter _ _ i container);
    [done | reflexivity | done | done | done | done | done | by left | by left | by left].
Qed.

Lemma setScheduling_sound (db : Postgres) (o : StatefulSet) :
  sound o (setScheduling db o).
Proof. unfold setScheduling. destruct (nonempty _); by apply sound_same. Qed.

Lemma setAccountAndStrategy_sound (db : Postgres) (o : StatefulSet) :
  sound o (setAccountAndStrategy db o).
Proof. by apply sound_same. Qed.

Lemma upsertMonitoringContainer_sound (c : Controller) (o o' : StatefulSet)
    (db : Postgres) (postgresVersion : PostgresVersion) :
  upsertMonitoringContainer c o db postgresVersion = Done o' → sound o o'.
Proof.
  unfold upsertMonitoringContainer.
  destruct (Monitor (Spec db)) as [monitor|]; [|intros [= <-]; by apply sound_same].
  destruct (decide _); [|intros [= <-]; by apply sound_same].
  destruct (mon_Prometheus monitor) as [exporter|]; [|done]. simpl. intros [= <-].
  eapply sound_upsertContainer; [reflexivity | done | | done..].
  simpl. apply elem_of_cons. right. by apply list_elem_of_singleton.
Qed.

Lemma upsertMountAndVolume_sound (volumeMount : VolumeMount) (volume : Volume)
    (o : StatefulSet) :
  vm_Name volumeMount = vol_Name volume →
  vol_Name volume ∈ managedVolumeNames →
  sound o (upsertMountAndVolume volumeMount volume o).
Proof.
  intros Hname Hmanaged. unfold upsertMountAndVolume.
  destruct (findContainer _ _) as [[i container]|] eqn:Hfind; [|by apply sound_same].
  eapply (sound_alter _ _ i container);
    [done | reflexivity | done | done | done | apply UpsertByName_keys_prefix | done
    | | by left |].
  - intros name [->|?]%UpsertByName_keys_elem; [by right | by left].
  - intros name [->|?]%UpsertByName_keys_elem; [|by left].
    right; left. apply UpsertByName_keys_elem. by left.
Qed.

Lemma upsertArchiverSecret_sound (db : Postgres) (o : StatefulSet) :
  sound o (upsertArchiverSecret db o).
Proof.
  unfold upsertArchiverSecret.
  destruct (Archiver (Spec db)) as [archiver|]; [|by apply sound_same].
  destruct (arch_Storage archiver) as [storage|]; [|by apply sound_same].
  destruct (Local storage); [by apply sound_same|].
  apply upsertMountAndVolume_sound; [done | managed_name].
Qed.

Lemma upsertInitSources_sound (db : Postgres) (o : StatefulSet) :
  sound o (upsertInitSources db o).
Proof.
  unfold upsertInitSources.
  destruct (negb _); [|by apply sound_same].
  set (o1 := match Init (Spec db) with
             | Some {| init_PostgresWAL := Some wal |} => _
             | _ => o
             end).
  assert (H1 : sound o o1).
  { unfold o1. destruct (Init (Spec db)) as [[script [wal|]]|]; try by apply sound_same.
    destruct (Local (wal_Backend wal)); [by apply sound_same|].
    apply upsertMountAndVolume_sound; [done | managed_name]. }
  apply sound_trans with o1; [done|]. clearbody o1.
  destruct (Init (Spec db)) as [[[script|] wal]|]; try by apply sound_same.
  apply upsertMountAndVolume_sound; [done | managed_name].
Qed.

Lemma upsertShm_sound (o : StatefulSet) : sound o (upsertShm o).
Proof. apply upsertMountAndVolume_sound; [done | managed_name]. Qed.

Lemma upsertCustomConfig_sound (o : StatefulSet) (db : Postgres) :
  sound o (upsertCustomConfig o db).
Proof.
  unfold upsertCustomConfig.
  destruct (ConfigSecret (Spec db)); [|by apply sound_same].
  apply upsertMountAndVolume_sound; [done | managed_name].
Qed.

Lemma appendLocalVolume_sound (name : string) (loc : LocalSpec) (o o' : StatefulSet) :
  name ∈ managedVolumeNames →
  appendLocalVolume name loc o = Done o' → sound o o'.
Proof.
  intros Hmanaged. unfold appendLocalVolume.
  destruct (ps_Containers (podSpec o) !! 0%nat) as [first|] eqn:Hfirst; [|done].
  intros [= <-].
  set (g := set_c_VolumeMounts
              (c_VolumeMounts first
               ++ [ {| vm_Name := name; vm_MountPath := loc_MountPath loc |} ])).
  set (o' := with_podSpec _ _).
  assert (Hcs : ps_Containers (podSpec o') = alter g 0%nat (ps_Containers (podSpec o)))
    by done.
  assert (Hvs : volumeNames o' = volumeNames o ++ [name]).
  { unfold volumeNames.
    change (ps_Volumes (podSpec o'))
      with (ps_Volumes (podSpec o)
            ++ [ {| vol_Name := name; vol_VolumeSource := loc_VolumeSource loc |} ]).
    by rewrite fmap_app. }
  assert (Hnames : c_Name <$> ps_Containers (podSpec o')
                   = c_Name <$> ps_Containers (podSpec o)).
  { rewrite Hcs. by apply fmap_alter_same with first. }
  split_and!.
  - unfold keepsNames. rewrite Hnames, Hvs. split_and!; [done | done | | done | done].
    by apply prefix_app_r.
  - unfold addsManagedOnly. rewrite Hnames, Hvs. split_and!; [by left | | by left].
    intros n [?|Hn%list_elem_of_singleton]%elem_of_app; [by left | subst n; by right].
  - intros Hbacked i container' Hfind' mount Hin.
    destruct (findContainer_names _ _ (ps_Containers (podSpec o)) i container'
                (eq_sym Hnames) Hfind') as (container & Hfind).
    pose proof Hfind as (Hlookup & _ & _)%list_find_Some.
    pose proof Hfind' as (Hlookup' & _ & _)%list_find_Some.
    rewrite Hcs, list_lookup_alter in Hlookup'.
    assert (Hold : ∀ n, n ∈ vm_Name <$> c_VolumeMounts container →
                        n ∈ volumeNames o' ∨ n ∈ claimNames o').
    { intros n Hn. destruct (Hbacked i container Hfind n Hn) as [?|?]; [left | by right].
      rewrite Hvs. apply elem_of_app. by left. }
    destruct (decide (0%nat = i)) as [<-|Hi].
    + rewrite Hfirst in Hlookup'. simpl in Hlookup'. injection Hlookup' as <-.
      rewrite Hfirst in Hlookup. injection Hlookup as <-.
      simpl in Hin. rewrite fmap_app in Hin. apply elem_of_app in Hin as [Hin|Hin].
      * by apply Hold.
      * left. rewrite Hvs. apply elem_of_app. by right.
    + rewrite Hlookup in Hlookup'. injection Hlookup' as <-. by apply Hold.
Qed.

Lemma appendLocalVolumes_sound (o o' : StatefulSet) (db : Postgres) :
  appendLocalVolumes o db = Done o' → sound o o'.
Proof.
  unfold appendLocalVolumes.
  destruct (_ || _); [|intros [= <-]; by apply sound_same].
  destruct (match archiverLocal db with
            | Some pgLocalVol => appendLocalVolume "local-archive" pgLocalVol o
            | None => mret o
            end) as [o1|] eqn:H1; [|done].
  simpl. intros H2.
  apply sound_trans with o1.
  - destruct (archiverLocal db);
      [eapply appendLocalVolume_sound; [|done]; managed_name|].
    injection H1 as <-. by apply sound_same.
  - destruct (initLocal db);
      [eapply appendLocalVolume_sound; [|done]; managed_name|].
    injection H2 as <-. by apply sound_same.
Qed.

Lemma upsertDataVolume_sound (o o' : StatefulSet) (db db' : Postgres) :
  upsertDataVolume o db = Done (o', db') → sound o o'.
Proof.
  unfold upsertDataVolume.
  destruct (appendLocalVolumes o db) as [o1|] eqn:Hlocal; [|done]. simpl.
  intros Hrun. apply sound_trans with o1; [by eapply appendLocalVolumes_sound|].
  clear Hlocal.
  destruct (findContainer _ _) as [[i container]|] eqn:Hfind.
  2:{ injection Hrun as <- _. by apply sound_same. }
  destruct (decide _).
  - injection Hrun as <- _.
    eapply (sound_alter _ _ i container);
      [done | reflexivity | done | done | done | apply UpsertByName_keys_prefix | done
      | | by left |].
    + intros name [->|?]%UpsertByName_keys_elem; [right; managed_name | by left].
    + intros name [->|?]%UpsertByName_keys_elem; [|by left].
      right; left. apply UpsertByName_keys_elem. by left.
  - destruct (Storage (Spec db)) as [pvc|]; [|done]. simpl in Hrun.
    injection Hrun as <- _.
    eapply (sound_alter _ _ i container);
      [done | reflexivity | done | done | done | done | apply UpsertByName_keys_prefix
      | by left | |].
    + intros name [->|?]%UpsertByName_keys_elem; [by right | by left].
    + intros name [->|?]%UpsertByName_keys_elem; [|by left].
      right; right. apply UpsertByName_keys_elem. by left.
Qed.

(** The statements of the mutator after the first run of them. *)
Lemma statefulSetMutator_sound (c : Controller) (postgresVersion : PostgresVersion)
    (envList : list EnvVar) (db db1 : Postgres) (o o1 : StatefulSet) :
  statefulSetMutator c postgresVersion envList o db = Done (o1, db1) →
  sound (setIdentity c postgresVersion db o) o1.
Proof.
  unfold statefulSetMutator. cbv zeta.
  set (o0 := setIdentity c postgresVersion db o) in *.
  pose proof (sound_trans _ _ _
    (sound_trans _ _ _ (upsertEnv_sound o0 db envList)
       (upsertUserEnv_sound _ db))
    (setScheduling_sound db _)) as Hstart.
  set (o4 := setScheduling db _) in *.
  destruct (upsertMonitoringContainer c o4 db postgresVersion) as [o5|] eqn:Hmonitor;
    [|done].
  change (Done o5 ≫= ?f) with (f o5). cbv beta.
  pose proof (sound_trans _ _ _
    (sound_trans _ _ _ (upsertArchiverSecret_sound db o5)
       (upsertInitSources_sound db _))
    (upsertShm_sound _)) as Hsecrets.
  set (o8 := upsertShm _) in *.
  destruct (upsertDataVolume o8 db) as [[o9 db9]|] eqn:Hdata; [|done].
  change (Done (o9, db9) ≫= ?f) with (f (o9, db9)). cbv beta iota.
  intros [= <- <-].
  repeat (eapply sound_trans; [|first
    [ apply setAccountAndStrategy_sound | apply upsertCustomConfig_sound ]]).
  eapply sound_trans; [|by eapply upsertDataVolume_sound].
  eapply sound_trans; [|exact Hsecrets].
  eapply sound_trans; [exact Hstart|].
  by eapply upsertMonitoringContainer_sound.
Qed.

(** X14: the mutator of [ensureStatefulSet] never removes and never moves
    what it finds: the names of the containers, of the init containers, of
    the volumes and of the claim templates of the StatefulSet, and the
    owners, are a prefix of what they are afterwards; local backends or
    not. *)
Theorem statefulSetMutator_keeps_names (c : Controller) (postgresVersion : PostgresVersion)
    (envList : list EnvVar) (db db1 : Postgres) (o o1 : StatefulSet) :
  statefulSetMutator c postgresVersion envList o db = Done (o1, db1) →
  keepsNames o o1.
Proof.
  intros Hrun.
  destruct (setIdentity_sound c postgresVersion db o) as [(Hfirst & _ & _) _].
  destruct (statefulSetMutator_sound _ _ _ _ _ _ _ Hrun) as (Hrest & _ & _).
  by apply keepsNames_trans with (setIdentity c postgresVersion db o).
Qed.

(** X15: the mutator of [ensureStatefulSet] keeps the mounts backed: when
    every mount of the container of the database has a volume or a claim
    template of its name in the StatefulSet it starts from, so it is in
    what it returns; local backends or not.  The StatefulSet made from the
    empty object is such a one. *)
Theorem statefulSetMutator_mounts_backed (c : Controller)
    (postgresVersion : PostgresVersion) (envList : list EnvVar) (db db1 : Postgres)
    (o o1 : StatefulSet) :
  statefulSetMutator c postgresVersion envList o db = Done (o1, db1) →
  (mountsBacked o → mountsBacked o1)
  ∧ (o = emptyStatefulSet (Namespace db) (OffshootName db) → mountsBacked o1).
Proof.
  intros Hrun.
  destruct (setIdentity_sound c postgresVersion db o) as [(_ & _ & Hfirst) _].
  destruct (statefulSetMutator_sound _ _ _ _ _ _ _ Hrun) as (_ & _ & Hrest).
  assert (Hkeeps : mountsBacked o → mountsBacked o1) by auto.
  split; [done|]. intros ->. apply Hkeeps.
  intros i container Hfind. done.
Qed.

(** X21: the mutator of [ensureStatefulSet] adds managed names only: a
    container of what it returns has the name of a container it found, the
    name of the database or [exporter]; a volume has the name of a volume it
    found or one of the eight names of the upserts; a claim template has the
    name of a claim template it found or [data]. *)
Theorem statefulSetMutator_adds_managed_only (c : Controller)
    (postgresVersion : PostgresVersion) (envList : list EnvVar) (db db1 : Postgres)
    (o o1 : StatefulSet) :
  statefulSetMutator c postgresVersion envList o db = Done (o1, db1) →
  addsManagedOnly o o1.
Proof.
  intros Hrun.
  destruct (setIdentity_sound c postgresVersion db o) as [(_ & Hfirst & _) _].
  destruct (statefulSetMutator_sound _ _ _ _ _ _ _ Hrun) as (_ & Hrest & _).
  by apply addsManagedOnly_trans with (setIdentity c postgresVersion db o).
Qed.

(** X22: without local backends the mutator of [ensureStatefulSet] leaves
    alone what it does not manage: a container under a name other than the
    one of the database and [exporter], a volume under a name that is not
    managed and a claim template under a name other than [data] are in what
    it returns as they were, where they were. *)
Theorem statefulSetMutator_leaves_foreign (c : Controller)
    (postgresVersion : PostgresVersion) (envList : list EnvVar) (db db1 : Postgres)
    (o o1 : StatefulSet) :
  archiverLocal db = None →
  initLocal db = None →
  ResourceSingularPostgres ≠ "exporter" →
  statefulSetMutator c postgresVersion envList o db = Done (o1, db1) →
  (∀ i container,
     ps_Containers (podSpec o) !! i = Some container →
     c_Name container ∉ [ResourceSingularPostgres; "exporter"] →
     ps_Containers (podSpec o1) !! i = Some container)
  ∧ (∀ i volume,
       ps_Volumes (podSpec o) !! i = Some volume →
       vol_Name volume ∉ managedVolumeNames →
       ps_Volumes (podSpec o1) !! i = Some volume)
  ∧ (∀ i claim,
       ss_VolumeClaimTemplates (sts_Spec o) !! i = Some claim →
       pvc_Name claim ≠ "data" →
       ss_VolumeClaimTemplates (sts_Spec o1) !! i = Some claim).
Proof.
  intros Harchive Hinit Hname Hrun.
  destruct (statefulSetMutator_derived c postgresVersion envList db Harchive Hinit Hname)
    as [Hpanic | (containers & volumes & claims & db' & Hderived)].
  { by rewrite Hpanic in Hrun. }
  (* what is upserted is read off the StatefulSet made from the empty one *)
  pose (e := emptyStatefulSet "" "").
  destruct (setIdentity_sound c postgresVersion db e) as [(_ & Hfirst & _) _].
  destruct (statefulSetMutator_sound _ _ _ _ _ _ _ (Hderived e)) as (_ & Hrest & _).
  destruct (addsManagedOnly_trans _ _ _ Hfirst Hrest) as (Hcontainers & Hvolumes & Hclaims).
  assert (Hclaims' : ∀ b, ss_VolumeClaimTemplates
                            (sts_Spec (derivedStatefulSet c postgresVersion db
                                         containers volumes claims b))
                          = UpsertAll pvc_Name (ss_VolumeClaimTemplates (sts_Spec b)) claims).
  { intros b. unfold derivedStatefulSet, setScheduling. by destruct (nonempty _). }
  rewrite Hderived in Hrun. injection Hrun as <- _.
  split_and!.
  - intros i container Hlookup Hforeign.
    change (UpsertAll c_Name (ps_Containers (podSpec o)) containers !! i = Some container).
    apply UpsertAll_lookup_other; [done|]. intros Hin. apply Hforeign.
    destruct (Hcontainers (c_Name container)) as [Hnil|?]; [|by apply elem_of_nil in Hnil|done].
    change (c_Name container ∈ c_Name <$> UpsertAll c_Name [] containers).
    apply UpsertAll_keys_elem. by left.
  - intros i volume Hlookup Hforeign.
    change (UpsertAll vol_Name (ps_Volumes (podSpec o)) volumes !! i = Some volume).
    apply UpsertAll_lookup_other; [done|]. intros Hin. apply Hforeign.
    destruct (Hvolumes (vol_Name volume)) as [Hnil|?]; [|by apply elem_of_nil in Hnil|done].
    change (vol_Name volume ∈ vol_Name <$> UpsertAll vol_Name [] volumes).
    apply UpsertAll_keys_elem. by left.
  - intros i claim Hlookup Hforeign. rewrite Hclaims'.
    apply UpsertAll_lookup_other; [done|]. intros Hin. apply Hforeign.
    destruct (Hclaims (pvc_Name claim)) as [Hnil|?]; [|by apply elem_of_nil in Hnil|done].
    unfold claimNames. rewrite Hclaims'.
    apply UpsertAll_keys_elem. by left.
Qed.

(** *** The mount of a local backend *)

Lemma appendLocalVolume_first (name : string) (loc : LocalSpec) (o : StatefulSet)
    (first : Container) (rest : list Container) :
  ps_Containers (podSpec o) = first :: rest →
  ∃ o', appendLocalVolume name loc o = Done o'
        ∧ ps_Containers (podSpec o')
          = set_c_VolumeMounts
              (c_VolumeMounts first
               ++ [ {| vm_Name := name; vm_MountPath := loc_MountPath loc |} ]) first
            :: rest.
Proof.
  intros Hcs. unfold appendLocalVolume. rewrite Hcs. simpl.
  eexists. split; [reflexivity|].
  set (g := set_c_VolumeMounts _).
  change (alter g 0%nat (ps_Containers (podSpec o)) = g first :: rest).
  by rewrite Hcs.
Qed.

(** X16: for a database with a local archive, [upsertDataVolume] puts the
    mount [local-archive] into the first container, whatever its name; a
    container of the database that is not the first one gets the mount
    [data] and nothing else. *)
Theorem local_mount_in_first_container (statefulSet statefulSet' : StatefulSet)
    (db db' : Postgres) (loc : LocalSpec) (first : Container) (rest : list Container) :
  archiverLocal db = Some loc →
  ps_Containers (podSpec statefulSet) = first :: rest →
  upsertDataVolume statefulSet db = Done (statefulSet', db') →
  (∃ first',
     ps_Containers (podSpec statefulSet') !! 0%nat = Some first'
     ∧ c_Name first' = c_Name first
     ∧ {| vm_Name := "local-archive"; vm_MountPath := loc_MountPath loc |}
       ∈ c_VolumeMounts first')
  ∧ (∀ i container,
       findContainer ResourceSingularPostgres (first :: rest) = Some (i, container) →
       (0 < i)%nat →
       ∃ container',
         findContainer ResourceSingularPostgres (ps_Containers (podSpec statefulSet'))
         = Some (i, container')
         ∧ c_VolumeMounts container'
           = UpsertVolumeMount (c_VolumeMounts container)
               {| vm_Name := "data"; vm_MountPath := "/var/pv" |}).
Proof.
  intros Harchive Hcs.
  set (mount := {| vm_Name := "local-archive"; vm_MountPath := loc_MountPath loc |}).
  (* the local blocks *)
  assert (Hlocal : ∃ s2 first2,
            appendLocalVolumes statefulSet db = Done s2
            ∧ ps_Containers (podSpec s2) = first2 :: rest
            ∧ c_Name first2 = c_Name first
            ∧ mount ∈ c_VolumeMounts first2).
  { unfold appendLocalVolumes.
    rewrite archiverLocal_guard by (left; by eexists). rewrite Harchive.
    destruct (appendLocalVolume_first "local-archive" loc statefulSet first rest Hcs)
      as (s1 & -> & Hcs1). simpl.
    destruct (initLocal db) as [loc2|].
    - destruct (appendLocalVolume_first "local-init" loc2 s1 _ rest Hcs1)
        as (s2 & -> & Hcs2).
      eexists _, _. split_and!; [done | done | done |]. simpl.
      apply elem_of_app. left. apply elem_of_app. right. by apply list_elem_of_singleton.
    - eexists _, _. split_and!; [done | done | done |]. simpl.
      apply elem_of_app. right. by apply list_elem_of_singleton. }
  destruct Hlocal as (s2 & first2 & Hlocal & Hcs2 & Hname2 & Hmount2).
  unfold upsertDataVolume. rewrite Hlocal. simpl. rewrite Hcs2.
  assert (Hnames : c_Name <$> first2 :: rest = c_Name <$> first :: rest).
  { simpl. by rewrite Hname2. }
  set (data := {| vm_Name := "data"; vm_MountPath := "/var/pv" |}).
  destruct (findContainer ResourceSingularPostgres (first2 :: rest))
    as [[j found]|] eqn:Hfind.
  2:{ intros [= <- _]. rewrite Hcs2. split; [by exists first2 |].
      intros i container Hfound _.
      destruct (findContainer_names _ _ (first2 :: rest) _ _ Hnames Hfound) as (? & ?).
      congruence. }
  set (h := set_c_VolumeMounts (UpsertVolumeMount (c_VolumeMounts found) data)).
  assert (Hresult :
    ps_Containers (podSpec statefulSet') = alter h j (ps_Containers (podSpec s2)) →
    (∃ first',
       ps_Containers (podSpec statefulSet') !! 0%nat = Some first'
       ∧ c_Name first' = c_Name first ∧ mount ∈ c_VolumeMounts first')
    ∧ (∀ i container,
         findContainer ResourceSingularPostgres (first :: rest) = Some (i, container) →
         (0 < i)%nat →
         ∃ container',
           findContainer ResourceSingularPostgres (ps_Containers (podSpec statefulSet'))
           = Some (i, container')
           ∧ c_VolumeMounts container' = UpsertVolumeMount (c_VolumeMounts container) data)).
  { rewrite Hcs2. intros ->. split.
    - destruct j as [|j]; simpl.
      + apply list_find_Some in Hfind as (Hlookup & _ & _).
        injection Hlookup as <-. eexists. split_and!; [done | done |].
        simpl. by apply UpsertByName_elem_other.
      + by exists first2.
    - intros i container Hfound Hi.
      destruct (findContainer_names _ _ (first2 :: rest) _ _ Hnames Hfound) as (c2 & Hc2).
      rewrite Hc2 in Hfind. injection Hfind as <- <-.
      apply list_find_Some in Hfound as (Hlookup & _ & _).
      pose proof Hc2 as (Hlookup2 & _ & _)%list_find_Some.
      destruct i as [|i]; [lia|]. simpl in Hlookup, Hlookup2.
      rewrite Hlookup in Hlookup2. injection Hlookup2 as <-.
      exists (h container). split; [|done].
      by apply findContainer_alter. }
  destruct (decide _).
  - intros [= <- _]. by apply Hresult.
  - destruct (Storage (Spec db)) as [pvc|]; [|done]. simpl.
    intros [= <- _]. by apply Hresult.
Qed.

End WorkloadInvariants.

(** ** The monitor *)

Section MonitorProperties.
Context {monitorImports : MonitorImports}.

Lemma newMonitorController_monitored (opt : Options) (postgres : tapi_Postgres) :
  monitored postgres →
  newMonitorController opt postgres = (Some (exporterController opt), None).
Proof.
  intros (monitorSpec & Hm & [p Hp]). unfold newMonitorController. by rewrite Hm, Hp.
Qed.

Lemma newMonitorController_not_monitored (opt : Options) (postgres : tapi_Postgres) :
  ¬ monitored postgres →
  ∃ msg, newMonitorController opt postgres = (None, Some (Errorf msg)).
Proof.
  intros Hno. unfold newMonitorController.
  destruct (tapi_Monitor (tapi_Spec postgres)) as [monitorSpec|] eqn:Hm; [|by eexists].
  destruct (tapi_Prometheus monitorSpec) as [p|] eqn:Hp; [|by eexists].
  destruct Hno. exists monitorSpec. split; [done | by eexists].
Qed.

Lemma monitored_dec (postgres : tapi_Postgres) : monitored postgres ∨ ¬ monitored postgres.
Proof.
  unfold monitored.
  destruct (tapi_Monitor (tapi_Spec postgres)) as [monitorSpec|]; [|right; by intros (? & ? & _)].
  destruct (tapi_Prometheus monitorSpec) as [p|] eqn:Hp.
  - left. exists monitorSpec. split; [done | by eexists].
  - right. intros (? & [= <-] & [? ?]). congruence.
Qed.

(** [newMonitorController] returns a controller or an error, never both and
    never neither: a controller exactly for a database with a monitor that
    has a Prometheus part. *)
Lemma newMonitorController_controller_iff (opt : Options) (postgres : tapi_Postgres) :
  (monitored postgres
   ↔ newMonitorController opt postgres = (Some (exporterController opt), None))
  ∧ (¬ monitored postgres
     ↔ ∃ msg, newMonitorController opt postgres = (None, Some (Errorf msg)))
  ∧ (tapi_Monitor (tapi_Spec postgres) = None →
     newMonitorController opt postgres
     = (None, Some (Errorf ("MonitorSpec not found in "
                            +:+ fmt_v_PostgresSpec (tapi_Spec postgres))))).
Proof.
  split_and!.
  - split; [apply newMonitorController_monitored|].
    intros Hrun. destruct (monitored_dec postgres) as [?|Hno]; [done|].
    destruct (newMonitorController_not_monitored opt postgres Hno) as (msg & Hmsg).
    congruence.
  - split; [apply newMonitorController_not_monitored|].
    intros (msg & Hmsg) Hyes.
    rewrite (newMonitorController_monitored opt postgres Hyes) in Hmsg. done.
  - intros Hm. unfold newMonitorController. by rewrite Hm.
Qed.


(** X18: when the updated database has no monitor, [updateMonitor] builds
    the controller from the old database: if that one has a monitor with a
    Prometheus part, the update is called once, with the old monitor and
    nil; if not, no call is made and the error of [newMonitorController]
    for the old database is returned. *)
Theorem updateMonitor_controller_choice (opt : Options)
    (oldPostgres updatedPostgres : tapi_Postgres) (a : Agent) :
  tapi_Monitor (tapi_Spec updatedPostgres) = None →
  (monitored oldPostgres →
     updateMonitor opt oldPostgres updatedPostgres a
     = Done (invoke (CallUpdateMonitor (exporterController opt)
                       (tapi_Meta updatedPostgres)
                       (tapi_Monitor (tapi_Spec oldPostgres)) None) a))
  ∧ (¬ monitored oldPostgres →
     ∃ msg, newMonitorController opt oldPostgres = (None, Some (Errorf msg))
            ∧ updateMonitor opt oldPostgres updatedPostgres a
              = Done (Some (Errorf msg), a)).
Proof.
  intros Hnone. unfold updateMonitor. rewrite Hnone. split.
  - intros Hyes. by rewrite (newMonitorController_monitored opt oldPostgres Hyes).
  - intros Hno.
    destruct (newMonitorController_not_monitored opt oldPostgres Hno) as (msg & Hnew).
    exists msg. by rewrite Hnew.
Qed.

End MonitorProperties.

(** ** The properties on examples *)

(** C2 on an example: three replicas on an empty control plane, both
    services are created and so is the verb. *)
Lemma ensureService_combines_outcomes_witness :
  @ensureService exampleImports (plainPostgres (Some 3)) emptyWorld
  = Done ((VerbCreated, None),
          default emptyWorld
            (finalWorld (@ensureService exampleImports (plainPostgres (Some 3)) emptyWorld))).
Proof.
  pose (db := plainPostgres (Some 3)).
  pose (w1 := default emptyWorld (finalWorld (@ensurePrimaryService exampleImports db emptyWorld))).
  pose (w2 := default emptyWorld
                (finalWorld (@ensureStandbyService exampleImports db
                               (recorded " Service" VerbCreated w1)))).
  assert (H1 : @ensurePrimaryService exampleImports db emptyWorld
               = Done ((VerbCreated, None), w1)) by (vm_compute; reflexivity).
  assert (H2 : 1 < @replicasOf db) by (vm_compute; reflexivity).
  assert (H3 : @ensureStandbyService exampleImports db (recorded " Service" VerbCreated w1)
               = Done ((VerbCreated, None), w2)) by (vm_compute; reflexivity).
  destruct (@ensureService_combines_outcomes exampleImports db emptyWorld w1 w2
              VerbCreated VerbCreated H1 H2 H3) as [Hrun _].
  fold db. rewrite Hrun. reflexivity.
Defined.

(** C3 as stated fails: with one replica on an empty control plane the
    primary service is created, and [ensureService] returns Unchanged. *)
Lemma single_replica_created_primary_returns_Unchanged :
  returned (@ensurePrimaryService exampleImports (plainPostgres (Some 1)) emptyWorld)
  = Some (VerbCreated, None)
  ∧ returned (@ensureService exampleImports (plainPostgres (Some 1)) emptyWorld)
    = Some (VerbUnchanged, None)
  ∧ returned (@ensureService exampleImports (plainPostgres None) emptyWorld)
    = Some (VerbUnchanged, None).
Proof. split_and!; vm_compute; reflexivity. Qed.

(** C3, amended, on the same example: the world after [ensureService] is the
    one after the primary service and its event. *)
Lemma ensureService_standby_gating_witness :
  @ensureService exampleImports (plainPostgres (Some 1)) emptyWorld
  = Done ((VerbUnchanged, None),
          recorded " Service" VerbCreated
            (default emptyWorld
               (finalWorld (@ensurePrimaryService exampleImports (plainPostgres (Some 1))
                              emptyWorld)))).
Proof.
  pose (db := plainPostgres (Some 1)).
  pose (w1 := default emptyWorld (finalWorld (@ensurePrimaryService exampleImports db emptyWorld))).
  assert (H1 : @ensurePrimaryService exampleImports db emptyWorld
               = Done ((VerbCreated, None), w1)) by (vm_compute; reflexivity).
  destruct (@ensureService_standby_gating exampleImports db emptyWorld w1 VerbCreated H1)
    as [Hsingle _].
  apply Hsingle. vm_compute. discriminate.
Defined.


(** C5 on an example: the endpoint [minio.example.com]. *)
Lemma archive_s3_endpoint_iff_witness :
  envValue "ARCHIVE_S3_ENDPOINT" "minio.example.com"
  ∈ @archiveEnv exampleImports (archivingPostgres (s3AndGcs "minio.example.com")).
Proof.
  destruct (@archive_s3_endpoint_iff exampleImports
              (archivingPostgres (s3AndGcs "minio.example.com"))
              {| arch_Storage := Some (s3AndGcs "minio.example.com") |}
              (s3AndGcs "minio.example.com") (exampleS3 "minio.example.com" "")
              eq_refl eq_refl eq_refl) as (_ & _ & _ & _ & Hminio & _).
  apply Hminio. reflexivity.
Defined.

(** C6 as stated fails: with S3 as the single backend and a region, the
    environment has a sixth variable, [RESTORE_S3_REGION]. *)
Lemma pitr_env_with_s3_region_has_six_variables :
  @walRecoveryConfig exampleImports (exampleWal (UseS3 (exampleS3 "" "us-east-1")) (Some true))
  = Done [envValue "RESTORE" "true";
          envValue "RESTORE_S3_PREFIX" "s3://backups/pg";
          envValue "RESTORE_S3_REGION" "us-east-1";
          envValue "PITR" "true";
          envValue "TARGET_INCLUSIVE" "true";
          envValue "TARGET_TIME" "2024-01-01T00:00:00Z"].
Proof. vm_compute. reflexivity. Qed.

(** C6, amended, on an example: GCS as the single backend, the five
    variables. *)
Lemma pitr_env_emission_witness :
  @walRecoveryConfig exampleImports (exampleWal (UseGCS exampleGCS) (Some true))
  = Done [envValue "RESTORE" "true";
          envValue "RESTORE_GS_PREFIX" "gs://backups/pg";
          envValue "PITR" "true";
          envValue "TARGET_INCLUSIVE" "true";
          envValue "TARGET_TIME" "2024-01-01T00:00:00Z"].
Proof.
  destruct (@pitr_env_emission exampleImports "backup-secret" (UseGCS exampleGCS))
    as (extras & env & _ & Hrun & _ & Hfive & _).
  unfold exampleWal, exampleTarget. rewrite Hrun, (Hfive I). reflexivity.
Defined.

(** C7 on an example: a StatefulSet [demo/pg] without labels is in the way. *)
Lemma ensureStatefulSet_naming_collision_witness :
  @ensureStatefulSet exampleImports exampleController (plainPostgres None) exampleVersion []
    foreignStatefulSetWorld
  = Done ((VerbUnchanged,
           Some (Errorf ("intended statefulSet " +:+ quoted "demo/pg" +:+ " already exists")),
           plainPostgres None),
          requested (CallGet KStatefulSet "demo" "pg") foreignStatefulSetWorld).
Proof.
  destruct (@ensureStatefulSet_naming_collision exampleImports exampleController
              (plainPostgres None) exampleVersion [] foreignStatefulSetWorld)
    as [Hcollision _].
  apply (Hcollision (emptyStatefulSet "demo" "pg")).
  - reflexivity.
  - vm_compute. reflexivity.
  - left. vm_compute. discriminate.
Defined.

(** C8 on an example: a monitor of another vendor. *)
Lemma ensureStatsService_soft_skip_witness :
  @ensureStatsService exampleImports
    (examplePostgres None None None
       (Some {| mon_Agent := "coreos.com/operator"; mon_Prometheus := None |})
       "Durable" (Some exampleStorage))
    emptyWorld
  = Done ((VerbUnchanged, None), emptyWorld).
Proof.
  apply (@ensureStatsService_soft_skip exampleImports).
  right. eexists. split; [reflexivity|]. vm_compute. discriminate.
Defined.

(** C9 on an example: a recovery target whose inclusive flag is nil. *)
Lemma walRecoveryConfig_dereferences_TargetInclusive_witness :
  @walRecoveryConfig exampleImports (exampleWal (UseGCS exampleGCS) None)
  = Panic NilDereference.
Proof.
  destruct (@walRecoveryConfig_dereferences_TargetInclusive exampleImports
              (exampleWal (UseGCS exampleGCS) None) (exampleTarget None) eq_refl)
    as [Hnil _].
  apply Hnil. reflexivity.
Defined.

(** C10 on an example: an empty list of access modes becomes
    [ReadWriteOnce] in the database object. *)
Lemma upsertDataVolume_access_modes_witness :
  ∃ statefulSet' db',
    @upsertDataVolume exampleImports postgresOnlyStatefulSet (plainPostgres None)
    = Done (statefulSet', db')
    ∧ pvcs_AccessModes <$> Storage (Spec db') = Some ["ReadWriteOnce"].
Proof.
  destruct (@upsertDataVolume_access_modes exampleImports postgresOnlyStatefulSet
              (plainPostgres None) 0%nat
              (@postgresContainer exampleImports exampleController (plainPostgres None)
                 exampleVersion)
              eq_refl) as [Hdurable _].
  destruct (Hdurable exampleStorage) as
    (statefulSet' & db' & pvc' & claim & Hrun & Hstorage & _ & _ & _ & Hempty & _).
  - vm_compute. discriminate.
  - reflexivity.
  - exists statefulSet', db'. split; [exact Hrun|].
    rewrite Hstorage. simpl. destruct (Hempty eq_refl) as [-> _]. reflexivity.
Defined.

(** X20 on an example: the database [demo/pg] with durable storage, created
    and then reconciled again. *)
Lemma ensureStatefulSet_reapplied_unchanged_example :
  ∃ w1 w2 o1 db1,
    @ensureStatefulSet exampleImports exampleController (plainPostgres None) exampleVersion []
      emptyWorld = Done ((VerbCreated, None, db1), w1)
    ∧ w_StatefulSets w1 !! ("demo", "pg") = Some o1
    ∧ @ensureStatefulSet exampleImports exampleController (plainPostgres None) exampleVersion []
        w1 = Done ((VerbUnchanged, None, db1), w2)
    ∧ w_StatefulSets w2 = w_StatefulSets w1
    ∧ pvcs_AccessModes <$> Storage (Spec db1) = Some ["ReadWriteOnce"].
Proof.
  pose (run := @statefulSetMutator exampleImports exampleController exampleVersion []
                 (emptyStatefulSet "demo" "pg") (plainPostgres None)).
  pose (o1 := match run with Done (o, _) => o | Panic _ => emptyStatefulSet "demo" "pg" end).
  pose (db1 := match run with Done (_, d) => d | Panic _ => plainPostgres None end).
  destruct (@ensureStatefulSet_reapplied_unchanged exampleImports exampleController
              exampleVersion [] (plainPostgres None) db1 o1 emptyWorld)
    as (w1 & w2 & Hfirst & Hstored & Hsecond & Hsame & _).
  - reflexivity.
  - reflexivity.
  - vm_compute. discriminate.
  - vm_compute. reflexivity.
  - vm_compute. reflexivity.
  - reflexivity.
  - reflexivity.
  - vm_compute. reflexivity.
  - exists w1, w2, o1, db1. split_and!; [done..|]. vm_compute. reflexivity.
Defined.

(** X1 on an example: a recovery target with a time and no transaction
    id. *)
Lemma walRecoveryConfig_target_variables_witness :
  ∃ env,
    @walRecoveryConfig exampleImports (exampleWal (UseGCS exampleGCS) (Some true)) = Done env
    ∧ "TARGET_TIME" ∈ env_Name <$> env
    ∧ "TARGET_XID" ∉ env_Name <$> env.
Proof.
  pose (wal := exampleWal (UseGCS exampleGCS) (Some true)).
  pose (env := match @walRecoveryConfig exampleImports wal with
               | Done env => env
               | Panic _ => []
               end).
  destruct (@walRecoveryConfig_target_variables exampleImports wal env eq_refl)
    as [Htargets _].
  destruct (Htargets (exampleTarget (Some true)) eq_refl) as ([Htime _] & _ & [Hxid _]).
  exists env. split_and!.
  - reflexivity.
  - apply Htime. discriminate.
  - intros Hin. by apply Hxid in Hin.
Defined.

(** X2 on an example: an endpoint of one's own and no region. *)
Lemma walRecoveryConfig_s3_options_witness :
  ∃ env,
    @walRecoveryConfig exampleImports
      (exampleWal (UseS3 (exampleS3 "minio.example.com" "")) (Some true)) = Done env
    ∧ envValue "RESTORE_S3_PREFIX" "s3://backups/pg" ∈ env
    ∧ "RESTORE_S3_ENDPOINT" ∈ env_Name <$> env
    ∧ "RESTORE_S3_REGION" ∉ env_Name <$> env.
Proof.
  pose (wal := exampleWal (UseS3 (exampleS3 "minio.example.com" "")) (Some true)).
  pose (env := match @walRecoveryConfig exampleImports wal with
               | Done env => env
               | Panic _ => []
               end).
  destruct (@walRecoveryConfig_s3_options exampleImports wal
              (exampleS3 "minio.example.com" "") env eq_refl eq_refl)
    as (Hprefix & [Hendpoint _] & [Hregion _]).
  exists env. split_and!.
  - reflexivity.
  - exact Hprefix.
  - apply Hendpoint. split; [discriminate|]. apply HasSuffix_false. reflexivity.
  - intros Hin. by apply Hregion in Hin.
Defined.

(** X7 on an example: the StatefulSet of [demo/pg] is created and its pods
    never get to run. *)
Lemma ensureStatefulSet_after_write_witness :
  ∃ db1 w',
    @ensureStatefulSet exampleImports exampleController (plainPostgres None) exampleVersion []
      (refusingWorld podsNeverRun)
    = Done ((VerbUnchanged, Some (ErrClient "timed out waiting for the condition"), db1), w')
    ∧ is_Some (w_StatefulSets w' !! ("demo", "pg"))
    ∧ w_Events w' = []
    ∧ w_Calls w' = [CallGet KStatefulSet "demo" "pg"; CallGet KStatefulSet "demo" "pg";
                    CallCreate KStatefulSet "demo" "pg"; CallWaitUntilPodRunning "demo"].
Proof.
  pose (db := plainPostgres None).
  pose (w := refusingWorld podsNeverRun).
  pose (w0 := requested (CallGet KStatefulSet "demo" "pg") w).
  pose (written := CreateOrPatchStatefulSet "demo" "pg"
                     (@statefulSetMutator exampleImports exampleController exampleVersion [])
                     db w0).
  pose (o1 := match written with
              | Done ((Some o, _, _, _), _) => o
              | _ => emptyStatefulSet "demo" "pg"
              end).
  pose (db1 := match written with Done ((_, _, _, d), _) => d | Panic _ => db end).
  pose (w1 := default w0 (finalWorld written)).
  destruct (@ensureStatefulSet_after_write exampleImports exampleController db db1
              exampleVersion [] w w0 w1 o1 VerbCreated)
    as (_ & Hwait & _).
  - vm_compute. reflexivity.
  - vm_compute. reflexivity.
  - exists db1. eexists. split_and!.
    + apply Hwait; [discriminate | reflexivity].
    + vm_compute. by eexists.
    + reflexivity.
    + reflexivity.
Defined.

(** X23 on an example: the creation of the StatefulSet of [demo/pg] is
    refused; the access modes are written all the same. *)
Lemma ensureStatefulSet_create_refused_witness :
  ∃ db1,
    @ensureStatefulSet exampleImports exampleController (plainPostgres None) exampleVersion []
      (refusingWorld creationRefused)
    = Done ((VerbUnchanged, Some (ErrClient "forbidden"), db1),
            requested (CallCreate KStatefulSet "demo" "pg")
              (requested (CallGet KStatefulSet "demo" "pg")
                 (requested (CallGet KStatefulSet "demo" "pg")
                    (refusingWorld creationRefused))))
    ∧ pvcs_AccessModes <$> Storage (Spec db1) = Some ["ReadWriteOnce"].
Proof.
  pose (run := @statefulSetMutator exampleImports exampleController exampleVersion []
                 (emptyStatefulSet "demo" "pg") (plainPostgres None)).
  pose (o1 := match run with Done (o, _) => o | Panic _ => emptyStatefulSet "demo" "pg" end).
  pose (db1 := match run with Done (_, d) => d | Panic _ => plainPostgres None end).
  exists db1. split.
  - apply (@ensureStatefulSet_create_refused exampleImports exampleController
             (plainPostgres None) db1 exampleVersion [] (refusingWorld creationRefused) o1
             (ErrClient "forbidden")).
    + reflexivity.
    + reflexivity.
    + reflexivity.
    + vm_compute. reflexivity.
  - vm_compute. reflexivity.
Defined.

(** X8 on an example: three replicas, and no service can be read. *)
Lemma ensureService_stops_at_primary_error_witness :
  @ensureService exampleImports (plainPostgres (Some 3)) (refusingWorld servicesUnreadable)
  = Done ((VerbUnchanged, Some (ErrClient "connection refused")),
          requested (CallGet KService "demo" "pg") (refusingWorld servicesUnreadable)).
Proof.
  apply (@ensureService_stops_at_primary_error exampleImports (plainPostgres (Some 3))
           (refusingWorld servicesUnreadable)); reflexivity.
Defined.

(** X9 on an example: three replicas, and the service of the standbys cannot
    be read. *)
Lemma ensureService_keeps_primary_when_standby_fails_witness :
  ∃ primary w',
    @ensureService exampleImports (plainPostgres (Some 3)) (refusingWorld standbyUnreadable)
    = Done ((VerbUnchanged, Some (ErrClient "connection refused")), w')
    ∧ w_Services w' !! ("demo", "pg") = Some primary
    ∧ length (w_Events w') = 1%nat.
Proof.
  destruct (@ensureService_keeps_primary_when_standby_fails exampleImports
              (plainPostgres (Some 3)) (refusingWorld standbyUnreadable)
              (ErrClient "connection refused"))
    as (primary & w' & Hrun & Hservices & _ & Hevents);
    [reflexivity | reflexivity | reflexivity | reflexivity | reflexivity | reflexivity |].
  exists primary, w'. split_and!.
  - exact Hrun.
  - rewrite Hservices. apply lookup_insert_eq.
  - rewrite Hevents. reflexivity.
Defined.

(** X10 on an example: the governing service of [demo/pg] on an empty
    control plane. *)
Lemma ensureGoverningService_settles_witness :
  ∃ svc w1,
    @ensureGoverningService exampleImports (plainPostgres None) emptyWorld = Done (None, w1)
    ∧ w_Services w1 !! ("demo", "pg-gvr") = Some svc
    ∧ svs_ClusterIP (svc_Spec svc) = "None"
    ∧ @ensureGoverningService exampleImports (plainPostgres None) w1
      = Done (None, requested (CallGet KService "demo" "pg-gvr") w1).
Proof.
  destruct (@ensureGoverningService_settles exampleImports (plainPostgres None) emptyWorld)
    as (svc & w1 & Hrun & Hfound & _ & Hheadless & _ & _ & _ & Hagain);
    [reflexivity|].
  exists svc, w1. split_and!; [exact Hrun | exact Hfound | exact Hheadless | exact Hagain].
Defined.

(** X11 on an example: a StatefulSet with a sidecar only. *)
Lemma upserts_skip_without_container_witness :
  @upsertShm exampleImports sidecarOnlyStatefulSet = sidecarOnlyStatefulSet
  ∧ @upsertDataVolume exampleImports sidecarOnlyStatefulSet (plainPostgres None)
    = Done (sidecarOnlyStatefulSet, plainPostgres None).
Proof.
  destruct (@upserts_skip_without_container exampleImports sidecarOnlyStatefulSet
              (plainPostgres None) [] "" noVolumeSource eq_refl)
    as (_ & _ & _ & _ & Hshm & _ & _ & Hdata).
  split; [exact Hshm | apply Hdata; reflexivity].
Defined.

(** X13 on an example: the template declares the password twice, the
    second declaration is the one in the container. *)
Lemma upsertUserEnv_overrides_witness :
  ∃ container' j,
    findContainer "postgres"
      (ps_Containers (podSpec (@upsertUserEnv exampleImports
         (@upsertEnv exampleImports postgresOnlyStatefulSet userEnvPostgres [])
         userEnvPostgres)))
    = Some (0%nat, container')
    ∧ list_find (λ x, env_Name x = "POSTGRES_PASSWORD") (c_Env container')
      = Some (j, envValue "POSTGRES_PASSWORD" "second").
Proof.
  apply (@upsertUserEnv_overrides exampleImports postgresOnlyStatefulSet userEnvPostgres []
           0%nat
           (@postgresContainer exampleImports exampleController (plainPostgres None)
              exampleVersion)
           [envValue "POSTGRES_PASSWORD" "first"; envValue "TZ" "UTC"] []
           (envValue "POSTGRES_PASSWORD" "second")).
  - reflexivity.
  - reflexivity.
  - intros Hin. by apply elem_of_nil in Hin.
Defined.

(** X14 on an example: a StatefulSet with a sidecar before the container of
    the database, and a database with a local archive. *)
Lemma statefulSetMutator_keeps_names_witness :
  ∃ o1 db1,
    @statefulSetMutator exampleImports exampleController exampleVersion []
      sidecarFirstStatefulSet localArchivePostgres = Done (o1, db1)
    ∧ keepsNames sidecarFirstStatefulSet o1.
Proof.
  pose (run := @statefulSetMutator exampleImports exampleController exampleVersion []
                 sidecarFirstStatefulSet localArchivePostgres).
  pose (o1 := match run with Done (o, _) => o | Panic _ => sidecarFirstStatefulSet end).
  pose (db1 := match run with Done (_, d) => d | Panic _ => localArchivePostgres end).
  exists o1, db1.
  assert (Hrun : run = Done (o1, db1)) by (vm_compute; reflexivity).
  split; [exact Hrun|].
  exact (@statefulSetMutator_keeps_names exampleImports exampleController exampleVersion []
           localArchivePostgres db1 sidecarFirstStatefulSet o1 Hrun).
Defined.

(** X15 on an example: the StatefulSet of a database with a local archive,
    made from the empty object. *)
Lemma statefulSetMutator_mounts_backed_witness :
  ∃ o1 db1,
    @statefulSetMutator exampleImports exampleController exampleVersion []
      (emptyStatefulSet "demo" "pg") localArchivePostgres = Done (o1, db1)
    ∧ @mountsBacked exampleImports o1.
Proof.
  pose (run := @statefulSetMutator exampleImports exampleController exampleVersion []
                 (emptyStatefulSet "demo" "pg") localArchivePostgres).
  pose (o1 := match run with Done (o, _) => o | Panic _ => emptyStatefulSet "demo" "pg" end).
  pose (db1 := match run with Done (_, d) => d | Panic _ => localArchivePostgres end).
  exists o1, db1.
  assert (Hrun : run = Done (o1, db1)) by (vm_compute; reflexivity).
  split; [exact Hrun|].
  destruct (@statefulSetMutator_mounts_backed exampleImports exampleController
              exampleVersion [] localArchivePostgres db1 (emptyStatefulSet "demo" "pg") o1
              Hrun)
    as [_ Hempty].
  apply Hempty. reflexivity.
Defined.

(** X21 on the example of X14. *)
Lemma statefulSetMutator_adds_managed_only_witness :
  ∃ o1 db1,
    @statefulSetMutator exampleImports exampleController exampleVersion []
      sidecarFirstStatefulSet localArchivePostgres = Done (o1, db1)
    ∧ @addsManagedOnly exampleImports sidecarFirstStatefulSet o1.
Proof.
  pose (run := @statefulSetMutator exampleImports exampleController exampleVersion []
                 sidecarFirstStatefulSet localArchivePostgres).
  pose (o1 := match run with Done (o, _) => o | Panic _ => sidecarFirstStatefulSet end).
  pose (db1 := match run with Done (_, d) => d | Panic _ => localArchivePostgres end).
  exists o1, db1.
  assert (Hrun : run = Done (o1, db1)) by (vm_compute; reflexivity).
  split; [exact Hrun|].
  exact (@statefulSetMutator_adds_managed_only exampleImports exampleController
           exampleVersion [] localArchivePostgres db1 sidecarFirstStatefulSet o1 Hrun).
Defined.

(** X22 on an example: the sidecar is in the result as it was. *)
Lemma statefulSetMutator_leaves_foreign_witness :
  ∃ o1 db1,
    @statefulSetMutator exampleImports exampleController exampleVersion []
      sidecarFirstStatefulSet (plainPostgres None) = Done (o1, db1)
    ∧ ps_Containers (podSpec o1) !! 0%nat = Some sidecarContainer.
Proof.
  pose (run := @statefulSetMutator exampleImports exampleController exampleVersion []
                 sidecarFirstStatefulSet (plainPostgres None)).
  pose (o1 := match run with Done (o, _) => o | Panic _ => sidecarFirstStatefulSet end).
  pose (db1 := match run with Done (_, d) => d | Panic _ => plainPostgres None end).
  exists o1, db1.
  assert (Hrun : run = Done (o1, db1)) by (vm_compute; reflexivity).
  split; [exact Hrun|].
  destruct (@statefulSetMutator_leaves_foreign exampleImports exampleController
              exampleVersion [] (plainPostgres None) db1 sidecarFirstStatefulSet o1)
    as [Hcontainers _].
  - reflexivity.
  - reflexivity.
  - discriminate.
  - exact Hrun.
  - apply (Hcontainers 0%nat sidecarContainer); [reflexivity|].
    intros Hin. by apply (bool_decide_pack _) in Hin.
Defined.

(** X16 on the same example: the mount of the local archive is in the
    sidecar, and the container of the database has the mount [data]
    only. *)
Lemma local_mount_in_first_container_witness :
  ∃ o' db' first' container',
    @upsertDataVolume exampleImports sidecarFirstStatefulSet localArchivePostgres
    = Done (o', db')
    ∧ ps_Containers (podSpec o') !! 0%nat = Some first'
    ∧ c_Name first' = "sidecar"
    ∧ {| vm_Name := "local-archive"; vm_MountPath := "/walarchive" |}
      ∈ c_VolumeMounts first'
    ∧ findContainer "postgres" (ps_Containers (podSpec o'))
      = Some (1%nat, container')
    ∧ c_VolumeMounts container' = [ {| vm_Name := "data"; vm_MountPath := "/var/pv" |} ].
Proof.
  pose (run := @upsertDataVolume exampleImports sidecarFirstStatefulSet localArchivePostgres).
  pose (o' := match run with Done (o, _) => o | Panic _ => sidecarFirstStatefulSet end).
  pose (db' := match run with Done (_, d) => d | Panic _ => localArchivePostgres end).
  destruct (@local_mount_in_first_container exampleImports sidecarFirstStatefulSet o'
              localArchivePostgres db'
              {| loc_VolumeSource := hostPath "/srv/wal"; loc_MountPath := "/walarchive";
                 loc_SubPath := "" |}
              sidecarContainer
              [@postgresContainer exampleImports exampleController (plainPostgres None)
                 exampleVersion])
    as [(first' & Hfirst & Hname & Hmount) Hdatabase].
  - reflexivity.
  - reflexivity.
  - vm_compute. reflexivity.
  - destruct (Hdatabase 1%nat
                (@postgresContainer exampleImports exampleController (plainPostgres None)
                   exampleVersion))
      as (container' & Hfound & Hmounts); [reflexivity | lia |].
    exists o', db', first', container'.
    split_and!; [vm_compute; reflexivity | exact Hfirst | exact Hname | exact Hmount
                | exact Hfound | exact Hmounts].
Defined.

(** X18 on an example: the monitor is removed from a database that had
    one. *)
Lemma updateMonitor_controller_choice_witness :
  @updateMonitor exampleMonitorImports exampleOptions
    (exampleMonitored (Some (Some "every 10s"))) (exampleMonitored None) idleAgent
  = Done (None,
          @Build_Agent exampleMonitorImports (λ _, None)
            [CallUpdateMonitor
               {| pc_Namespace := "kube-system"; pc_Image := "kubedb/operator:0.8.0" |}
               ("pg" : @tapi_ObjectMeta exampleMonitorImports)
               (Some (Some "every 10s")) None]).
Proof.
  destruct (@updateMonitor_controller_choice exampleMonitorImports exampleOptions
              (exampleMonitored (Some (Some "every 10s"))) (exampleMonitored None)
              idleAgent eq_refl)
    as [Hold _].
  apply Hold. exists (Some "every 10s"). split; [reflexivity | by eexists].
Defined.

(** X19 on an example: the StatefulSet with the sidecar, and a database
    without local backends. *)
Lemma statefulSetMutator_idempotent_without_local_witness :
  ∃ o1 db1,
    @statefulSetMutator exampleImports exampleController exampleVersion []
      sidecarFirstStatefulSet (plainPostgres None) = Done (o1, db1)
    ∧ @statefulSetMutator exampleImports exampleController exampleVersion []
        o1 (plainPostgres None) = Done (o1, db1).
Proof.
  pose (run := @statefulSetMutator exampleImports exampleController exampleVersion []
                 sidecarFirstStatefulSet (plainPostgres None)).
  pose (o1 := match run with Done (o, _) => o | Panic _ => sidecarFirstStatefulSet end).
  pose (db1 := match run with Done (_, d) => d | Panic _ => plainPostgres None end).
  exists o1, db1.
  assert (Hrun : run = Done (o1, db1)) by (vm_compute; reflexivity).
  split; [exact Hrun|].
  apply (@statefulSetMutator_idempotent_without_local exampleImports exampleController
           exampleVersion [] (plainPostgres None) db1 sidecarFirstStatefulSet o1).
  - reflexivity.
  - reflexivity.
  - discriminate.
  - exact Hrun.
Defined.
